(** * FalseMarkets-Trading: backtest simulator, fitness scoring and
      evolutionary selection

    A shallow embedding of [src/lib/backtest.ts] (genome decoders, SMA via
    prefix sums, the bar-by-bar simulation [runBacktest], [computeFitness],
    [backtestAgent], [crossoverMutate]) and of the generation cycle
    [runGeneration] of the dashboard page, with its portfolio snapshot, the
    agent mapping of the data layer ([dbToAgent], [agentToDb]) and the first
    population of the onboarding dialog ([rng], [buildAgents]).

    Numbers.  A JavaScript [number] is modelled by an exact rational [Q]
    (compared with [==]); integer-valued results of [Math.round],
    [Math.floor], [Math.ceil] and counters are [Z].  A division whose divisor
    can be zero in the source is written [jsdiv] and yields [None] for the
    non-finite result; every other division has a divisor that the ingestion
    contract (positive close prices, positive initial capital) keeps away
    from zero.  [Math.tanh] and [Math.sqrt] have no rational values, so the
    simulator is parametrised by them; [tanhQ] and [sqrtQ] below are
    nine-decimal instances used to run the model on concrete bars.  For the
    same purpose the quantities that accumulate (daily returns, their sums,
    cash and units after a rebalance) are stored in lowest terms: [Qred] is
    the identity up to [==].

    Rounding.  The program computes in double precision, and a value of
    the exact model can differ from the program's in its last bits: a
    product that [toFixed] rounds on a tie, the prefix sums behind the
    moving averages, cash plus position after a rebalance, a
    fitness-weighted sum.  Two such places change what the simulator does:
    [Math.tanh] returns exactly 1 for large arguments ([tanhSat]), and the
    prefix sums are rounded at every addition, so the two averages of a flat
    series differ.  The moving averages and the cross detection are
    therefore also written over an arbitrary number type ([Arith]) and run
    on IEEE 754 binary64 ([binary64]).  The properties below are stated in
    forms that the rounding of each operation preserves (ranges, order,
    signs, counts, positions, equalities between results of one and the
    same expression), sample values are taken away from rounding ties, and
    what depends on a rounded value itself is evaluated on [binary64]; a
    lemma that needs exact averages says so.  Agent numbers are integers
    held in a [number]: they are exact up to [2^53] and rounded beyond
    ([toDouble]). *)

From Stdlib Require Import QArith Qround Qabs Qminmax ZArith Lia Lqa Ascii String.
From Stdlib Require Import PrimFloat.
From Stdlib Require Import Sorted.
From stdpp Require Import base option list gmap strings pretty.

Local Open Scope Q_scope.

(** ** JavaScript number primitives *)

Definition Qltb (x y : Q) : bool :=
  match x ?= y with Lt => true | _ => false end.

(** [Math.round]: nearest integer, ties towards plus infinity. *)
Definition Math_round (x : Q) : Z := Qfloor (x + (1 # 2)).

(** [+x.toFixed(f)]: the sign is split off, then the magnitude is rounded to
    the nearest multiple of [10^-f], the larger one on a tie. *)
Definition toFixed (f : Z) (x : Q) : Q :=
  let scale := inject_Z (10 ^ f) in
  if Qltb x 0
  then - (inject_Z (Qfloor ((- x) * scale + (1 # 2))) / scale)
  else inject_Z (Qfloor (x * scale + (1 # 2))) / scale.

(** [a / b] where [b] may be zero: [None] stands for [NaN] or an infinity. *)
Definition jsdiv (a b : Q) : option Q :=
  if Qeq_bool b 0 then None else Some (Qred (a / b)).

(** [l.reduce((s, r) => s + r, 0)] *)
Definition Qsum (l : list Q) : Q := fold_left (fun s r => Qred (s + r)) l 0.

(** ** Nine-decimal instances of [Math.tanh] and [Math.sqrt] *)

(** Lambert's continued fraction [x / (1 + x^2 / (3 + x^2 / (5 + ...)))],
    evaluated from level [k] downwards for [depth] levels. *)
Fixpoint lambert (x2 : Q) (k : Z) (depth : nat) : Q :=
  match depth with
  | O => inject_Z k
  | S d => inject_Z k + x2 / lambert x2 (k + 2) d
  end.

Definition nine : Z := 10 ^ 9.

Definition tanhQ (x : Q) : Q :=
  let t := Qabs x / lambert (Qred (x * x)) 1 90 in
  let m := Z.min (nine - 1) (Z.max 0 (Qfloor (t * inject_Z nine))) in
  if Qltb x 0 then - (inject_Z m / inject_Z nine) else inject_Z m / inject_Z nine.

Definition sqrtQ (x : Q) : Q :=
  inject_Z (Z.sqrt (Qfloor (x * inject_Z (nine * nine)))) / inject_Z nine.

(** [Math.tanh] as double-precision implementations compute it for large
    arguments: exactly 1 or -1 from magnitude 22 on (the distance of the true
    value to 1 is then far below half a unit in the last place). *)
Definition tanhSat (x : Q) : Q :=
  if Qle_bool 22 (Qabs x) then (if Qltb x 0 then -1 else 1) else tanhQ x.

(** ** Data model *)

Record OHLCVBar := {
  date : string;
  open : Q;
  high : Q;
  low : Q;
  close : Q;
  volume : Q
}.

Inductive Action := entry | exit.

Record TradeSignal := {
  sig_date : string;
  sig_price : Q;
  action : Action;
  exposure : Q
}.

Record BacktestResult := {
  totalReturn : Q;
  sharpe : Q;
  maxDrawdown : Q;
  winRate : Q;
  trades : Z;
  fitness : Q;
  equityCurve : list (string * Q);
  tradeSignals : list TradeSignal;
  fastPeriod : Z;
  slowPeriod : Z;
  asset : string
}.

(** ** Genome decoders *)

Definition decodeFastMA (v : Q) : Z := Z.max 5 (Math_round (5 + v * 45)).

Definition decodeSlowMA (v : Q) : Z := Z.max 20 (Math_round (20 + v * 180)).

Definition decodeAssetIdx (v : Q) : Z := Z.min 27 (Z.max 0 (Math_round (v * 27))).

(** The two periods the simulator works with: a slow period that does not
    exceed the fast one is pushed above it. *)
Definition simPeriods (fastMAv slowMAv : Q) : Z * Z :=
  let fastP := decodeFastMA fastMAv in
  let slowP := decodeSlowMA slowMAv in
  if (slowP <=? fastP)%Z
  then (fastP, (fastP + Z.max 10 (Qceiling (inject_Z fastP * 0.25)))%Z)
  else (fastP, slowP).

(** ** SMA via prefix sums *)

Fixpoint prefixFrom (acc : Q) (prices : list Q) : list Q :=
  acc :: match prices with
         | [] => []
         | p :: ps => prefixFrom (acc + p) ps
         end.

(** Entry [i] of the moving average: [null] before a full window. *)
Definition smaEntry (prefix : list Q) (period : Z) (i : nat) : option Q :=
  if (Z.of_nat i <? period - 1)%Z then None
  else Some ((nth (i + 1) prefix 0 - nth (i + 1 - Z.to_nat period) prefix 0)
             / inject_Z period).

Definition computeSMA (prices : list Q) (period : Z) : list (option Q) :=
  let prefix := prefixFrom 0 prices in
  map (smaEntry prefix period) (seq 0 (length prices)).

(** ** Fitness formula *)

Definition computeFitness (sharpe totalReturnPct winRatePct maxDrawdownPct : Q) : Q :=
  let sNorm := (Qmin (Qmax sharpe (-2)) 4 + 2) / 6 in
  let rNorm := (Qmin (Qmax totalReturnPct (-50)) 150 + 50) / 200 in
  let wNorm := winRatePct / 100 in
  let dNorm := 1 - Qmin (Qmax maxDrawdownPct 0) 60 / 60 in
  let raw := 0.40 * sNorm + 0.30 * rNorm + 0.20 * wNorm + 0.10 * dNorm in
  toFixed 1 (Qmin (Qmax raw 0) 1 * 100).

(** The walk-forward consistency factor applied to the base fitness. *)
Definition consistencyPenalty (year2Ret : Q) : Q :=
  if Qltb year2Ret (-0.20) then 0.50
  else if Qltb year2Ret (-0.05) then 0.75
  else 1.0.

(** ** Core backtest *)

(** The mutable locals of the simulation loop of [runBacktest]. *)
Record LoopState := {
  cash : Q;
  position : Q;
  currentExposure : Q;
  entryEquity : Q;
  wins : Z;
  losses : Z;
  curve : list (string * Q);
  signals : list TradeSignal;
  dailyReturns : list (option Q);
  prevFSMA : option Q;
  prevSSMA : option Q;
  peak : Q;
  maxDD : Q
}.

Definition initState (initialCapital : Q) : LoopState :=
  {| cash := initialCapital; position := 0; currentExposure := 0;
     entryEquity := 0; wins := 0; losses := 0;
     curve := []; signals := []; dailyReturns := [];
     prevFSMA := None; prevSSMA := None;
     peak := initialCapital; maxDD := 0 |}.

(** Cash, units held, entry equity and the win and loss counters: what one
    rebalance touches. *)
Record Book := {
  b_cash : Q;
  b_position : Q;
  b_entryEquity : Q;
  b_wins : Z;
  b_losses : Z
}.

Definition bookOf (st : LoopState) : Book :=
  {| b_cash := cash st; b_position := position st;
     b_entryEquity := entryEquity st;
     b_wins := wins st; b_losses := losses st |}.

(** Buy or sell the difference between the target and the held units. *)
Definition rebalance (price equity targetExposure curExposure : Q) (b : Book) : Book :=
  let targetPositionDollar := equity * targetExposure in
  let targetUnits := targetPositionDollar / price in
  let delta := targetUnits - b_position b in
  if Qltb 0 delta then
    let cost := Qmin (delta * price) (b_cash b) in
    let actualUnits := cost / price in
    {| b_cash := Qred (b_cash b - cost);
       b_position := Qred (b_position b + actualUnits);
       b_entryEquity := if Qeq_bool curExposure 0 then equity else b_entryEquity b;
       b_wins := b_wins b; b_losses := b_losses b |}
  else if Qltb delta 0 then
    let actualUnits := Qmin (Qabs delta) (b_position b) in
    let proceeds := actualUnits * price in
    let position' := b_position b - actualUnits in
    let cash' := b_cash b + proceeds in
    if Qltb (position' * price) (equity * 0.005) then
      let exitEquity := cash' + position' * price in
      let won := Qltb (b_entryEquity b) exitEquity in
      {| b_cash := Qred exitEquity;
         b_position := 0;
         b_entryEquity := b_entryEquity b;
         b_wins := if won then (b_wins b + 1)%Z else b_wins b;
         b_losses := if won then b_losses b else (b_losses b + 1)%Z |}
    else
      {| b_cash := Qred cash'; b_position := Qred position';
         b_entryEquity := b_entryEquity b;
         b_wins := b_wins b; b_losses := b_losses b |}
  else b.

Section Simulator.

(** [Math.tanh] and [Math.sqrt]. *)
Variable tanh : Q -> Q.
Variable sqrt : Q -> Q.

(** The symbol table and the display labels of [./priceData], a module that
    is imported by [backtest.ts] and not part of the sources at hand. *)
Variable TOP_15 : list string.
Variable SYMBOL_LABEL : gmap string string.

(** [TOP_15[decodeAssetIdx(v)]]: [None] is [undefined]. *)
Definition assetSymbol (assetIdxV : Q) : option string :=
  TOP_15 !! Z.to_nat (decodeAssetIdx assetIdxV).

(** A property key: [undefined] is coerced to the string "undefined". *)
Definition propKey (k : option string) : string := default "undefined"%string k.

Definition assetLabel (assetIdxV : Q) : string :=
  default "BTC"%string (SYMBOL_LABEL !! propKey (assetSymbol assetIdxV)).

(** [(1 - riskAversion) * Math.tanh(((fSMA - sSMA) / sSMA) * 15) * 0.99] *)
Definition exposureFormula (riskAversion fSMA sSMA : Q) : Q :=
  (1 - riskAversion) * tanh (((fSMA - sSMA) / sSMA) * 15) * 0.99.

Definition targetExposureOf (riskAversion fSMA sSMA : Q) : Q :=
  if Qltb sSMA fSMA then exposureFormula riskAversion fSMA sSMA else 0.

(** Golden and death cross detection against the previous bar's averages. *)
Definition crossSignals (riskAversion : Q) (bar : OHLCVBar)
    (prevF prevS : option Q) (fSMA sSMA : Q) : list TradeSignal :=
  match prevF, prevS with
  | Some pF, Some pS =>
      if Qltb sSMA fSMA && Qle_bool pF pS then
        [ {| sig_date := date bar; sig_price := close bar; action := entry;
             exposure := toFixed 4 (exposureFormula riskAversion fSMA sSMA) |} ]
      else if Qle_bool fSMA sSMA && Qltb pS pF then
        [ {| sig_date := date bar; sig_price := close bar; action := exit;
             exposure := 0 |} ]
      else []
  | _, _ => []
  end.

(** One iteration of the loop over the bars, for bar [i] with its two
    moving-average entries. *)
Definition barStep (riskAversion initialCapital : Q) (st : LoopState)
    (x : nat * (OHLCVBar * (option Q * option Q))) : LoopState :=
  let '(i, (bar, (fS, sS))) := x in
  let price := close bar in
  let equity := cash st + position st * price in
  let dailyReturns' :=
    if (0 <? i)%nat then
      let prevEquity := from_option snd initialCapital (last (curve st)) in
      dailyReturns st ++ [jsdiv (equity - prevEquity) prevEquity]
    else dailyReturns st in
  let curve' := curve st ++ [(date bar, toFixed 2 equity)] in
  let peak' := if Qltb (peak st) equity then equity else peak st in
  let dd := if Qltb 0 peak' then ((peak' - equity) / peak') * 100 else 0 in
  let maxDD' := if Qltb (maxDD st) dd then dd else maxDD st in
  match fS, sS with
  | Some fSMA, Some sSMA =>
      let signals' :=
        signals st ++ crossSignals riskAversion bar (prevFSMA st) (prevSSMA st) fSMA sSMA in
      let targetExposure := targetExposureOf riskAversion fSMA sSMA in
      if Qle_bool (Qabs (targetExposure - currentExposure st)) 0.01 then
        {| cash := cash st; position := position st;
           currentExposure := currentExposure st;
           entryEquity := entryEquity st; wins := wins st; losses := losses st;
           curve := curve'; signals := signals'; dailyReturns := dailyReturns';
           prevFSMA := fS; prevSSMA := sS; peak := peak'; maxDD := maxDD' |}
      else
        let b := rebalance price equity targetExposure (currentExposure st) (bookOf st) in
        {| cash := b_cash b; position := b_position b;
           currentExposure := Qred ((b_position b * price) / Qmax equity 1);
           entryEquity := b_entryEquity b; wins := b_wins b; losses := b_losses b;
           curve := curve'; signals := signals'; dailyReturns := dailyReturns';
           prevFSMA := fS; prevSSMA := sS; peak := peak'; maxDD := maxDD' |}
  | _, _ =>
      {| cash := cash st; position := position st;
         currentExposure := currentExposure st;
         entryEquity := entryEquity st; wins := wins st; losses := losses st;
         curve := curve'; signals := signals st; dailyReturns := dailyReturns';
         prevFSMA := fS; prevSSMA := sS; peak := peak'; maxDD := maxDD' |}
  end.

(** The bars of the loop, each with its index and its entries of the fast
    and the slow average. *)
Definition loopInput (bars : list OHLCVBar) (fastP slowP : Z)
    : list (nat * (OHLCVBar * (option Q * option Q))) :=
  let closes := map close bars in
  zip (seq 0 (length bars))
      (zip bars (zip (computeSMA closes fastP) (computeSMA closes slowP))).

Definition runLoop (riskAversion initialCapital : Q)
    (xs : list (nat * (OHLCVBar * (option Q * option Q)))) (st : LoopState) : LoopState :=
  fold_left (barStep riskAversion initialCapital) xs st.

(** Annualised Sharpe ratio of the daily returns; a non-finite return makes
    the deviation [NaN], which fails [std > 0]. *)
Definition sharpeOf (rets : list (option Q)) : Q :=
  let n := inject_Z (Z.of_nat (length rets)) in
  if (2 <? length rets)%nat then
    match mapM (fun r : option Q => r) rets with
    | Some rs =>
        let mean := Qred (Qsum rs / n) in
        let variance := fold_left (fun s r => Qred (s + (r - mean) ^ 2)) rs 0 / n in
        let std := sqrt variance in
        if Qltb 0 std then (mean / std) * sqrt 252 else 0
    | None => 0
    end
  else 0.

Definition finalEquityOf (bars : list OHLCVBar) (st : LoopState) : Q :=
  cash st + position st * List.last (map close bars) 0.

Definition totalReturnOf (initialCapital finalEquity : Q) : Q :=
  ((finalEquity - initialCapital) / initialCapital) * 100.

Definition winRateOf (st : LoopState) : Q :=
  let totalTrades := (wins st + losses st)%Z in
  if (0 <? totalTrades)%Z
  then (inject_Z (wins st) / inject_Z totalTrades) * 100
  else 0.

Definition baseFitnessOf (initialCapital : Q) (bars : list OHLCVBar) (st : LoopState) : Q :=
  computeFitness (sharpeOf (dailyReturns st))
                 (totalReturnOf initialCapital (finalEquityOf bars st))
                 (winRateOf st) (maxDD st).

Definition midEquityOf (initialCapital : Q) (st : LoopState) : Q :=
  let midIdx := (length (curve st) / 2)%nat in
  from_option snd initialCapital (curve st !! midIdx).

Definition year2RetOf (initialCapital : Q) (bars : list OHLCVBar) (st : LoopState) : Q :=
  let midEquity := midEquityOf initialCapital st in
  if Qltb 0 midEquity
  then (finalEquityOf bars st - midEquity) / midEquity
  else 0.

Definition finalState (bars : list OHLCVBar) (fastMAv slowMAv riskAversion initialCapital : Q)
    : LoopState :=
  let '(fastP, slowP) := simPeriods fastMAv slowMAv in
  runLoop riskAversion initialCapital (loopInput bars fastP slowP) (initState initialCapital).

Definition runBacktest (bars : list OHLCVBar)
    (fastMAv slowMAv riskAversion initialCapital : Q) : option BacktestResult :=
  if (length bars <? 50)%nat then None else
  let '(fastP, slowP) := simPeriods fastMAv slowMAv in
  let st := finalState bars fastMAv slowMAv riskAversion initialCapital in
  let finalEquity := finalEquityOf bars st in
  let totalReturn := totalReturnOf initialCapital finalEquity in
  let sharpe := sharpeOf (dailyReturns st) in
  let totalTrades := (wins st + losses st)%Z in
  let winRate := winRateOf st in
  let baseFitness := baseFitnessOf initialCapital bars st in
  let fitness :=
    toFixed 1 (baseFitness * consistencyPenalty (year2RetOf initialCapital bars st)) in
  Some {| totalReturn := toFixed 2 totalReturn;
          sharpe := toFixed 3 sharpe;
          maxDrawdown := toFixed 2 (maxDD st);
          winRate := toFixed 1 winRate;
          trades := totalTrades;
          fitness := fitness;
          equityCurve := curve st;
          tradeSignals := signals st;
          fastPeriod := fastP;
          slowPeriod := slowP;
          asset := default "BTC"%string (SYMBOL_LABEL !! propKey (assetSymbol 0)) |}.

Definition defaultCapital : Q := 100000.

(** The loop state on entry to bar [k]. *)
Definition stateBefore (bars : list OHLCVBar)
    (fastMAv slowMAv riskAversion initialCapital : Q) (k : nat) : LoopState :=
  let '(fastP, slowP) := simPeriods fastMAv slowMAv in
  runLoop riskAversion initialCapital (take k (loopInput bars fastP slowP))
          (initState initialCapital).

(** The loop state when bar [k] has been processed. *)
Definition stateAfter (bars : list OHLCVBar)
    (fastMAv slowMAv riskAversion initialCapital : Q) (k : nat) : LoopState :=
  stateBefore bars fastMAv slowMAv riskAversion initialCapital (S k).

End Simulator.

(** No borrowing and no short position at price [price]: cash and units are
    non-negative, so the position is worth at most the equity. *)
Definition solvent (price : Q) (st : LoopState) : Prop :=
  0 <= cash st /\ 0 <= position st /\
  position st * price <= cash st + position st * price /\
  0 <= cash st + position st * price.

(** No two neighbours of the list are the same action. *)
Fixpoint alternating (l : list Action) : Prop :=
  match l with
  | a :: ((b :: _) as t) => a <> b /\ alternating t
  | _ => True
  end.

(** ** Agents and genome evolution *)

Inductive Status := active | extinct | breeding | newborn.

Inductive Archetype := momentum | defensive | volatility | mean_reversion | hybrid.

Record SMAGenome := {
  fastMA : Q;
  slowMA : Q;
  riskAversion : Q;
  assetIdx : Q
}.

Record AgentGenome := {
  ag_id : string;
  ag_name : string;
  ag_generation : Z;
  ag_fitness : Q;
  ag_status : Status;
  ag_archetype : Archetype;
  ag_sharpe : Q;
  ag_maxDrawdown : Q;
  ag_winRate : Q;
  ag_totalReturn : Q;
  ag_trades : Z;
  ag_parentIds : option (list string);
  genome : SMAGenome
}.

Definition is_extinct (s : Status) : bool :=
  match s with extinct => true | _ => false end.

Definition alive (a : AgentGenome) : bool := negb (is_extinct (ag_status a)).

Definition withStatus (s : Status) (a : AgentGenome) : AgentGenome :=
  {| ag_id := ag_id a; ag_name := ag_name a; ag_generation := ag_generation a;
     ag_fitness := ag_fitness a; ag_status := s; ag_archetype := ag_archetype a;
     ag_sharpe := ag_sharpe a; ag_maxDrawdown := ag_maxDrawdown a;
     ag_winRate := ag_winRate a; ag_totalReturn := ag_totalReturn a;
     ag_trades := ag_trades a; ag_parentIds := ag_parentIds a;
     genome := genome a |}.

(** [{ ...agent, fitness: r.fitness, sharpe: +r.sharpe.toFixed(2), ... }] *)
Definition withMetrics (r : BacktestResult) (a : AgentGenome) : AgentGenome :=
  {| ag_id := ag_id a; ag_name := ag_name a; ag_generation := ag_generation a;
     ag_fitness := fitness r; ag_status := ag_status a;
     ag_archetype := ag_archetype a;
     ag_sharpe := toFixed 2 (sharpe r);
     ag_maxDrawdown := toFixed 1 (maxDrawdown r);
     ag_winRate := toFixed 1 (winRate r);
     ag_totalReturn := toFixed 1 (totalReturn r);
     ag_trades := trades r; ag_parentIds := ag_parentIds a;
     genome := genome a |}.

Definition archetypeFromGenome (fastMAv slowMAv : Q) : Archetype :=
  let f := decodeFastMA fastMAv in
  let s := decodeSlowMA slowMAv in
  let spread := (s - f)%Z in
  if (f <=? 10)%Z && (spread <=? 25)%Z then momentum
  else if (130 <=? s)%Z then defensive
  else if (spread <=? 15)%Z then volatility
  else if (25 <=? f)%Z && (80 <=? s)%Z then mean_reversion
  else hybrid.

Definition clamp01 (v : Q) : Q := Qmin 1 (Qmax 0 v).

Definition MUT : Q := 0.12.

Definition BACKTEST_BARS : nat := 730.

Definition BREED_PREFIXES : list string :=
  ["Alpha"; "Beta"; "Gamma"; "Delta"; "Sigma"; "Omega"; "Apex"; "Vega"; "Rho";
   "Theta"; "Nova"; "Flux"; "Prime"; "Quant"; "Edge"; "Nexus"; "Pulse"; "Blaze";
   "Cipher"; "Drift"]%string.

Definition BREED_SUFFIXES : list string :=
  ["Hunter"; "Rider"; "Surge"; "Strike"; "Hawk"; "Wolf"; "Storm"; "Pulse";
   "Wave"; "Blade"; "Force"; "Shift"; "Crest"; "Scout"; "Guard"; "Run"; "Burst";
   "Fade"; "Watch"; "Climb"]%string.

(** *** Agent identifiers: ["AGT-" + String(n).padStart(3, "0")] *)

(** [s.replace(pat, "")]: the first occurrence of [pat] is removed. *)
Definition removeFirst (pat s : string) : string :=
  match String.index 0 pat s with
  | Some n =>
      String.append (String.substring 0 n s)
        (String.substring (n + String.length pat)
                   (String.length s - n - String.length pat) s)
  | None => s
  end.

Definition isSpace (c : Ascii.ascii) : bool :=
  let n := Ascii.nat_of_ascii c in
  ((9 <=? n) && (n <=? 13) || (n =? 32))%nat.

Definition digitOf (c : Ascii.ascii) : option Z :=
  let n := Ascii.nat_of_ascii c in
  if ((48 <=? n) && (n <=? 57))%nat then Some (Z.of_nat (n - 48)) else None.

Fixpoint skipSpaces (s : string) : string :=
  match s with
  | String c s' => if isSpace c then skipSpaces s' else s
  | EmptyString => s
  end.

(** The value of the longest prefix of decimal digits, [None] without one. *)
Fixpoint readDigits (acc : option Z) (s : string) : option Z :=
  match s with
  | String c s' =>
      match digitOf c with
      | Some d => readDigits (Some (from_option (fun a => a * 10 + d) d acc)%Z) s'
      | None => acc
      end
  | EmptyString => acc
  end.

(** [parseInt(s, 10)]: [None] is [NaN]. *)
Definition parseInt10 (s : string) : option Z :=
  match skipSpaces s with
  | String c s' =>
      if Ascii.eqb c "-"%char then Z.opp <$> readDigits None s'
      else if Ascii.eqb c "+"%char then readDigits None s'
      else readDigits None (String c s')
  | EmptyString => None
  end.

Fixpoint padStart0 (fuel : nat) (width : nat) (s : string) : string :=
  match fuel with
  | O => s
  | S fuel' =>
      if (String.length s <? width)%nat
      then padStart0 fuel' width (String "0"%char s)
      else s
  end.

(** An integer held in a [number]: exact up to [2^53] in absolute value,
    beyond it the nearest integer with 53 significant bits, the even one on
    a tie.  (Magnitudes from [10^21] on, which [String] prints with an
    exponent, are outside the identifiers considered below.) *)
Definition toDouble (z : Z) : Z :=
  let a := Z.abs z in
  if (a <=? 2 ^ 53)%Z then z
  else
    let e := (Z.log2 a - 52)%Z in
    let q := (a / 2 ^ e)%Z in
    let r := (a mod 2 ^ e)%Z in
    let half := (2 ^ (e - 1))%Z in
    let q' := if (r <? half)%Z then q
              else if (half <? r)%Z then (q + 1)%Z
              else if Z.even q then q else (q + 1)%Z in
    (Z.sgn z * (q' * 2 ^ e))%Z.

(** [a + b] on integer-valued numbers. *)
Definition numAdd (a b : Z) : Z := toDouble (a + b).

(** [`AGT-${String(n).padStart(3, "0")}`] *)
Definition agentId (n : Z) : string :=
  String.append "AGT-" (padStart0 3 3 (pretty n)).

(** The identifier numbered [maxId + i + 1] where the sum is exact (array
    indices and small numbers). *)
Definition freshId (maxId : Z) (i : nat) : string :=
  agentId (maxId + Z.of_nat i + 1)%Z.

(** The identifier of the [i]-th offspring above the highest number in use:
    [`AGT-${String(maxId + i + 1).padStart(3, "0")}`], the two additions
    being those of [number]. *)
Definition offspringId (maxId : Z) (i : nat) : string :=
  agentId (numAdd (numAdd maxId (Z.of_nat i)) 1).

(** [Math.max(...agents.map(a => parseInt(a.id.replace("AGT-", ""), 10) || 0), 0)]:
    [parseInt] returns the [number] nearest to the integer it reads. *)
Definition maxIdOf (agents : list AgentGenome) : Z :=
  foldr Z.max 0%Z
        (map (fun a => default 0%Z
                         (toDouble <$> parseInt10 (removeFirst "AGT-" (ag_id a))))
             agents).

(** *** Selection order *)

(** [Array.prototype.sort] with the comparator [key(b) - key(a)]: a stable
    sort by descending key. *)
Fixpoint insertDesc {A} (key : A -> Q) (x : A) (l : list A) : list A :=
  match l with
  | [] => [x]
  | y :: l' =>
      if Qle_bool (key y) (key x) then x :: y :: l'
      else y :: insertDesc key x l'
  end.

Definition sortDesc {A} (key : A -> Q) (l : list A) : list A :=
  foldr (insertDesc key) [] l.

(** The penalty on an asset held by the fraction [share] of the scored agents. *)
Definition nichePenalty (share : Q) : Q :=
  if Qltb 0.40 share
  then Qmin 0.25 (((share - 0.40) / 0.60) * 0.25)
  else 0.

(** [aCount]: how many of the agents have a result on each asset. *)
Definition countAssets (backtested : list AgentGenome)
    (newResults : gmap string BacktestResult) : gmap string Z :=
  fold_left
    (fun (aCount : gmap string Z) a =>
       match newResults !! ag_id a with
       | Some r => <[asset r := (default 0 (aCount !! asset r) + 1)%Z]> aCount
       | None => aCount
       end)
    backtested ∅.

(** [backtested.filter(a => newResults[a.id]).length || 1] *)
Definition scoredCount (backtested : list AgentGenome)
    (newResults : gmap string BacktestResult) : Z :=
  let n := Z.of_nat (length (filter (fun a => is_Some (newResults !! ag_id a)) backtested)) in
  if (n =? 0)%Z then 1%Z else n.

Definition nicheSelectFitness (backtested : list AgentGenome)
    (newResults : gmap string BacktestResult) (a : AgentGenome) : Q :=
  let aCount := countAssets backtested newResults in
  let n := scoredCount backtested newResults in
  match newResults !! ag_id a with
  | None => ag_fitness a
  | Some r =>
      let share := inject_Z (default 0%Z (aCount !! asset r)) / inject_Z n in
      let penalty := nichePenalty share in
      ag_fitness a * (1 - penalty)
  end.

(** [Math.max(1, Math.floor(n * 0.20))] *)
Definition cullCountOf (n : nat) : Z :=
  Z.max 1 (Qfloor (inject_Z (Z.of_nat n) * 0.20)).

(** [Math.max(2, Math.floor(n * 0.30))] *)
Definition breedCountOf (n : nat) : Z :=
  Z.max 2 (Qfloor (inject_Z (Z.of_nat n) * 0.30)).

(** [l.slice(-k)] for a positive [k]. *)
Definition sliceLast {A} (k : Z) (l : list A) : list A :=
  drop (length l - Z.to_nat k) l.

(** What the page reports and stores at the end of a completed cycle. *)
Record GenSummary := {
  gs_generation : Z;
  gs_culled : list AgentGenome;
  gs_born : list AgentGenome;
  gs_cullCount : Z;
  gs_avgFitnessBefore : option Q;
  gs_avgFitnessAfter : option Q;
  gs_agents : list AgentGenome;
  gs_results : gmap string BacktestResult
}.

Inductive Outcome :=
  | PriceDataNotLoaded
  | GenerationFailed
  | GenerationComplete (s : GenSummary).

Section Evolution.

Variable tanh : Q -> Q.
Variable sqrt : Q -> Q.
Variable TOP_15 : list string.
Variable SYMBOL_LABEL : gmap string string.

(** [Math.random]: the [k]-th draw of the cycle is [rnd k]; the functions
    below thread the number of draws made so far. *)
Variable rnd : nat -> Q.

Definition backtestAgent (agent : AgentGenome)
    (priceHistory : gmap string (list OHLCVBar)) : option BacktestResult :=
  let sym := propKey (assetSymbol TOP_15 (assetIdx (genome agent))) in
  match priceHistory !! sym with
  | None => None
  | Some allBars =>
      if (length allBars <? 50)%nat then None else
      let bars := drop (length allBars - BACKTEST_BARS) allBars in
      match runBacktest tanh sqrt TOP_15 SYMBOL_LABEL bars
              (fastMA (genome agent)) (slowMA (genome agent))
              (riskAversion (genome agent)) defaultCapital with
      | None => None
      | Some result =>
          Some {| totalReturn := totalReturn result; sharpe := sharpe result;
                  maxDrawdown := maxDrawdown result; winRate := winRate result;
                  trades := trades result; fitness := fitness result;
                  equityCurve := equityCurve result;
                  tradeSignals := tradeSignals result;
                  fastPeriod := fastPeriod result; slowPeriod := slowPeriod result;
                  asset := default sym (SYMBOL_LABEL !! sym) |}
      end
  end.

(** [clamp01(a + (b - a) * rand() + (rand() - 0.5) * 2 * MUT)] *)
Definition blend (a b : Q) (k : nat) : Q * nat :=
  (clamp01 (a + (b - a) * rnd k + (rnd (S k) - 0.5) * 2 * MUT), S (S k)).

(** Uniform crossover and mutation; the asset gene is drawn first. *)
Definition crossoverMutate (p1 p2 : SMAGenome) (k : nat) : SMAGenome * nat :=
  let inherited :=
    if Qltb (rnd k) 0.75
    then (if Qltb (rnd (S k)) 0.5 then assetIdx p1 else assetIdx p2)
    else rnd (S k) in
  let '(f, k1) := blend (fastMA p1) (fastMA p2) (S (S k)) in
  let '(s, k2) := blend (slowMA p1) (slowMA p2) k1 in
  let '(r, k3) := blend (riskAversion p1) (riskAversion p2) k2 in
  ({| fastMA := f; slowMA := s; riskAversion := r; assetIdx := clamp01 inherited |}, k3).

(** [arr[Math.floor(Math.random() * arr.length)]]: [None] is [undefined]. *)
Definition pick {A} (arr : list A) (k : nat) : option A :=
  let idx := Qfloor (rnd k * inject_Z (Z.of_nat (length arr))) in
  if (idx <? 0)%Z then None else arr !! Z.to_nat idx.

(** One offspring; [None] is the [TypeError] of reading [genome] or [id] of
    an [undefined] parent. *)
Definition breedOne (topBreed : list AgentGenome) (maxId currentGen : Z)
    (i k : nat) : option (AgentGenome * nat) :=
  match pick topBreed k, pick topBreed (S k) with
  | Some p1, Some p2 =>
      let '(childGenome, k1) := crossoverMutate (genome p1) (genome p2) (S (S k)) in
      let arch := archetypeFromGenome (fastMA childGenome) (slowMA childGenome) in
      let px := propKey (pick BREED_PREFIXES k1) in
      let sx := propKey (pick BREED_SUFFIXES (S k1)) in
      Some ({| ag_id := offspringId maxId i;
               ag_name := String.append px (String.append " " sx);
               ag_generation := (currentGen + 1)%Z;
               ag_fitness := 50; ag_status := newborn; ag_archetype := arch;
               ag_sharpe := 0; ag_maxDrawdown := 0; ag_winRate := 0;
               ag_totalReturn := 0; ag_trades := 0;
               ag_parentIds := Some [ag_id p1; ag_id p2];
               genome := childGenome |}, S (S k1))
  | _, _ => None
  end.

(** [Array.from({ length: cullCount }, (_, i) => ...)] from index [i] on. *)
Fixpoint breedFrom (topBreed : list AgentGenome) (maxId currentGen : Z)
    (count i k : nat) : option (list AgentGenome * nat) :=
  match count with
  | O => Some ([], k)
  | S count' =>
      match breedOne topBreed maxId currentGen i k with
      | None => None
      | Some (child, k1) =>
          match breedFrom topBreed maxId currentGen count' (S i) k1 with
          | None => None
          | Some (rest, k2) => Some (child :: rest, k2)
          end
      end
  end.

(** Backtest each agent in order, storing every result under the agent's id. *)
Fixpoint scoreAll (priceHistory : gmap string (list OHLCVBar))
    (agents : list AgentGenome) (newResults : gmap string BacktestResult)
    : list AgentGenome * gmap string BacktestResult :=
  match agents with
  | [] => ([], newResults)
  | agent :: rest =>
      match backtestAgent agent priceHistory with
      | Some r =>
          let '(rest', res') := scoreAll priceHistory rest (<[ag_id agent := r]> newResults) in
          (withMetrics r agent :: rest', res')
      | None =>
          let '(rest', res') := scoreAll priceHistory rest newResults in
          (agent :: rest', res')
      end
  end.

(** [agents.map(a => ...)] of the assembly step. *)
Definition survive (cullIds : gset string) (backtested : list AgentGenome)
    (a : AgentGenome) : AgentGenome :=
  if bool_decide (ag_id a ∈ cullIds) then withStatus extinct a
  else
    let bt := snd <$> list_find (fun b => ag_id b = ag_id a) backtested in
    let status := match ag_status a with newborn => active | s => s end in
    withStatus status (default a bt).

Definition avgFitness (l : list AgentGenome) : option Q :=
  jsdiv (fold_left (fun s a => s + ag_fitness a) l 0) (inject_Z (Z.of_nat (length l))).

(** One generation cycle, up to the assembled population and the summary
    that is displayed; the portfolio snapshot, the trade log and the
    persistence calls that follow read these values and do not change them. *)
Definition runGeneration (agents : list AgentGenome)
    (priceHistory : gmap string (list OHLCVBar)) (currentGen : Z) : Outcome :=
  if (size priceHistory =? 0)%nat then PriceDataNotLoaded else
  let active := filter (fun a => alive a = true) agents in
  let '(backtested, newResults) := scoreAll priceHistory active ∅ in
  let sorted := sortDesc (nicheSelectFitness backtested newResults) backtested in
  let cullCount := cullCountOf (length sorted) in
  let bottom := sliceLast cullCount sorted in
  let topBreed := take (Z.to_nat (breedCountOf (length sorted))) sorted in
  let cullIds : gset string := list_to_set (map ag_id bottom) in
  let avgBefore := avgFitness sorted in
  let maxId := maxIdOf agents in
  match breedFrom topBreed maxId currentGen (Z.to_nat cullCount) 0 0 with
  | None => GenerationFailed
  | Some (rawOffspring, _) =>
      let '(offspring, newResults') := scoreAll priceHistory rawOffspring newResults in
      let survived := map (survive cullIds backtested) agents in
      let allNext := survived ++ offspring in
      let activeNext := filter (fun a => alive a = true) allNext in
      GenerationComplete
        {| gs_generation := (currentGen + 1)%Z;
           gs_culled := bottom;
           gs_born := offspring;
           gs_cullCount := cullCount;
           gs_avgFitnessBefore := avgBefore;
           gs_avgFitnessAfter := avgFitness activeNext;
           gs_agents := allNext;
           gs_results := newResults' |}
  end.

End Evolution.

(** ** The specification's formulas and a sample symbol table *)

(** [round(v * (N - 1))] clamped to [[0, N - 1]], for a table of [N] symbols. *)
Definition decodeAssetIndexSpec (N : Z) (v : Q) : Z :=
  Z.min (N - 1) (Z.max 0 (Math_round (v * inject_Z (N - 1)))).

(** The ticker labels written by [scripts/preprocess-prices.mjs], as a sample
    symbol table. *)
Definition sampleSymbols : list string :=
  ["BTC"; "ETH"; "DOGE"; "XRP"; "LTC"; "XLM"; "XMR"; "ADA"; "BCH"; "LINK";
   "ATOM"; "ETC"; "ZEC"; "DASH"; "EOS"; "XTZ"; "QTUM"; "WAVES"; "BAT"; "ICX";
   "LSK"; "MLN"; "NANO"; "OMG"; "PAXG"; "REP"; "SC"; "GNO"]%string.

Definition sampleLabels : gmap string string :=
  list_to_map (map (fun s => (s, s)) sampleSymbols).

(** The fraction of the scored agents (those with a result) whose result is
    on asset [sym]. *)
Definition assetShare (backtested : list AgentGenome)
    (newResults : gmap string BacktestResult) (sym : string) : Q :=
  inject_Z (Z.of_nat (length
     (filter (fun a => asset <$> newResults !! ag_id a = Some sym) backtested)))
  / inject_Z (Z.of_nat (length
     (filter (fun a => is_Some (newResults !! ag_id a)) backtested))).

(** ** Signal detection over any number type

    [computeSMA] and the cross detection of the loop use additions,
    subtractions, one division and comparisons only.  Written over an
    arbitrary number type they can be run on exact rationals and on IEEE 754
    binary64, the representation of a JavaScript number. *)

Record Arith (T : Type) := {
  zero : T;
  add : T -> T -> T;
  sub : T -> T -> T;
  div : T -> T -> T;
  ofZ : Z -> T;
  ltb : T -> T -> bool;
  leb : T -> T -> bool
}.

Arguments zero {T}.
Arguments add {T}.
Arguments sub {T}.
Arguments div {T}.
Arguments ofZ {T}.
Arguments ltb {T}.
Arguments leb {T}.

Definition exactQ : Arith Q :=
  {| zero := 0; add := Qplus; sub := Qminus; div := Qdiv; ofZ := inject_Z;
     ltb := Qltb; leb := Qle_bool |}.

(** An integer as a binary64 number (exact below 2^53). *)
Fixpoint floatOfNat (n : nat) : float :=
  match n with
  | O => 0%float
  | S k => (floatOfNat k + 1)%float
  end.

Definition binary64 : Arith float :=
  {| zero := 0%float; add := PrimFloat.add; sub := PrimFloat.sub;
     div := PrimFloat.div; ofZ := fun z => floatOfNat (Z.to_nat z);
     ltb := PrimFloat.ltb; leb := PrimFloat.leb |}.

Section AnyNumber.

Context {T : Type} (A : Arith T).

Fixpoint prefixFromA (acc : T) (prices : list T) : list T :=
  acc :: match prices with
         | [] => []
         | p :: ps => prefixFromA (add A acc p) ps
         end.

Definition smaEntryA (prefix : list T) (period : Z) (i : nat) : option T :=
  if (Z.of_nat i <? period - 1)%Z then None
  else Some (div A (sub A (nth (i + 1) prefix (zero A))
                          (nth (i + 1 - Z.to_nat period) prefix (zero A)))
                   (ofZ A period)).

Definition computeSMAA (prices : list T) (period : Z) : list (option T) :=
  let prefix := prefixFromA (zero A) prices in
  map (smaEntryA prefix period) (seq 0 (length prices)).

(** The action recorded at a bar, if any. *)
Definition crossActionsA (prevF prevS : option T) (fSMA sSMA : T) : list Action :=
  match prevF, prevS with
  | Some pF, Some pS =>
      if ltb A sSMA fSMA && leb A pF pS then [entry]
      else if leb A fSMA sSMA && ltb A pS pF then [exit]
      else []
  | _, _ => []
  end.

(** The actions recorded over the bars, given the averages of the bar
    before. *)
Fixpoint signalLoopA (smas : list (option T * option T))
    (prevF prevS : option T) : list Action :=
  match smas with
  | [] => []
  | (fS, sS) :: rest =>
      match fS, sS with
      | Some fSMA, Some sSMA =>
          crossActionsA prevF prevS fSMA sSMA ++ signalLoopA rest fS sS
      | _, _ => signalLoopA rest fS sS
      end
  end.

(** The actions of the trade signals of a run over [closes]. *)
Definition signalActionsA (closes : list T) (fastP slowP : Z) : list Action :=
  signalLoopA (zip (computeSMAA closes fastP) (computeSMAA closes slowP)) None None.

End AnyNumber.

(** Fifty closes at 0.1, as binary64 numbers. *)
Definition dimeCloses : list float := repeat (1 / 10)%float 50.

(** ** Sample inputs *)

Definition flatBar (c : Q) : OHLCVBar :=
  {| date := "2024-01-01"; open := c; high := c; low := c; close := c; volume := 0 |}.

(** Fifty bars at 100 with one close at 200 on bar 30. *)
Definition spikeBars : list OHLCVBar :=
  map flatBar (repeat 100 30 ++ [200] ++ repeat 100 19).

(** Fifty bars at 100 except for bars 15 to 19 at 200: both averages are
    first defined on bar 19, with the fast one above the slow one. *)
Definition fallBars : list OHLCVBar :=
  map flatBar (repeat 100 15 ++ repeat 200 5 ++ repeat 100 30).

Definition constBars : list OHLCVBar := map flatBar (repeat 100 50).

(** Forty-nine bars at 1, then one close at 100. *)
Definition jumpBars : list OHLCVBar := map flatBar (repeat 1 49 ++ [100]).


(** A stream of draws in [[0, 1)]. *)
Definition sampleRnd (k : nat) : Q :=
  inject_Z (Z.of_nat ((k * 37 + 11) mod 100)) / 100.

Definition samplePrices : gmap string (list OHLCVBar) :=
  {[ "BTC"%string := spikeBars; "ETH"%string := fallBars ]}.

(** Seed agent number [i + 1], on BTC for even [i] and on ETH for odd [i]. *)
Definition sampleAgent (i : nat) : AgentGenome :=
  {| ag_id := freshId 0 i; ag_name := "Seed"; ag_generation := 0;
     ag_fitness := 50; ag_status := active; ag_archetype := hybrid;
     ag_sharpe := 0; ag_maxDrawdown := 0; ag_winRate := 0; ag_totalReturn := 0;
     ag_trades := 0; ag_parentIds := None;
     genome := {| fastMA := inject_Z (Z.of_nat (i mod 3)) / 10;
                  slowMA := 0;
                  riskAversion := inject_Z (Z.of_nat (i mod 4)) / 10;
                  assetIdx := if Nat.even i then 0 else 0.04 |} |}.

Definition samplePopulation : list AgentGenome := map sampleAgent (seq 0 10).

Definition sampleResult : BacktestResult :=
  {| totalReturn := 12.5; sharpe := 1.1; maxDrawdown := 8; winRate := 50;
     trades := 2; fitness := 61.3; equityCurve := []; tradeSignals := [];
     fastPeriod := 5; slowPeriod := 20; asset := "BTC" |}.

(** ** Provenance of a trade signal *)

(** What is known of a recorded signal: the bar it was recorded on and the
    averages that produced it. *)
Definition signalAt (tanh : Q -> Q) (ra : Q) (bars : list OHLCVBar) (fp sp : Z)
    (j : nat) (sig : TradeSignal) : Prop :=
  exists bar, bars !! j = Some bar /\ (sp <= Z.of_nat j)%Z /\
    sig_date sig = date bar /\ sig_price sig = close bar /\
    (action sig = exit -> exposure sig = 0) /\
    (action sig = entry ->
     exists f s, smaEntry (prefixFrom 0 (map close bars)) fp j = Some f /\
                 smaEntry (prefixFrom 0 (map close bars)) sp j = Some s /\
                 s < f /\ exposure sig = toFixed 4 (exposureFormula tanh ra f s)).

(** What is known of a newly bred agent. *)
Definition bredFrom (pool : list AgentGenome) (gen : Z) (child : AgentGenome) : Prop :=
  ag_generation child = (gen + 1)%Z /\ ag_status child = newborn /\
  ag_archetype child
    = archetypeFromGenome (fastMA (genome child)) (slowMA (genome child)) /\
  (0 <= fastMA (genome child) <= 1 /\ 0 <= slowMA (genome child) <= 1 /\
   0 <= riskAversion (genome child) <= 1 /\ 0 <= assetIdx (genome child) <= 1) /\
  exists p1 p2, p1 ∈ pool /\ p2 ∈ pool /\ ag_parentIds child = Some [ag_id p1; ag_id p2].

(** ** Portfolio snapshot of a completed cycle

    Step 6 of [runGeneration]: the fitness-weighted return of the agents that
    are alive after the cycle, on a fresh 100,000 every generation. *)

Definition INITIAL_CAPITAL : Q := 100000.

(** [Math.max(a.fitness, 0.01)] *)
Definition fitnessWeight (a : AgentGenome) : Q := Qmax (ag_fitness a) 0.01.

Definition totalActiveFitness (activeNext : list AgentGenome) : Q :=
  fold_left (fun s a => s + fitnessWeight a) activeNext 0.

(** [(newResults[a.id] ?? backtestResults[a.id])?.totalReturn ?? a.totalReturn] *)
Definition agentReturn (newResults backtestResults : gmap string BacktestResult)
    (a : AgentGenome) : Q :=
  match newResults !! ag_id a with
  | Some r => totalReturn r
  | None =>
      match backtestResults !! ag_id a with
      | Some r => totalReturn r
      | None => ag_totalReturn a
      end
  end.

(** The reducer divides by [totalActiveFitness], which is at least 0.01
    whenever the population it runs over has a member. *)
Definition weightedReturn (newResults backtestResults : gmap string BacktestResult)
    (activeNext : list AgentGenome) : Q :=
  let total := totalActiveFitness activeNext in
  fold_left
    (fun s a =>
       let w := fitnessWeight a / total in
       let r := agentReturn newResults backtestResults a in
       s + w * (r / 100))
    activeNext 0.

(** [Math.max(-0.50, Math.min(weightedReturn, 2.00))] *)
Definition genReturnOf (weighted : Q) : Q := Qmax (-0.50) (Qmin weighted 2.00).

Record PortfolioSnapshot := {
  ps_capital : Z;
  ps_pnl : Z;
  ps_pnlPercent : Q
}.

Definition portfolioSnapshot (newResults backtestResults : gmap string BacktestResult)
    (activeNext : list AgentGenome) : PortfolioSnapshot :=
  let genReturn := genReturnOf (weightedReturn newResults backtestResults activeNext) in
  let newCapital := Math_round (INITIAL_CAPITAL * (1 + genReturn)) in
  {| ps_capital := newCapital;
     ps_pnl := (newCapital - 100000)%Z;
     ps_pnlPercent := toFixed 2 (genReturn * 100) |}.

(** The sum of the weights, from the right. *)
Definition sumWeights (l : list AgentGenome) : Q :=
  foldr (fun a s => fitnessWeight a + s) 0 l.

(** ** Persistence of a completed cycle

    Step 8 of [runGeneration] awaits the database writes ([upsertAgents],
    [insertPostMortems], [insertGeneration], [insertPortfolioSnapshot])
    inside the [try] block of the cycle: when one of them rejects, the
    [catch] clause reports a failed generation and the new population is
    not installed.  [writes] tells whether the writes of a cycle all
    resolve. *)
Definition runGenerationStored (tanh sqrt : Q -> Q) (TOP_15 : list string)
    (SYMBOL_LABEL : gmap string string) (rnd : nat -> Q)
    (writes : GenSummary -> bool) (agents : list AgentGenome)
    (priceHistory : gmap string (list OHLCVBar)) (currentGen : Z) : Outcome :=
  match runGeneration tanh sqrt TOP_15 SYMBOL_LABEL rnd agents priceHistory currentGen with
  | GenerationComplete s => if writes s then GenerationComplete s else GenerationFailed
  | PriceDataNotLoaded => PriceDataNotLoaded
  | GenerationFailed => GenerationFailed
  end.

(** ** Stored agents: [dbToAgent] and [agentToDb] of the data layer *)

Record AgentRow := {
  row_id : string;
  row_name : string;
  row_generation : Z;
  row_fitness : Q;
  row_status : Status;
  row_archetype : Archetype;
  row_sharpe : Q;
  row_max_drawdown : Q;
  row_win_rate : Q;
  row_total_return : Q;
  row_trades : Z;
  row_parent_ids : option (list string);
  genome_entry_logic : Q;
  genome_exit_discipline : Q;
  genome_risk_tolerance : Q;
  genome_position_sizing : Q;
  genome_indicator_weight : Q
}.

Definition dbToAgent (row : AgentRow) : AgentGenome :=
  {| ag_id := row_id row; ag_name := row_name row;
     ag_generation := row_generation row; ag_fitness := row_fitness row;
     ag_status := row_status row; ag_archetype := row_archetype row;
     ag_sharpe := row_sharpe row; ag_maxDrawdown := row_max_drawdown row;
     ag_winRate := row_win_rate row; ag_totalReturn := row_total_return row;
     ag_trades := row_trades row; ag_parentIds := row_parent_ids row;
     genome := {| fastMA := genome_entry_logic row;
                  slowMA := genome_exit_discipline row;
                  riskAversion := genome_risk_tolerance row;
                  assetIdx := genome_position_sizing row |} |}.

Definition agentToDb (a : AgentGenome) : AgentRow :=
  {| row_id := ag_id a; row_name := ag_name a;
     row_generation := ag_generation a; row_fitness := ag_fitness a;
     row_status := ag_status a; row_archetype := ag_archetype a;
     row_sharpe := ag_sharpe a; row_max_drawdown := ag_maxDrawdown a;
     row_win_rate := ag_winRate a; row_total_return := ag_totalReturn a;
     row_trades := ag_trades a; row_parent_ids := ag_parentIds a;
     genome_entry_logic := fastMA (genome a);
     genome_exit_discipline := slowMA (genome a);
     genome_risk_tolerance := riskAversion (genome a);
     genome_position_sizing := assetIdx (genome a);
     genome_indicator_weight := 0.5 |}.

(** ** The first population: [rng] and [buildAgents] of the onboarding dialog *)

(** [s = (s * 1664525 + 1013904223) >>> 0] *)
Definition lcgNext (s : Z) : Z := (s * 1664525 + 1013904223) mod 2 ^ 32.

(** The state of [rng(seed)] when its closure has been called [n + 1] times. *)
Fixpoint lcgState (seed : Z) (n : nat) : Z :=
  match n with
  | O => lcgNext seed
  | S k => lcgNext (lcgState seed k)
  end.

(** The value returned by call [n] (from 0) of [rng(seed)]: [s / 0xffffffff]. *)
Definition rng (seed : Z) (n : nat) : Q := inject_Z (lcgState seed n) / 4294967295.

Definition SPAWN_PREFIXES : list string :=
  ["Alpha"; "Beta"; "Gamma"; "Delta"; "Sigma"; "Omega"; "Apex"; "Vega"; "Rho";
   "Theta"; "Kappa"; "Zeta"; "Nova"; "Flux"; "Prime"; "Quant"; "Algo"; "Edge";
   "Peak"; "Cipher"; "Nexus"; "Pulse"; "Drift"; "Blaze"]%string.

Definition SPAWN_SUFFIXES : list string :=
  ["Hunter"; "Rider"; "Surge"; "Strike"; "Hawk"; "Wolf"; "Storm"; "Drift";
   "Pulse"; "Wave"; "Blade"; "Force"; "Shift"; "Flow"; "Crest"; "Spike"; "Edge";
   "Run"; "Burst"; "Scout"; "Guard"; "Watch"; "Climb"; "Fade"]%string.

(** Row [i] of [buildAgents]; [rand] is the generator, six draws per row. *)
Definition buildAgent (rand : nat -> Q) (i : nat) : AgentRow :=
  let k := (6 * i)%nat in
  let fastMAv := rand k in
  let slowMAv := rand (k + 1)%nat in
  let riskAversionv := rand (k + 2)%nat in
  let assetIdxv := rand (k + 3)%nat in
  let f := Z.max 5 (Math_round (5 + fastMAv * 45)) in
  let s := Z.max 20 (Math_round (20 + slowMAv * 180)) in
  let spread := (s - f)%Z in
  let arch :=
    if (f <=? 10)%Z && (spread <=? 25)%Z then momentum
    else if (130 <=? s)%Z then defensive
    else if (spread <=? 15)%Z then volatility
    else if (25 <=? f)%Z && (80 <=? s)%Z then mean_reversion
    else hybrid in
  let prefix := propKey (pick rand SPAWN_PREFIXES (k + 4)) in
  let suffix := propKey (pick rand SPAWN_SUFFIXES (k + 5)) in
  {| row_id := String.append "AGT-" (padStart0 3 3 (pretty (Z.of_nat i + 1)%Z));
     row_name := String.append prefix (String.append " " suffix);
     row_generation := 0; row_fitness := 50; row_status := active;
     row_archetype := arch;
     row_sharpe := 0; row_max_drawdown := 0; row_win_rate := 0;
     row_total_return := 0; row_trades := 0; row_parent_ids := None;
     genome_entry_logic := fastMAv; genome_exit_discipline := slowMAv;
     genome_risk_tolerance := riskAversionv; genome_position_sizing := assetIdxv;
     genome_indicator_weight := 0.5 |}.

Definition buildAgents (seed : Z) (count : nat) : list AgentRow :=
  map (buildAgent (rng seed)) (seq 0 count).

(** ** More sample inputs *)

(** An agent numbered [2^53]. *)
Definition lateAgent : AgentGenome :=
  {| ag_id := "AGT-9007199254740992"; ag_name := "Late"; ag_generation := 0;
     ag_fitness := 50; ag_status := active; ag_archetype := hybrid;
     ag_sharpe := 0; ag_maxDrawdown := 0; ag_winRate := 0; ag_totalReturn := 0;
     ag_trades := 0; ag_parentIds := None;
     genome := {| fastMA := 0; slowMA := 0; riskAversion := 0; assetIdx := 0 |} |}.

Definition parentA : SMAGenome :=
  {| fastMA := 0.2; slowMA := 0.4; riskAversion := 0.1; assetIdx := 0 |}.

Definition parentB : SMAGenome :=
  {| fastMA := 0.6; slowMA := 0.3; riskAversion := 0.5; assetIdx := 0.5 |}.

(** A history of 730 bars, and two longer histories that end with it. *)
Definition recentBars : list OHLCVBar :=
  map flatBar (repeat 100 700 ++ [200] ++ repeat 100 29).

Definition historyA : gmap string (list OHLCVBar) :=
  {[ "BTC"%string := spikeBars ++ recentBars ]}.

Definition historyB : gmap string (list OHLCVBar) :=
  {[ "BTC"%string := fallBars ++ jumpBars ++ recentBars ]}.

(** * Properties *)

(** ** Comparisons and rounding *)

Lemma Qltb_true (x y : Q) : Qltb x y = true <-> x < y.
Proof.
  unfold Qltb. rewrite Qlt_alt. destruct (x ?= y); split; congruence.
Qed.

Lemma Qltb_false (x y : Q) : Qltb x y = false <-> y <= x.
Proof.
  split; intros H.
  - apply Qnot_lt_le. intros Hlt. apply Qltb_true in Hlt. congruence.
  - destruct (Qltb x y) eqn:E; [|reflexivity].
    apply Qltb_true in E. exfalso. apply (Qlt_not_le _ _ E H).
Qed.

Lemma Qle_bool_false (x y : Q) : Qle_bool x y = false <-> y < x.
Proof.
  split; intros H.
  - apply Qnot_le_lt. intros Hle. apply Qle_bool_iff in Hle. congruence.
  - destruct (Qle_bool x y) eqn:E; [|reflexivity].
    apply Qle_bool_iff in E. exfalso. apply (Qlt_not_le _ _ H E).
Qed.

#[global] Instance Qltb_proper : Proper (Qeq ==> Qeq ==> eq) Qltb.
Proof.
  intros x x' Hx y y' Hy. unfold Qltb. now rewrite Hx, Hy.
Qed.

Lemma Qmin_le_l (x y : Q) : Qmin x y <= x.
Proof. apply Q.le_min_l. Qed.

Lemma Qmin_le_r (x y : Q) : Qmin x y <= y.
Proof. apply Q.le_min_r. Qed.

Lemma Qmin_glb (x y z : Q) : z <= x -> z <= y -> z <= Qmin x y.
Proof. apply Q.min_glb. Qed.

Lemma Qmax_ge_r (x y : Q) : y <= Qmax x y.
Proof. apply Q.le_max_r. Qed.

(** Rounding a non-negative number to [f] decimals moves it by at most half
    a unit of the last place. *)
Lemma toFixed_nonneg_bounds (f : Z) (x : Q) :
  (0 <= f)%Z -> 0 <= x ->
  toFixed f x * inject_Z (10 ^ f) <= x * inject_Z (10 ^ f) + (1 # 2) /\
  x * inject_Z (10 ^ f) - (1 # 2) < toFixed f x * inject_Z (10 ^ f) /\
  exists n : Z, (0 <= n)%Z /\ n = Qfloor (x * inject_Z (10 ^ f) + (1 # 2)) /\
                toFixed f x == inject_Z n / inject_Z (10 ^ f).
Proof.
  intros Hf Hx. unfold toFixed.
  assert (Hs : 0 < inject_Z (10 ^ f)).
  { change 0 with (inject_Z 0). rewrite <- Zlt_Qlt. apply Z.pow_pos_nonneg; lia. }
  set (s := inject_Z (10 ^ f)) in *. clearbody s.
  destruct (Qltb x 0) eqn:E.
  { apply Qltb_true in E. exfalso. lra. }
  set (n := Qfloor (x * s + (1 # 2))).
  assert (Hn1 : inject_Z n <= x * s + (1 # 2)) by apply Qfloor_le.
  assert (Hn2 : x * s + (1 # 2) < inject_Z (n + 1)) by apply Qlt_floor.
  rewrite inject_Z_plus in Hn2.
  assert (Heq : inject_Z n / s * s == inject_Z n) by (field; lra).
  repeat split.
  - rewrite Heq. lra.
  - rewrite Heq. change (inject_Z 1) with 1 in Hn2. lra.
  - exists n. split; [|split; reflexivity].
    change 0%Z with (Qfloor 0). apply Qfloor_resp_le. nra.
Qed.

Lemma toFixed_range (f : Z) (x : Q) (hi : Z) :
  (0 <= f)%Z -> 0 <= x <= inject_Z hi ->
  0 <= toFixed f x <= inject_Z hi.
Proof.
  intros Hf [Hx Hhi].
  assert (Hs : 0 < inject_Z (10 ^ f)).
  { change 0 with (inject_Z 0). rewrite <- Zlt_Qlt. apply Z.pow_pos_nonneg; lia. }
  destruct (toFixed_nonneg_bounds f x Hf Hx) as (_ & _ & n & Hn0 & Hn & Heq).
  rewrite Heq.
  assert (Hle : (n <= hi * 10 ^ f)%Z).
  { rewrite Hn. rewrite <- (Qfloor_Z (hi * 10 ^ f)).
    transitivity (Qfloor (inject_Z (hi * 10 ^ f) + (1 # 2))).
    - apply Qfloor_resp_le. rewrite inject_Z_mult.
      set (s := inject_Z (10 ^ f)) in *. clearbody s. nra.
    - rewrite Qfloor_Z.
      assert (H1 := Qfloor_le (inject_Z (hi * 10 ^ f) + (1 # 2))).
      assert (H2 := Qlt_floor (inject_Z (hi * 10 ^ f) + (1 # 2))).
      set (m := Qfloor (inject_Z (hi * 10 ^ f) + (1 # 2))) in *.
      assert (inject_Z m < inject_Z (hi * 10 ^ f + 1)).
      { rewrite inject_Z_plus. change (inject_Z 1) with 1. lra. }
      rewrite <- Zlt_Qlt in H. lia. }
  rewrite Zle_Qle in Hle, Hn0. rewrite inject_Z_mult in Hle.
  change (inject_Z 0) with 0 in Hn0.
  set (s := inject_Z (10 ^ f)) in *. set (q := inject_Z n) in *.
  clearbody s q.
  split.
  - apply Qle_shift_div_l; lra.
  - apply Qle_shift_div_r; lra.
Qed.

(** ** Fitness *)

Lemma computeFitness_bounds (sharpe totalReturnPct winRatePct maxDrawdownPct : Q) :
  0 <= computeFitness sharpe totalReturnPct winRatePct maxDrawdownPct <= 100.
Proof.
  unfold computeFitness.
  match goal with |- context [Qmin (Qmax ?r 0) 1] => set (raw := r) end.
  assert (H : 0 <= Qmin (Qmax raw 0) 1 * 100 <= inject_Z 100).
  { assert (H0 := Qmax_ge_r raw 0). assert (H1 := Qmin_le_r (Qmax raw 0) 1).
    assert (H2 := Qmin_glb (Qmax raw 0) 1 0 H0 ltac:(lra)).
    change (inject_Z 100) with 100. lra. }
  apply (toFixed_range 1 _ 100); [lia | exact H].
Qed.

(** C6: for all (finite) metrics the composite fitness lies in [0, 100]. *)
Theorem C6_computeFitness_range (sharpe totalReturnPct winRatePct maxDrawdownPct : Q) :
  0 <= computeFitness sharpe totalReturnPct winRatePct maxDrawdownPct <= 100.
Proof.
  apply computeFitness_bounds.
Qed.

(** ** Genome decoding *)

Lemma Math_round_bounds (x : Q) (lo hi : Z) :
  inject_Z lo <= x <= inject_Z hi -> (lo <= Math_round x <= hi)%Z.
Proof.
  intros [Hlo Hhi]. unfold Math_round.
  assert (H1 := Qfloor_le (x + (1 # 2))).
  assert (H2 := Qlt_floor (x + (1 # 2))).
  set (n := Qfloor (x + (1 # 2))) in *. clearbody n.
  rewrite inject_Z_plus in H2. change (inject_Z 1) with 1 in H2.
  split.
  - assert (H : inject_Z lo < inject_Z (n + 1)).
    { rewrite inject_Z_plus. change (inject_Z 1) with 1. lra. }
    rewrite <- Zlt_Qlt in H. lia.
  - assert (H : inject_Z n < inject_Z (hi + 1)).
    { rewrite inject_Z_plus. change (inject_Z 1) with 1. lra. }
    rewrite <- Zlt_Qlt in H. lia.
Qed.

(** C7: for genes in [0, 1] the periods the simulator uses satisfy
    fast < slow (with 5 <= fast <= 50 and slow <= 200); the slow period is
    the decoded one unless it does not exceed the fast period, in which case
    it is fast + max(10, ceil(fast * 0.25)); these are the periods the result
    of a backtest reports. *)
Theorem C7_fast_period_below_slow
    (tanh sqrt : Q -> Q) (TOP_15 : list string) (SYMBOL_LABEL : gmap string string)
    (fastMAv slowMAv : Q) :
  0 <= fastMAv <= 1 -> 0 <= slowMAv <= 1 ->
  let fastP := fst (simPeriods fastMAv slowMAv) in
  let slowP := snd (simPeriods fastMAv slowMAv) in
  (fastP < slowP)%Z /\
  (5 <= fastP <= 50)%Z /\ (slowP <= 200)%Z /\
  fastP = decodeFastMA fastMAv /\
  ((decodeSlowMA slowMAv <= decodeFastMA fastMAv)%Z ->
     slowP = (fastP + Z.max 10 (Qceiling (inject_Z fastP * 0.25)))%Z) /\
  ((decodeFastMA fastMAv < decodeSlowMA slowMAv)%Z ->
     slowP = decodeSlowMA slowMAv) /\
  (forall bars riskAversion initialCapital r,
     runBacktest tanh sqrt TOP_15 SYMBOL_LABEL bars fastMAv slowMAv
                 riskAversion initialCapital = Some r ->
     fastPeriod r = fastP /\ slowPeriod r = slowP).
Proof.
  intros Hf Hs fastP slowP. subst fastP slowP.
  assert (Hmain : (fst (simPeriods fastMAv slowMAv) < snd (simPeriods fastMAv slowMAv))%Z).
  { unfold simPeriods.
    destruct (Z.leb_spec (decodeSlowMA slowMAv) (decodeFastMA fastMAv)); simpl; lia. }
  split; [exact Hmain|].
  assert (Hfast : (5 <= decodeFastMA fastMAv <= 50)%Z).
  { unfold decodeFastMA.
    assert (H := Math_round_bounds (5 + fastMAv * 45) 5 50).
    change (inject_Z 5) with 5 in H. change (inject_Z 50) with 50 in H.
    specialize (H ltac:(lra)). lia. }
  assert (Hslow : (20 <= decodeSlowMA slowMAv <= 200)%Z).
  { unfold decodeSlowMA.
    assert (H := Math_round_bounds (20 + slowMAv * 180) 20 200).
    change (inject_Z 20) with 20 in H. change (inject_Z 200) with 200 in H.
    specialize (H ltac:(lra)). lia. }
  assert (Hceil : (Qceiling (inject_Z (decodeFastMA fastMAv) * 0.25) <= 13)%Z).
  { change 13%Z with (Qceiling (inject_Z 50 * 0.25)). apply Qceiling_resp_le.
    assert (inject_Z (decodeFastMA fastMAv) <= inject_Z 50)
      by (rewrite <- Zle_Qle; lia).
    lra. }
  split; [unfold simPeriods; destruct (_ <=? _)%Z; simpl; lia|].
  split; [unfold simPeriods;
          destruct (Z.leb_spec (decodeSlowMA slowMAv) (decodeFastMA fastMAv));
          simpl; lia|].
  split; [unfold simPeriods; now destruct (_ <=? _)%Z|].
  split; [|split].
  - intros Hle. unfold simPeriods.
    destruct (Z.leb_spec (decodeSlowMA slowMAv) (decodeFastMA fastMAv)); simpl; [reflexivity | lia].
  - intros Hlt. unfold simPeriods.
    destruct (Z.leb_spec (decodeSlowMA slowMAv) (decodeFastMA fastMAv)); simpl; [lia | reflexivity].
  - intros bars ra cap r. unfold runBacktest.
    destruct (length bars <? 50)%nat; [discriminate|].
    destruct (simPeriods fastMAv slowMAv) as [fp sp].
    intros [= <-]. simpl. split; reflexivity.
Qed.

Lemma C7_fast_period_below_slow_witness :
  0 <= 1 <= 1 /\ 0 <= 0 <= 1 /\
  (fst (simPeriods 1 0) < snd (simPeriods 1 0))%Z /\
  snd (simPeriods 1 0) = 63%Z.
Proof.
  split; [lra|]. split; [lra|].
  split.
  - apply (C7_fast_period_below_slow tanhQ sqrtQ sampleSymbols sampleLabels 1 0); lra.
  - reflexivity.
Defined.

(** The decoded index lies in [[0, 27]] whatever the table is, so every gene
    in [[0, 1]] selects a symbol exactly when the table has at least 28
    entries. *)
Lemma assetSymbol_defined_iff (TOP_15 : list string) :
  (forall v, 0 <= v <= 1 ->
     exists sym, assetSymbol TOP_15 v = Some sym /\ sym ∈ TOP_15)
  <-> (28 <= length TOP_15)%nat.
Proof.
  split.
  - intros H. destruct (H 1 ltac:(lra)) as (sym & Hsym & _).
    unfold assetSymbol in Hsym. apply lookup_lt_Some in Hsym.
    change (Z.to_nat (decodeAssetIdx 1)) with 27%nat in Hsym. lia.
  - intros Hlen v _.
    assert (Hr : (0 <= decodeAssetIdx v <= 27)%Z) by (unfold decodeAssetIdx; lia).
    unfold assetSymbol.
    destruct (lookup_lt_is_Some_2 TOP_15 (Z.to_nat (decodeAssetIdx v))) as [sym Hsym];
      [lia|].
    exists sym. split; [exact Hsym|]. eapply list_elem_of_lookup_2, Hsym.
Qed.

(** The decoder does not read the table: it agrees with the specification's
    formula on all of [0, 1] for N = 28 and for no other table size. *)
Lemma decodeAssetIdx_fits_28_only (N : Z) :
  (1 <= N)%Z ->
  (forall v, 0 <= v <= 1 -> decodeAssetIdx v = decodeAssetIndexSpec N v) <-> N = 28%Z.
Proof.
  intros HN. split.
  - intros H. specialize (H 1 ltac:(lra)).
    assert (H1 : decodeAssetIdx 1 = 27%Z) by reflexivity.
    assert (H2 : decodeAssetIndexSpec N 1 = (N - 1)%Z).
    { unfold decodeAssetIndexSpec, Math_round.
      assert (Hr : Qfloor (1 * inject_Z (N - 1) + (1 # 2)) = (N - 1)%Z).
      { assert (Ha := Qfloor_le (1 * inject_Z (N - 1) + (1 # 2))).
        assert (Hb := Qlt_floor (1 * inject_Z (N - 1) + (1 # 2))).
        set (m := Qfloor (1 * inject_Z (N - 1) + (1 # 2))) in *. clearbody m.
        rewrite inject_Z_plus in Hb. change (inject_Z 1) with 1 in Hb.
        assert (Hc : inject_Z m < inject_Z (N - 1 + 1)).
        { rewrite inject_Z_plus. change (inject_Z 1) with 1. lra. }
        assert (Hd : inject_Z (N - 1 - 1) < inject_Z m).
        { unfold Z.sub at 1. rewrite inject_Z_plus, inject_Z_opp.
          change (inject_Z 1) with 1. lra. }
        rewrite <- Zlt_Qlt in Hc, Hd. lia. }
      rewrite Hr. lia. }
    lia.
  - intros -> v _. reflexivity.
Qed.

(** ** Niche-crowding selection fitness *)

Lemma nichePenalty_low (s : Q) : s <= 0.40 -> nichePenalty s == 0.
Proof.
  intros H. unfold nichePenalty.
  destruct (Qltb 0.40 s) eqn:E; [|reflexivity].
  apply Qltb_true in E. exfalso. lra.
Qed.

Lemma nichePenalty_high (s : Q) :
  0.40 < s -> nichePenalty s == Qmin 0.25 (((s - 0.40) / 0.60) * 0.25).
Proof.
  intros H. unfold nichePenalty.
  destruct (Qltb 0.40 s) eqn:E; [reflexivity|].
  apply Qltb_false in E. exfalso. lra.
Qed.

Lemma nichePenalty_range (s : Q) : 0 <= nichePenalty s <= 0.25.
Proof.
  unfold nichePenalty. destruct (Qltb 0.40 s) eqn:E; [|lra].
  apply Qltb_true in E. split; [|apply Qmin_le_l].
  apply Qmin_glb; [lra|].
  assert (H : (s - 0.40) / 0.60 * 0.25 == (s - 0.40) * (5 # 12)) by field.
  rewrite H. lra.
Qed.

Lemma nichePenalty_mono (s t : Q) : s <= t -> nichePenalty s <= nichePenalty t.
Proof.
  intros Hst. unfold nichePenalty at 1.
  destruct (Qltb 0.40 s) eqn:E.
  - apply Qltb_true in E. rewrite (nichePenalty_high t) by lra.
    apply Q.min_le_compat_l.
    assert (H : forall u, (u - 0.40) / 0.60 * 0.25 == (u - 0.40) * (5 # 12))
      by (intros; field).
    rewrite !H. lra.
  - apply nichePenalty_range.
Qed.

Lemma countAssets_fold (newResults : gmap string BacktestResult) (sym : string)
    (l : list AgentGenome) (acc : gmap string Z) :
  default 0%Z
    (fold_left
       (fun (aCount : gmap string Z) a =>
          match newResults !! ag_id a with
          | Some r => <[asset r := (default 0 (aCount !! asset r) + 1)%Z]> aCount
          | None => aCount
          end) l acc !! sym)
  = (default 0 (acc !! sym)
     + Z.of_nat (length
         (filter (fun a => asset <$> newResults !! ag_id a = Some sym) l)))%Z.
Proof.
  revert acc. induction l as [|a l IH]; intros acc; simpl.
  - lia.
  - rewrite IH.
    destruct (newResults !! ag_id a) as [r|] eqn:Hr.
    + destruct (decide (asset r = sym)) as [Heq|Hne].
      * rewrite filter_cons_True by (rewrite Hr; simpl; congruence).
        subst sym. rewrite lookup_insert_eq. simpl length. simpl default. lia.
      * rewrite filter_cons_False by (rewrite Hr; simpl; congruence).
        rewrite lookup_insert_ne by exact Hne. reflexivity.
    + rewrite filter_cons_False by (rewrite Hr; simpl; congruence).
      reflexivity.
Qed.

Lemma countAssets_lookup (backtested : list AgentGenome)
    (newResults : gmap string BacktestResult) (sym : string) :
  default 0%Z (countAssets backtested newResults !! sym)
  = Z.of_nat (length
      (filter (fun a => asset <$> newResults !! ag_id a = Some sym) backtested)).
Proof.
  unfold countAssets. rewrite countAssets_fold. rewrite lookup_empty. simpl. lia.
Qed.

Lemma scoredCount_member (backtested : list AgentGenome)
    (newResults : gmap string BacktestResult) (a : AgentGenome) :
  a ∈ backtested -> is_Some (newResults !! ag_id a) ->
  scoredCount backtested newResults
  = Z.of_nat (length (filter (fun a => is_Some (newResults !! ag_id a)) backtested)).
Proof.
  intros Hin Hsome. unfold scoredCount.
  assert (Hmem : a ∈ filter (fun a => is_Some (newResults !! ag_id a)) backtested).
  { apply list_elem_of_filter. split; assumption. }
  destruct (filter _ backtested) as [|b l'].
  - inversion Hmem.
  - simpl length. destruct (Z.eqb_spec (Z.of_nat (S (length l'))) 0); [lia | reflexivity].
Qed.

(** C8: for an agent among the scored ones, the selection fitness is the
    stored fitness times (1 - penalty), where the penalty of the share s of
    scored agents on the agent's asset is 0 for s <= 0.40 and
    min(0.25, (s - 0.40) / 0.60 * 0.25) above, is non-decreasing in s and
    never exceeds 0.25. *)
Theorem C8_niche_selection_fitness (backtested : list AgentGenome)
    (newResults : gmap string BacktestResult) (a : AgentGenome) (r : BacktestResult) :
  a ∈ backtested ->
  newResults !! ag_id a = Some r ->
  nicheSelectFitness backtested newResults a
    == ag_fitness a * (1 - nichePenalty (assetShare backtested newResults (asset r))) /\
  (forall s, s <= 0.40 -> nichePenalty s == 0) /\
  (forall s, 0.40 < s -> nichePenalty s == Qmin 0.25 (((s - 0.40) / 0.60) * 0.25)) /\
  (forall s t, s <= t -> nichePenalty s <= nichePenalty t) /\
  (forall s, 0 <= nichePenalty s <= 0.25).
Proof.
  intros Hin Hr.
  split; [|split; [exact nichePenalty_low|split; [exact nichePenalty_high|
          split; [exact nichePenalty_mono|exact nichePenalty_range]]]].
  unfold nicheSelectFitness, assetShare. rewrite Hr.
  rewrite countAssets_lookup.
  rewrite (scoredCount_member backtested newResults a Hin) by (rewrite Hr; eauto).
  reflexivity.
Qed.

Lemma C8_niche_selection_fitness_witness :
  sampleAgent 0 ∈ [sampleAgent 0; sampleAgent 1] /\
  ({[ "AGT-001"%string := sampleResult ]} : gmap string BacktestResult)
    !! ag_id (sampleAgent 0) = Some sampleResult /\
  nicheSelectFitness [sampleAgent 0; sampleAgent 1]
    {[ "AGT-001"%string := sampleResult ]} (sampleAgent 0) == 37.5.
Proof.
  assert (H1 : sampleAgent 0 ∈ [sampleAgent 0; sampleAgent 1]) by left.
  assert (H2 : ({[ "AGT-001"%string := sampleResult ]} : gmap string BacktestResult)
                 !! ag_id (sampleAgent 0) = Some sampleResult) by reflexivity.
  split; [exact H1|]. split; [exact H2|].
  destruct (C8_niche_selection_fitness [sampleAgent 0; sampleAgent 1]
              {[ "AGT-001"%string := sampleResult ]} (sampleAgent 0) sampleResult H1 H2)
    as [H _].
  rewrite H. vm_compute. reflexivity.
Defined.

(** ** The simulation loop *)

Lemma map_lookup {A B} (f : A -> B) (l : list A) (i : nat) :
  map f l !! i = f <$> (l !! i).
Proof. exact (list_lookup_fmap f l i). Qed.

Lemma computeSMA_lookup (prices : list Q) (period : Z) (i : nat) :
  (i < length prices)%nat ->
  computeSMA prices period !! i = Some (smaEntry (prefixFrom 0 prices) period i).
Proof.
  intros Hi. unfold computeSMA. rewrite map_lookup.
  rewrite lookup_seq_lt by exact Hi. reflexivity.
Qed.

Lemma computeSMA_length (prices : list Q) (period : Z) :
  length (computeSMA prices period) = length prices.
Proof. unfold computeSMA. rewrite length_map, length_seq. reflexivity. Qed.

Lemma loopInput_length (bars : list OHLCVBar) (fastP slowP : Z) :
  length (loopInput bars fastP slowP) = length bars.
Proof.
  unfold loopInput.
  rewrite !length_zip_with, !computeSMA_length, length_seq, length_map. lia.
Qed.

Lemma loopInput_lookup (bars : list OHLCVBar) (fastP slowP : Z) (k : nat)
    (x : nat * (OHLCVBar * (option Q * option Q))) :
  loopInput bars fastP slowP !! k = Some x ->
  exists bar, bars !! k = Some bar /\
    x = (k, (bar, (smaEntry (prefixFrom 0 (map close bars)) fastP k,
                   smaEntry (prefixFrom 0 (map close bars)) slowP k))).
Proof.
  unfold loopInput. intros H.
  apply lookup_zip_with_Some in H as (i & y & -> & Hi & Hy).
  apply lookup_zip_with_Some in Hy as (bar & z & -> & Hbar & Hz).
  apply lookup_zip_with_Some in Hz as (f & s & -> & Hf & Hs).
  apply lookup_seq in Hi as [-> Hlt]. simpl in *.
  rewrite computeSMA_lookup in Hf, Hs by (rewrite length_map; exact Hlt).
  injection Hf as <-. injection Hs as <-.
  exists bar. split; [exact Hbar | reflexivity].
Qed.

Lemma loopInput_lookup_bar (bars : list OHLCVBar) (fastP slowP : Z) (k : nat)
    (bar : OHLCVBar) :
  bars !! k = Some bar ->
  loopInput bars fastP slowP !! k
  = Some (k, (bar, (smaEntry (prefixFrom 0 (map close bars)) fastP k,
                    smaEntry (prefixFrom 0 (map close bars)) slowP k))).
Proof.
  intros Hbar.
  destruct (lookup_lt_is_Some_2 (loopInput bars fastP slowP) k) as [x Hx].
  { rewrite loopInput_length. eapply lookup_lt_Some, Hbar. }
  rewrite Hx. destruct (loopInput_lookup _ _ _ _ _ Hx) as (bar' & Hbar' & ->).
  congruence.
Qed.

Section LoopInvariant.

Variable tanh : Q -> Q.
Variables riskAversion initialCapital : Q.
Variable xs : list (nat * (OHLCVBar * (option Q * option Q))).

(** A property that holds on entry to bar 0 and is carried over every bar
    holds on entry to every bar, and at the end of the loop. *)
Lemma runLoop_invariant (Inv : nat -> LoopState -> Prop) (st0 : LoopState) :
  Inv 0%nat st0 ->
  (forall k x st, xs !! k = Some x -> Inv k st ->
                  Inv (S k) (barStep tanh riskAversion initialCapital st x)) ->
  forall k, (k <= length xs)%nat ->
            Inv k (runLoop tanh riskAversion initialCapital (take k xs) st0).
Proof.
  intros H0 Hstep k. induction k as [|k IH]; intros Hk.
  - rewrite take_0. exact H0.
  - destruct (lookup_lt_is_Some_2 xs k) as [x Hx]; [lia|].
    rewrite (take_S_r _ _ _ Hx). unfold runLoop. rewrite fold_left_app. simpl.
    apply (Hstep k x _ Hx). apply IH. lia.
Qed.

Lemma runLoop_snoc (k : nat) (x : nat * (OHLCVBar * (option Q * option Q)))
    (st0 : LoopState) :
  xs !! k = Some x ->
  runLoop tanh riskAversion initialCapital (take (S k) xs) st0
  = barStep tanh riskAversion initialCapital
      (runLoop tanh riskAversion initialCapital (take k xs) st0) x.
Proof.
  intros Hx. rewrite (take_S_r _ _ _ Hx). unfold runLoop.
  rewrite fold_left_app. reflexivity.
Qed.

End LoopInvariant.

Lemma finalState_stateBefore (tanh : Q -> Q) (bars : list OHLCVBar)
    (fastMAv slowMAv riskAversion initialCapital : Q) :
  finalState tanh bars fastMAv slowMAv riskAversion initialCapital
  = stateBefore tanh bars fastMAv slowMAv riskAversion initialCapital (length bars).
Proof.
  unfold finalState, stateBefore. destruct (simPeriods fastMAv slowMAv) as [fp sp].
  rewrite <- (loopInput_length bars fp sp), firstn_all. reflexivity.
Qed.

Lemma runBacktest_total (tanh sqrt : Q -> Q) (TOP_15 : list string)
    (SYMBOL_LABEL : gmap string string) (bars : list OHLCVBar)
    (fastMAv slowMAv riskAversion initialCapital : Q) :
  (50 <= length bars)%nat ->
  exists r, runBacktest tanh sqrt TOP_15 SYMBOL_LABEL bars fastMAv slowMAv
                        riskAversion initialCapital = Some r.
Proof.
  intros Hlen. unfold runBacktest.
  destruct (Nat.ltb_spec (length bars) 50); [lia|].
  destruct (simPeriods fastMAv slowMAv). eexists. reflexivity.
Qed.

(** What a result records, in terms of the final loop state. *)
Lemma runBacktest_inv (tanh sqrt : Q -> Q) (TOP_15 : list string)
    (SYMBOL_LABEL : gmap string string) (bars : list OHLCVBar)
    (fastMAv slowMAv riskAversion initialCapital : Q) (r : BacktestResult) :
  runBacktest tanh sqrt TOP_15 SYMBOL_LABEL bars fastMAv slowMAv
              riskAversion initialCapital = Some r ->
  let st := finalState tanh bars fastMAv slowMAv riskAversion initialCapital in
  (50 <= length bars)%nat /\
  totalReturn r = toFixed 2 (totalReturnOf initialCapital (finalEquityOf bars st)) /\
  winRate r = toFixed 1 (winRateOf st) /\
  trades r = (wins st + losses st)%Z /\
  fitness r = toFixed 1 (baseFitnessOf sqrt initialCapital bars st
                         * consistencyPenalty (year2RetOf initialCapital bars st)) /\
  equityCurve r = curve st /\
  tradeSignals r = signals st.
Proof.
  unfold runBacktest.
  destruct (Nat.ltb_spec (length bars) 50); [discriminate|].
  destruct (simPeriods fastMAv slowMAv). intros [= <-]. simpl.
  repeat split; [lia].
Qed.

(** ** Trade signals *)

Lemma barStep_signals (tanh : Q -> Q) (ra cap : Q) (st : LoopState) (i : nat)
    (bar : OHLCVBar) (fS sS : option Q) :
  signals (barStep tanh ra cap st (i, (bar, (fS, sS))))
  = match fS, sS with
    | Some f, Some s =>
        signals st ++ crossSignals tanh ra bar (prevFSMA st) (prevSSMA st) f s
    | _, _ => signals st
    end.
Proof.
  unfold barStep. destruct fS as [f|], sS as [s|]; try reflexivity.
  destruct (Qle_bool _ _); reflexivity.
Qed.

Lemma barStep_prev (tanh : Q -> Q) (ra cap : Q) (st : LoopState) (i : nat)
    (bar : OHLCVBar) (fS sS : option Q) :
  prevFSMA (barStep tanh ra cap st (i, (bar, (fS, sS)))) = fS /\
  prevSSMA (barStep tanh ra cap st (i, (bar, (fS, sS)))) = sS.
Proof.
  unfold barStep. destruct fS as [f|], sS as [s|]; try (split; reflexivity).
  destruct (Qle_bool _ _); split; reflexivity.
Qed.

(** A cross is recorded only against a previous bar that has both averages:
    an entry when fast moved from <= slow to > slow, an exit on the reverse. *)
Lemma crossSignals_spec (tanh : Q -> Q) (ra : Q) (bar : OHLCVBar)
    (prevF prevS : option Q) (f s : Q) (sig : TradeSignal) :
  sig ∈ crossSignals tanh ra bar prevF prevS f s ->
  crossSignals tanh ra bar prevF prevS f s = [sig] /\
  exists pF pS, prevF = Some pF /\ prevS = Some pS /\
    (action sig = entry -> s < f /\ pF <= pS) /\
    (action sig = exit -> f <= s /\ pS < pF).
Proof.
  unfold crossSignals. destruct prevF as [pF|], prevS as [pS|];
    try (intros H; inversion H; fail).
  destruct (Qltb s f) eqn:E1; [apply Qltb_true in E1 | apply Qltb_false in E1];
  (destruct (Qle_bool pF pS) eqn:E2;
     [apply Qle_bool_iff in E2 | apply Qle_bool_false in E2]); simpl;
  (destruct (Qle_bool f s) eqn:E3;
     [apply Qle_bool_iff in E3 | apply Qle_bool_false in E3]); simpl;
  (destruct (Qltb pS pF) eqn:E4;
     [apply Qltb_true in E4 | apply Qltb_false in E4]); simpl;
  intros H; try (inversion H; fail);
  apply list_elem_of_singleton in H; subst sig; simpl;
  (split; [reflexivity|]); exists pF, pS;
  (split; [reflexivity|]); (split; [reflexivity|]);
  split; intros; try discriminate; split; assumption || lra.
Qed.

Lemma smaEntry_defined_next (prefix : list Q) (period : Z) (k : nat) :
  is_Some (smaEntry prefix period k) -> is_Some (smaEntry prefix period (S k)).
Proof.
  unfold smaEntry. intros H.
  destruct (Z.ltb_spec (Z.of_nat k) (period - 1)); [destruct H; discriminate|].
  destruct (Z.ltb_spec (Z.of_nat (S k)) (period - 1)); [lia | eauto].
Qed.

Lemma alternating_snoc (l : list Action) (x : Action) :
  alternating l -> (forall a, last l = Some a -> a <> x) -> alternating (l ++ [x]).
Proof.
  induction l as [|a [|b l'] IH]; intros Halt Hlast.
  - exact I.
  - simpl. split; [apply Hlast; reflexivity | exact I].
  - destruct Halt as [Hab Halt]. split; [exact Hab|].
    apply IH; [exact Halt|]. intros c Hc. apply Hlast. exact Hc.
Qed.

Lemma alternating_lookup (l : list Action) (k : nat) (a b : Action) :
  alternating l -> l !! k = Some a -> l !! S k = Some b -> a <> b.
Proof.
  revert k. induction l as [|x [|y l'] IH]; intros k Halt Ha Hb.
  - discriminate.
  - destruct k; discriminate.
  - destruct Halt as [Hxy Halt]. destruct k as [|k].
    + injection Ha as <-. injection Hb as <-. exact Hxy.
    + apply (IH k Halt); assumption.
Qed.

(** The invariant of the loop behind the alternation: the last recorded
    signal tells on which side of the slow average the fast one was at the
    previous bar. *)
Lemma signals_invariant (tanh : Q -> Q) (ra cap : Q) (bars : list OHLCVBar)
    (fp sp : Z) (k : nat) :
  (k <= length bars)%nat ->
  let prefix := prefixFrom 0 (map close bars) in
  let st := runLoop tanh ra cap (take k (loopInput bars fp sp)) (initState cap) in
  alternating (map action (signals st)) /\
  (k = 0%nat -> signals st = []) /\
  (forall k', k = S k' -> prevFSMA st = smaEntry prefix fp k' /\
                          prevSSMA st = smaEntry prefix sp k') /\
  (forall s0, last (signals st) = Some s0 ->
     exists pF pS, prevFSMA st = Some pF /\ prevSSMA st = Some pS /\
       (action s0 = entry -> pS < pF) /\ (action s0 = exit -> pF <= pS)).
Proof.
  intros Hk prefix. cbv zeta.
  rewrite <- (loopInput_length bars fp sp) in Hk. revert k Hk.
  apply (runLoop_invariant tanh ra cap (loopInput bars fp sp)
    (fun k st =>
       alternating (map action (signals st)) /\
       (k = 0%nat -> signals st = []) /\
       (forall k', k = S k' -> prevFSMA st = smaEntry prefix fp k' /\
                               prevSSMA st = smaEntry prefix sp k') /\
       (forall s0, last (signals st) = Some s0 ->
          exists pF pS, prevFSMA st = Some pF /\ prevSSMA st = Some pS /\
            (action s0 = entry -> pS < pF) /\ (action s0 = exit -> pF <= pS)))).
  - simpl. repeat split; try discriminate; reflexivity.
  - intros k x st Hx (Halt & Hzero & Hprev & Hlast).
    destruct (loopInput_lookup _ _ _ _ _ Hx) as (bar & Hbar & ->).
    fold prefix.
    set (fS := smaEntry prefix fp k). set (sS := smaEntry prefix sp k).
    destruct (barStep_prev tanh ra cap st k bar fS sS) as [HpF HpS].
    rewrite barStep_signals, HpF, HpS.
    split; [|split; [discriminate|split; [intros k' [= <-]; split; reflexivity|]]].
    + (* alternation *)
      destruct fS as [f|] eqn:EfS, sS as [s|] eqn:EsS; try exact Halt.
      destruct (crossSignals tanh ra bar (prevFSMA st) (prevSSMA st) f s)
        as [|sig rest] eqn:Ecs.
      { rewrite app_nil_r. exact Halt. }
      destruct (crossSignals_spec tanh ra bar (prevFSMA st) (prevSSMA st) f s sig)
        as (Hone & pF & pS & HF & HS & Hen & Hex).
      { rewrite Ecs. left. }
      rewrite Ecs in Hone. injection Hone as ->.
      rewrite map_app. simpl. apply alternating_snoc; [exact Halt|].
      intros a Ha. change (map action (signals st)) with (action <$> signals st) in Ha.
      rewrite fmap_last in Ha.
      destruct (last (signals st)) as [s0|] eqn:El; [|discriminate].
      injection Ha as <-.
      destruct (Hlast s0 eq_refl) as (pF' & pS' & HF' & HS' & Hen' & Hex').
      rewrite HF in HF'. rewrite HS in HS'.
      injection HF' as <-. injection HS' as <-.
      destruct (action s0) eqn:Ea0, (action sig) eqn:Ea1; try discriminate; exfalso.
      * destruct (Hen eq_refl). specialize (Hen' eq_refl). lra.
      * destruct (Hex eq_refl). specialize (Hex' eq_refl). lra.
    + (* the last signal and the averages now stored *)
      intros s0 Hs0.
      destruct fS as [f|] eqn:EfS, sS as [s|] eqn:EsS.
      * destruct (crossSignals tanh ra bar (prevFSMA st) (prevSSMA st) f s)
          as [|sig rest] eqn:Ecs.
        -- rewrite app_nil_r in Hs0.
           destruct (Hlast s0 Hs0) as (pF & pS & HF & HS & Hen & Hex).
           exists f, s. split; [reflexivity|]. split; [reflexivity|].
           rewrite HF, HS in Ecs. unfold crossSignals in Ecs.
           destruct (Qltb s f) eqn:E1;
             [apply Qltb_true in E1 | apply Qltb_false in E1];
           (destruct (Qle_bool pF pS) eqn:E2;
             [apply Qle_bool_iff in E2 | apply Qle_bool_false in E2]);
           simpl in Ecs; try discriminate;
           (destruct (Qle_bool f s) eqn:E3;
             [apply Qle_bool_iff in E3 | apply Qle_bool_false in E3]);
           (destruct (Qltb pS pF) eqn:E4;
             [apply Qltb_true in E4 | apply Qltb_false in E4]);
           simpl in Ecs; try discriminate;
           split; intros Ha; specialize (Hen Ha) || specialize (Hex Ha); lra.
        -- destruct (crossSignals_spec tanh ra bar (prevFSMA st) (prevSSMA st) f s sig)
             as (Hone & pF & pS & HF & HS & Hen & Hex).
           { rewrite Ecs. left. }
           rewrite Ecs in Hone. injection Hone as ->.
           rewrite last_snoc in Hs0. injection Hs0 as <-.
           exists f, s. split; [reflexivity|]. split; [reflexivity|].
           split; intros Ha; [apply Hen in Ha | apply Hex in Ha]; tauto.
      * exfalso. destruct (Hlast s0 Hs0) as (pF & pS & HF & HS & _).
        destruct k as [|k']; [rewrite Hzero in Hs0 by reflexivity; discriminate|].
        destruct (Hprev k' eq_refl) as [_ Hp]. rewrite HS in Hp.
        destruct (smaEntry_defined_next prefix sp k') as [v Hv];
          [rewrite <- Hp; eauto|].
        unfold sS in EsS. congruence.
      * exfalso. destruct (Hlast s0 Hs0) as (pF & pS & HF & HS & _).
        destruct k as [|k']; [rewrite Hzero in Hs0 by reflexivity; discriminate|].
        destruct (Hprev k' eq_refl) as [Hp _]. rewrite HF in Hp.
        destruct (smaEntry_defined_next prefix fp k') as [v Hv];
          [rewrite <- Hp; eauto|].
        unfold fS in EfS. congruence.
      * exfalso. destruct (Hlast s0 Hs0) as (pF & pS & HF & HS & _).
        destruct k as [|k']; [rewrite Hzero in Hs0 by reflexivity; discriminate|].
        destruct (Hprev k' eq_refl) as [Hp _]. rewrite HF in Hp.
        destruct (smaEntry_defined_next prefix fp k') as [v Hv];
          [rewrite <- Hp; eauto|].
        unfold fS in EfS. congruence.
Qed.

(** C10: in every backtest result no two consecutive trade signals have the
    same action; each signal is a cross against the previous bar (entry:
    fast from <= slow to > slow, exit: the reverse). *)
Theorem C10_signals_alternate (tanh sqrt : Q -> Q) (TOP_15 : list string)
    (SYMBOL_LABEL : gmap string string) (bars : list OHLCVBar)
    (fastMAv slowMAv riskAversion initialCapital : Q) (r : BacktestResult) :
  runBacktest tanh sqrt TOP_15 SYMBOL_LABEL bars fastMAv slowMAv
              riskAversion initialCapital = Some r ->
  (forall k s1 s2,
     tradeSignals r !! k = Some s1 -> tradeSignals r !! S k = Some s2 ->
     action s1 <> action s2) /\
  (forall bar prevF prevS f s sig,
     sig ∈ crossSignals tanh riskAversion bar prevF prevS f s ->
     exists pF pS, prevF = Some pF /\ prevS = Some pS /\
       (action sig = entry -> s < f /\ pF <= pS) /\
       (action sig = exit -> f <= s /\ pS < pF)).
Proof.
  intros Hrun. split.
  - destruct (runBacktest_inv _ _ _ _ _ _ _ _ _ _ Hrun) as (_ & _ & _ & _ & _ & _ & Hsig).
    rewrite Hsig. unfold finalState.
    destruct (simPeriods fastMAv slowMAv) as [fp sp].
    destruct (signals_invariant tanh riskAversion initialCapital bars fp sp
                (length bars) (le_n _)) as (Halt & _).
    rewrite <- (loopInput_length bars fp sp), firstn_all in Halt.
    intros k s1 s2 H1 H2.
    apply (alternating_lookup _ k _ _ Halt); rewrite map_lookup.
    + rewrite H1. reflexivity.
    + rewrite H2. reflexivity.
  - intros bar prevF prevS f s sig Hin.
    apply (crossSignals_spec tanh riskAversion bar prevF prevS f s sig Hin).
Qed.

Lemma C10_signals_alternate_witness :
  exists r, runBacktest tanhQ sqrtQ sampleSymbols sampleLabels spikeBars 0 0 0 100000 = Some r /\
    map action (tradeSignals r) = [entry; exit] /\
    (forall k s1 s2,
       tradeSignals r !! k = Some s1 -> tradeSignals r !! S k = Some s2 ->
       action s1 <> action s2).
Proof.
  eexists. split; [vm_compute; reflexivity|]. split; [reflexivity|].
  apply (C10_signals_alternate tanhQ sqrtQ sampleSymbols sampleLabels spikeBars 0 0 0 100000).
  vm_compute. reflexivity.
Defined.

(** The first signal of a run can be an exit: the fast average starts above
    the slow one and falls through it. *)
Example first_signal_may_be_exit :
  exists r, runBacktest tanhQ sqrtQ sampleSymbols sampleLabels fallBars 0 0 0 100000 = Some r /\
    map action (tradeSignals r) = [exit].
Proof.
  eexists. split; [vm_compute; reflexivity | reflexivity].
Qed.

(** ** Prefix sums and moving averages *)

#[global] Instance toFixed_proper : Proper (eq ==> Qeq ==> Qeq) toFixed.
Proof.
  intros f f' <- x y Hxy. unfold toFixed. rewrite Hxy.
  destruct (Qltb y 0); rewrite Hxy; reflexivity.
Qed.

Lemma simPeriods_bounds (fastMAv slowMAv : Q) :
  (5 <= fst (simPeriods fastMAv slowMAv) < snd (simPeriods fastMAv slowMAv))%Z.
Proof.
  unfold simPeriods, decodeFastMA, decodeSlowMA.
  destruct (Z.leb_spec (Z.max 20 (Math_round (20 + slowMAv * 180)))
                       (Z.max 5 (Math_round (5 + fastMAv * 45)))); simpl; lia.
Qed.

Lemma prefixFrom_nth_0 (acc : Q) (prices : list Q) :
  nth 0 (prefixFrom acc prices) 0 = acc.
Proof. destruct prices; reflexivity. Qed.

(** [prefix[i + 1] = prefix[i] + prices[i]] *)
Lemma prefixFrom_nth_S (acc : Q) (prices : list Q) (k : nat) :
  (k < length prices)%nat ->
  nth (S k) (prefixFrom acc prices) 0
  = nth k (prefixFrom acc prices) 0 + nth k prices 0.
Proof.
  revert acc k. induction prices as [|p ps IH]; intros acc k Hk; simpl in Hk; [lia|].
  destruct k as [|k].
  - simpl. rewrite prefixFrom_nth_0. reflexivity.
  - change (nth (S (S k)) (prefixFrom acc (p :: ps)) 0)
      with (nth (S k) (prefixFrom (acc + p) ps) 0).
    change (nth (S k) (prefixFrom acc (p :: ps)) 0)
      with (nth k (prefixFrom (acc + p) ps) 0).
    rewrite IH by lia. reflexivity.
Qed.

Lemma prefixFrom_const (c : Q) (prices : list Q) (k : nat) :
  Forall (fun p => p == c) prices -> (k <= length prices)%nat ->
  nth k (prefixFrom 0 prices) 0 == inject_Z (Z.of_nat k) * c.
Proof.
  intros Hall. induction k as [|k IH]; intros Hk.
  - rewrite prefixFrom_nth_0. simpl. ring.
  - rewrite prefixFrom_nth_S by lia. rewrite IH by lia.
    assert (Hp : nth k prices 0 == c).
    { destruct (lookup_lt_is_Some_2 prices k) as [p Hp]; [lia|].
      rewrite (nth_lookup_Some _ _ _ _ Hp).
      rewrite Forall_lookup in Hall. exact (Hall k p Hp). }
    rewrite Hp, Nat2Z.inj_succ. unfold Z.succ. rewrite inject_Z_plus.
    change (inject_Z 1) with 1. ring.
Qed.

(** With positive prices the prefix sums increase strictly. *)
Lemma prefixFrom_increasing (prices : list Q) (j k : nat) :
  Forall (fun p => 0 < p) prices -> (j < k)%nat -> (k <= length prices)%nat ->
  nth j (prefixFrom 0 prices) 0 < nth k (prefixFrom 0 prices) 0.
Proof.
  intros Hall Hjk. induction k as [|k IH]; intros Hk; [lia|].
  rewrite prefixFrom_nth_S by lia.
  assert (Hp : 0 < nth k prices 0).
  { destruct (lookup_lt_is_Some_2 prices k) as [p Hp]; [lia|].
    rewrite (nth_lookup_Some _ _ _ _ Hp).
    rewrite Forall_lookup in Hall. exact (Hall k p Hp). }
  destruct (decide (j = k)) as [->|Hne]; [lra|].
  assert (H := IH ltac:(lia) ltac:(lia)). lra.
Qed.

Lemma smaEntry_const (c : Q) (prices : list Q) (period : Z) (i : nat) (v : Q) :
  Forall (fun p => p == c) prices -> (0 < period)%Z -> (i < length prices)%nat ->
  smaEntry (prefixFrom 0 prices) period i = Some v -> v == c.
Proof.
  intros Hall Hp Hi. unfold smaEntry.
  destruct (Z.ltb_spec (Z.of_nat i) (period - 1)); [discriminate|].
  intros [= <-].
  rewrite !(prefixFrom_const c) by (assumption || lia).
  replace (Z.of_nat (i + 1 - Z.to_nat period)) with (Z.of_nat (i + 1) - period)%Z by lia.
  unfold Z.sub. rewrite inject_Z_plus, inject_Z_opp.
  assert (Hq : 0 < inject_Z period).
  { change 0 with (inject_Z 0). rewrite <- Zlt_Qlt. exact Hp. }
  field. lra.
Qed.

Lemma smaEntry_positive (prices : list Q) (period : Z) (i : nat) (v : Q) :
  Forall (fun p => 0 < p) prices -> (0 < period)%Z -> (i < length prices)%nat ->
  smaEntry (prefixFrom 0 prices) period i = Some v -> 0 < v.
Proof.
  intros Hall Hp Hi. unfold smaEntry.
  destruct (Z.ltb_spec (Z.of_nat i) (period - 1)); [discriminate|].
  intros [= <-].
  assert (Hq : 0 < inject_Z period).
  { change 0 with (inject_Z 0). rewrite <- Zlt_Qlt. exact Hp. }
  assert (Hinc := prefixFrom_increasing prices (i + 1 - Z.to_nat period) (i + 1)
                    Hall ltac:(lia) ltac:(lia)).
  apply Qlt_shift_div_l; [exact Hq|]. lra.
Qed.

(** ** Constant prices *)

Lemma closes_lookup_const (c : Q) (bars : list OHLCVBar) :
  Forall (fun b => close b == c) bars ->
  Forall (fun p => p == c) (map close bars).
Proof. intros H. apply Forall_map. exact H. Qed.

(** On a flat series nothing is ever bought: cash, units and the counters
    keep their initial values and no signal is recorded. *)
Lemma flat_invariant (tanh : Q -> Q) (ra cap c : Q) (bars : list OHLCVBar)
    (fp sp : Z) (k : nat) :
  Forall (fun b => close b == c) bars -> (0 < fp)%Z -> (0 < sp)%Z ->
  (k <= length bars)%nat ->
  let st := runLoop tanh ra cap (take k (loopInput bars fp sp)) (initState cap) in
  cash st = cap /\ position st = 0 /\ currentExposure st = 0 /\
  wins st = 0%Z /\ losses st = 0%Z /\ signals st = [] /\
  (forall v, prevFSMA st = Some v -> v == c) /\
  (forall v, prevSSMA st = Some v -> v == c).
Proof.
  intros Hall Hfp Hsp Hk. cbv zeta.
  rewrite <- (loopInput_length bars fp sp) in Hk. revert k Hk.
  apply (runLoop_invariant tanh ra cap (loopInput bars fp sp)
    (fun _ st =>
       cash st = cap /\ position st = 0 /\ currentExposure st = 0 /\
       wins st = 0%Z /\ losses st = 0%Z /\ signals st = [] /\
       (forall v, prevFSMA st = Some v -> v == c) /\
       (forall v, prevSSMA st = Some v -> v == c))).
  - simpl. repeat split; try reflexivity; discriminate.
  - intros k x st Hx (Hcash & Hpos & Hexp & Hw & Hl & Hsig & HpF & HpS).
    destruct (loopInput_lookup _ _ _ _ _ Hx) as (bar & Hbar & ->).
    assert (Hlt : (k < length (map close bars))%nat).
    { rewrite length_map. eapply lookup_lt_Some, Hbar. }
    assert (HfS := fun v => smaEntry_const c (map close bars) fp k v
                              (closes_lookup_const c bars Hall) Hfp Hlt).
    assert (HsS := fun v => smaEntry_const c (map close bars) sp k v
                              (closes_lookup_const c bars Hall) Hsp Hlt).
    set (fS := smaEntry (prefixFrom 0 (map close bars)) fp k) in *.
    set (sS := smaEntry (prefixFrom 0 (map close bars)) sp k) in *.
    clearbody fS sS.
    destruct (barStep_prev tanh ra cap st k bar fS sS) as [E1 E2].
    assert (Hsig' : signals (barStep tanh ra cap st (k, (bar, (fS, sS)))) = []).
    { rewrite barStep_signals, Hsig.
      destruct fS as [f|], sS as [s|]; try reflexivity.
      specialize (HfS f eq_refl). specialize (HsS s eq_refl).
      unfold crossSignals.
      destruct (prevFSMA st) as [pF|], (prevSSMA st) as [pS|]; try reflexivity.
      specialize (HpF pF eq_refl). specialize (HpS pS eq_refl).
      assert (Ha : Qltb s f = false) by (apply Qltb_false; lra).
      assert (Hb : Qltb pS pF = false) by (apply Qltb_false; lra).
      rewrite Ha, Hb. simpl. rewrite andb_false_r. reflexivity. }
    rewrite E1, E2.
    assert (Hkeep :
      cash (barStep tanh ra cap st (k, (bar, (fS, sS)))) = cash st /\
      position (barStep tanh ra cap st (k, (bar, (fS, sS)))) = position st /\
      currentExposure (barStep tanh ra cap st (k, (bar, (fS, sS)))) = currentExposure st /\
      wins (barStep tanh ra cap st (k, (bar, (fS, sS)))) = wins st /\
      losses (barStep tanh ra cap st (k, (bar, (fS, sS)))) = losses st).
    { unfold barStep. destruct fS as [f|], sS as [s|]; try (repeat split; reflexivity).
      specialize (HfS f eq_refl). specialize (HsS s eq_refl).
      assert (Ht : targetExposureOf tanh ra f s = 0).
      { unfold targetExposureOf.
        assert (Ha : Qltb s f = false) by (apply Qltb_false; lra).
        rewrite Ha. reflexivity. }
      rewrite Ht, Hexp.
      change (Qle_bool (Qabs (0 - 0)) 0.01) with true. cbv iota.
      repeat split; reflexivity. }
    destruct Hkeep as (K1 & K2 & K3 & K4 & K5).
    rewrite K1, K2, K3, K4, K5.
    repeat split; assumption.
Qed.

(** With moving averages that are computed exactly, at least 50 bars that
    all close at the same positive price give a result with zero trades,
    total return 0, win rate 0 and no trade signal: the two averages are
    equal on every bar. *)
Lemma constant_prices_exact_averages (tanh sqrt : Q -> Q) (TOP_15 : list string)
    (SYMBOL_LABEL : gmap string string) (bars : list OHLCVBar) (c : Q)
    (fastMAv slowMAv riskAversion initialCapital : Q) :
  (50 <= length bars)%nat ->
  0 < c ->
  Forall (fun b => close b == c) bars ->
  0 < initialCapital ->
  exists r,
    runBacktest tanh sqrt TOP_15 SYMBOL_LABEL bars fastMAv slowMAv
                riskAversion initialCapital = Some r /\
    trades r = 0%Z /\ totalReturn r == 0 /\ winRate r == 0 /\
    tradeSignals r = [].
Proof.
  intros Hlen Hc Hall Hcap.
  destruct (runBacktest_total tanh sqrt TOP_15 SYMBOL_LABEL bars fastMAv slowMAv
              riskAversion initialCapital Hlen) as [r Hr].
  exists r. split; [exact Hr|].
  destruct (runBacktest_inv _ _ _ _ _ _ _ _ _ _ Hr)
    as (_ & Htr & Hwr & Htrades & _ & _ & Hsig).
  assert (Hb := simPeriods_bounds fastMAv slowMAv).
  assert (Hinv : let st := finalState tanh bars fastMAv slowMAv riskAversion initialCapital in
                 cash st = initialCapital /\ position st = 0 /\
                 wins st = 0%Z /\ losses st = 0%Z /\ signals st = []).
  { unfold finalState. destruct (simPeriods fastMAv slowMAv) as [fp sp]. simpl in Hb.
    destruct (flat_invariant tanh riskAversion initialCapital c bars fp sp (length bars)
                Hall ltac:(lia) ltac:(lia) (le_n _))
      as (H1 & H2 & _ & H4 & H5 & H6 & _).
    rewrite <- (loopInput_length bars fp sp), firstn_all in H1, H2, H4, H5, H6.
    cbv zeta. repeat split; assumption. }
  cbv zeta in Hinv. destruct Hinv as (H1 & H2 & H4 & H5 & H6).
  rewrite Htrades, Htr, Hwr, Hsig, H4, H5, H6.
  split; [reflexivity|]. split; [|split; [|reflexivity]].
  - assert (Hz : totalReturnOf initialCapital
                   (finalEquityOf bars
                      (finalState tanh bars fastMAv slowMAv riskAversion initialCapital)) == 0).
    { unfold totalReturnOf, finalEquityOf. rewrite H1, H2. field. lra. }
    rewrite Hz. reflexivity.
  - unfold winRateOf. rewrite H4, H5. reflexivity.
Qed.

(** ** Exposure and solvency *)

Lemma exposureFormula_range (tanh : Q -> Q) (ra f s : Q) :
  (forall x, 0 < x -> 0 <= tanh x <= 1) ->
  0 <= ra <= 1 -> 0 < s -> s < f ->
  0 <= exposureFormula tanh ra f s <= 0.99.
Proof.
  intros Htanh Hra Hs Hsf. unfold exposureFormula.
  assert (Hsigma : 0 < (f - s) / s * 15).
  { assert (0 < (f - s) / s) by (apply Qlt_shift_div_l; lra). lra. }
  destruct (Htanh _ Hsigma) as [Ht0 Ht1].
  set (t := tanh ((f - s) / s * 15)) in *. clearbody t.
  split; nra.
Qed.

Lemma targetExposureOf_range (tanh : Q -> Q) (ra f s : Q) :
  (forall x, 0 < x -> 0 <= tanh x <= 1) ->
  0 <= ra <= 1 -> 0 < s ->
  0 <= targetExposureOf tanh ra f s <= 0.99.
Proof.
  intros Htanh Hra Hs. unfold targetExposureOf.
  destruct (Qltb s f) eqn:E.
  - apply Qltb_true in E. apply exposureFormula_range; assumption.
  - lra.
Qed.

(** A rebalance never spends more cash than there is and never sells more
    units than are held. *)
Lemma rebalance_nonneg (price equity te cur : Q) (b : Book) :
  0 < price -> 0 <= b_cash b -> 0 <= b_position b ->
  0 <= b_cash (rebalance price equity te cur b) /\
  0 <= b_position (rebalance price equity te cur b).
Proof.
  intros Hp Hc Hu. unfold rebalance.
  set (delta := equity * te / price - b_position b).
  destruct (Qltb 0 delta) eqn:E1; [apply Qltb_true in E1|apply Qltb_false in E1].
  - cbn [b_cash b_position]. rewrite !Qred_correct.
    assert (Hcost1 := Qmin_le_r (delta * price) (b_cash b)).
    assert (Hcost0 : 0 <= Qmin (delta * price) (b_cash b)).
    { apply Qmin_glb; [nra | exact Hc]. }
    set (cost := Qmin (delta * price) (b_cash b)) in *. clearbody cost.
    assert (0 <= cost / price) by (apply Qle_shift_div_l; lra).
    split; lra.
  - destruct (Qltb delta 0) eqn:E2; [|split; assumption].
    assert (Hu1 := Qmin_le_r (Qabs delta) (b_position b)).
    assert (Hu0 : 0 <= Qmin (Qabs delta) (b_position b)).
    { apply Qmin_glb; [apply Qabs_nonneg | exact Hu]. }
    set (units := Qmin (Qabs delta) (b_position b)) in *. clearbody units.
    assert (Hup : 0 <= units * price) by nra.
    assert (Hrp : 0 <= (b_position b - units) * price) by nra.
    destruct (Qltb ((b_position b - units) * price) (equity * 0.005));
      cbn [b_cash b_position]; rewrite ?Qred_correct; split; lra.
Qed.

Lemma barStep_nonneg (tanh : Q -> Q) (ra cap : Q) (st : LoopState) (i : nat)
    (bar : OHLCVBar) (fS sS : option Q) :
  0 < close bar -> 0 <= cash st -> 0 <= position st ->
  0 <= cash (barStep tanh ra cap st (i, (bar, (fS, sS)))) /\
  0 <= position (barStep tanh ra cap st (i, (bar, (fS, sS)))).
Proof.
  intros Hp Hc Hu. unfold barStep.
  destruct fS as [f|], sS as [s|]; try (split; assumption).
  destruct (Qle_bool _ _); [split; assumption|].
  cbn [cash position].
  apply rebalance_nonneg; assumption.
Qed.

Lemma solvent_of_nonneg (price : Q) (st : LoopState) :
  0 < price -> 0 <= cash st -> 0 <= position st -> solvent price st.
Proof. intros Hp Hc Hu. unfold solvent. repeat split; nra. Qed.

Lemma forallb_positive_closes (bars : list OHLCVBar) :
  forallb (fun b => Qltb 0 (close b)) bars = true ->
  Forall (fun b => 0 < close b) bars.
Proof.
  intros H. apply Forall_forall. intros b Hb.
  rewrite forallb_forall in H. apply Qltb_true, H, list_elem_of_In, Hb.
Qed.

Lemma tanhQ_range (x : Q) : 0 < x -> 0 <= tanhQ x < 1.
Proof.
  intros Hx. unfold tanhQ.
  destruct (Qltb x 0) eqn:E; [apply Qltb_true in E; exfalso; lra|].
  set (m := Z.min (nine - 1) (Z.max 0 _)).
  assert (Hm : (0 <= m <= nine - 1)%Z) by (unfold m, nine; lia).
  clearbody m. destruct Hm as [Hm0 Hm1].
  rewrite Zle_Qle in Hm0, Hm1. unfold Z.sub in Hm1.
  rewrite inject_Z_plus, inject_Z_opp in Hm1.
  change (inject_Z nine) with 1000000000 in *.
  change (inject_Z 0) with 0 in Hm0. change (inject_Z 1) with 1 in Hm1.
  set (q := inject_Z m) in *. clearbody q.
  split.
  - apply Qle_shift_div_l; lra.
  - apply Qlt_shift_div_r; lra.
Qed.

Lemma tanhSat_range (x : Q) : 0 < x -> 0 <= tanhSat x <= 1.
Proof.
  intros Hx. unfold tanhSat.
  destruct (Qle_bool 22 (Qabs x)).
  - destruct (Qltb x 0) eqn:E; [apply Qltb_true in E; exfalso; lra | lra].
  - destruct (tanhQ_range x Hx). lra.
Qed.

(** C2 as stated fails: a close that jumps from 1 to 100 puts the fast
    average at 20.8 and the slow one at 5.95; 15 times their relative gap is
    above 37, where [Math.tanh] returns 1, and with riskAversion 0 the target
    exposure is 0.99 itself. *)
Lemma C2_counterexample :
  (50 <= length jumpBars)%nat /\
  Forall (fun b => 0 < close b) jumpBars /\
  let prefix := prefixFrom 0 (map close jumpBars) in
  exists f s,
    smaEntry prefix (fst (simPeriods 0 0)) 49 = Some f /\
    smaEntry prefix (snd (simPeriods 0 0)) 49 = Some s /\
    f == 20.8 /\ s == 5.95 /\
    targetExposureOf tanhSat 0 f s == 0.99 /\
    ~ targetExposureOf tanhSat 0 f s < 0.99.
Proof.
  split; [vm_compute; lia|].
  split; [apply forallb_positive_closes; vm_compute; reflexivity|].
  cbv zeta. eexists _, _.
  split; [vm_compute; reflexivity|]. split; [vm_compute; reflexivity|].
  split; [vm_compute; reflexivity|]. split; [vm_compute; reflexivity|].
  split; [vm_compute; reflexivity|].
  apply Qle_not_lt. vm_compute. discriminate.
Qed.

(** C2 (amended): on at least 50 bars with positive closes and genes in
    [0, 1], at every bar the target exposure lies in [0, 0.99], the bound
    0.99 included; on entry to the bar and after it cash and units are
    non-negative, the position is worth at most the equity, and the equity
    is non-negative.  [Math.tanh] is any function with values in [0, 1] on
    positive arguments. *)
Theorem C2_exposure_bounded_no_leverage (tanh : Q -> Q) (bars : list OHLCVBar)
    (fastMAv slowMAv riskAversion initialCapital : Q) :
  (forall x, 0 < x -> 0 <= tanh x <= 1) ->
  (50 <= length bars)%nat ->
  Forall (fun b => 0 < close b) bars ->
  0 <= fastMAv <= 1 -> 0 <= slowMAv <= 1 -> 0 <= riskAversion <= 1 ->
  0 <= initialCapital ->
  forall k bar, bars !! k = Some bar ->
    let prefix := prefixFrom 0 (map close bars) in
    let fS := smaEntry prefix (fst (simPeriods fastMAv slowMAv)) k in
    let sS := smaEntry prefix (snd (simPeriods fastMAv slowMAv)) k in
    let before := stateBefore tanh bars fastMAv slowMAv riskAversion initialCapital k in
    let after := stateAfter tanh bars fastMAv slowMAv riskAversion initialCapital k in
    after = barStep tanh riskAversion initialCapital before (k, (bar, (fS, sS))) /\
    (forall f s, fS = Some f -> sS = Some s ->
       0 <= targetExposureOf tanh riskAversion f s <= 0.99) /\
    solvent (close bar) before /\
    solvent (close bar) after.
Proof.
  intros Htanh Hlen Hpos _ _ Hra Hcap k bar Hbar. cbv zeta.
  assert (Hb := simPeriods_bounds fastMAv slowMAv).
  unfold stateAfter, stateBefore.
  destruct (simPeriods fastMAv slowMAv) as [fp sp]. simpl in Hb. simpl fst. simpl snd.
  assert (Hk : (k < length bars)%nat) by (eapply lookup_lt_Some, Hbar).
  assert (Hclose : 0 < close bar).
  { rewrite Forall_lookup in Hpos. exact (Hpos k bar Hbar). }
  assert (Hposq : Forall (fun p => 0 < p) (map close bars)).
  { apply Forall_map. exact Hpos. }
  assert (Hinv : forall j, (j <= length (loopInput bars fp sp))%nat ->
            0 <= cash (runLoop tanh riskAversion initialCapital
                         (take j (loopInput bars fp sp)) (initState initialCapital)) /\
            0 <= position (runLoop tanh riskAversion initialCapital
                             (take j (loopInput bars fp sp)) (initState initialCapital))).
  { apply (runLoop_invariant tanh riskAversion initialCapital (loopInput bars fp sp)
             (fun _ st => 0 <= cash st /\ 0 <= position st)).
    - simpl. split; lra.
    - intros j x st Hx [Hc Hu].
      destruct (loopInput_lookup _ _ _ _ _ Hx) as (bar' & Hbar' & ->).
      apply barStep_nonneg; try assumption.
      rewrite Forall_lookup in Hpos. exact (Hpos j bar' Hbar'). }
  rewrite (runLoop_snoc tanh riskAversion initialCapital (loopInput bars fp sp) k _
             (initState initialCapital) (loopInput_lookup_bar bars fp sp k bar Hbar)).
  destruct (Hinv k) as [Hc Hu]; [rewrite loopInput_length; lia|].
  split; [reflexivity|]. split; [|split].
  - intros f s Hf Hs. apply targetExposureOf_range; try assumption.
    apply (smaEntry_positive (map close bars) sp k s Hposq); [lia| |exact Hs].
    rewrite length_map. exact Hk.
  - apply solvent_of_nonneg; assumption.
  - apply solvent_of_nonneg; [exact Hclose| |];
      apply barStep_nonneg; assumption.
Qed.

Lemma C2_exposure_bounded_no_leverage_witness :
  (forall x, 0 < x -> 0 <= tanhSat x <= 1) /\
  (50 <= length spikeBars)%nat /\
  Forall (fun b => 0 < close b) spikeBars /\
  spikeBars !! 30%nat = Some (flatBar 200) /\
  solvent 200 (stateAfter tanhSat spikeBars 0 0 0 100000 30) /\
  0 < position (stateAfter tanhSat spikeBars 0 0 0 100000 30).
Proof.
  assert (H1 : (50 <= length spikeBars)%nat) by (vm_compute; lia).
  assert (H2 : Forall (fun b => 0 < close b) spikeBars).
  { apply forallb_positive_closes. vm_compute. reflexivity. }
  assert (H3 : spikeBars !! 30%nat = Some (flatBar 200)) by reflexivity.
  split; [exact tanhSat_range|]. split; [exact H1|]. split; [exact H2|].
  split; [exact H3|]. split.
  - apply (C2_exposure_bounded_no_leverage tanhSat spikeBars 0 0 0 100000
             tanhSat_range H1 H2 ltac:(lra) ltac:(lra) ltac:(lra) ltac:(lra)
             30%nat (flatBar 200) H3).
  - vm_compute. reflexivity.
Defined.

(** ** Anti-overfitting factor *)


Lemma consistencyPenalty_range (y : Q) : 0 < consistencyPenalty y <= 1.
Proof.
  unfold consistencyPenalty.
  destruct (Qltb y (-0.20)); [lra|]. destruct (Qltb y (-0.05)); lra.
Qed.





(** ** The generation cycle *)

Lemma insertDesc_Permutation {A} (key : A -> Q) (x : A) (l : list A) :
  insertDesc key x l ≡ₚ x :: l.
Proof.
  induction l as [|y l IH]; simpl; [reflexivity|].
  destruct (Qle_bool (key y) (key x)); [reflexivity|].
  rewrite IH. apply Permutation_swap.
Qed.

Lemma sortDesc_Permutation {A} (key : A -> Q) (l : list A) :
  sortDesc key l ≡ₚ l.
Proof.
  induction l as [|x l IH]; simpl; [reflexivity|].
  rewrite insertDesc_Permutation. rewrite IH. reflexivity.
Qed.

Section Cycle.

Variable tanh : Q -> Q.
Variable sqrt : Q -> Q.
Variable TOP_15 : list string.
Variable SYMBOL_LABEL : gmap string string.
Variable rnd : nat -> Q.
Variable priceHistory : gmap string (list OHLCVBar).

(** Scoring replaces metrics only: identifiers and statuses stay in place. *)
Lemma scoreAll_ids_statuses (agents : list AgentGenome)
    (newResults : gmap string BacktestResult) :
  let scored := fst (scoreAll tanh sqrt TOP_15 SYMBOL_LABEL priceHistory agents newResults) in
  map ag_id scored = map ag_id agents /\
  map ag_status scored = map ag_status agents.
Proof.
  revert newResults. induction agents as [|a l IH]; intros newResults; simpl.
  - split; reflexivity.
  - destruct (backtestAgent tanh sqrt TOP_15 SYMBOL_LABEL a priceHistory) as [r|].
    + specialize (IH (<[ag_id a := r]> newResults)).
      destruct (scoreAll tanh sqrt TOP_15 SYMBOL_LABEL priceHistory l
                  (<[ag_id a := r]> newResults)) as [rest res].
      simpl in *. destruct IH as [-> ->]. split; reflexivity.
    + specialize (IH newResults).
      destruct (scoreAll tanh sqrt TOP_15 SYMBOL_LABEL priceHistory l newResults)
        as [rest res].
      simpl in *. destruct IH as [-> ->]. split; reflexivity.
Qed.

Lemma scoreAll_length (agents : list AgentGenome)
    (newResults : gmap string BacktestResult) :
  length (fst (scoreAll tanh sqrt TOP_15 SYMBOL_LABEL priceHistory agents newResults))
  = length agents.
Proof.
  destruct (scoreAll_ids_statuses agents newResults) as [H _].
  apply (f_equal length) in H. rewrite !length_map in H. exact H.
Qed.

(** A draw in [[0, 1)] indexes a non-empty array inside its bounds. *)
Lemma pick_defined {A} (arr : list A) (k : nat) :
  arr <> [] -> 0 <= rnd k < 1 -> is_Some (pick rnd arr k).
Proof.
  intros Hne [H0 H1]. unfold pick.
  assert (Hlen : (0 < Z.of_nat (length arr))%Z) by (destruct arr; [congruence | simpl; lia]).
  assert (Hq : 0 < inject_Z (Z.of_nat (length arr))).
  { change 0 with (inject_Z 0). rewrite <- Zlt_Qlt. exact Hlen. }
  set (n := inject_Z (Z.of_nat (length arr))) in *.
  assert (Hlo : (0 <= Qfloor (rnd k * n))%Z).
  { change 0%Z with (Qfloor 0). apply Qfloor_resp_le. nra. }
  assert (Hhi : (Qfloor (rnd k * n) < Z.of_nat (length arr))%Z).
  { rewrite Zlt_Qlt. fold n. assert (Hf := Qfloor_le (rnd k * n)).
    assert (rnd k * n < n) by nra. lra. }
  destruct (Z.ltb_spec (Qfloor (rnd k * n)) 0); [lia|].
  apply lookup_lt_is_Some_2. lia.
Qed.

Lemma breedOne_defined (topBreed : list AgentGenome) (maxId currentGen : Z) (i k : nat) :
  topBreed <> [] -> (forall j, 0 <= rnd j < 1) ->
  exists child k',
    breedOne rnd topBreed maxId currentGen i k = Some (child, k') /\
    ag_status child = newborn.
Proof.
  intros Hne Hrnd. unfold breedOne.
  destruct (pick_defined topBreed k Hne (Hrnd k)) as [p1 ->].
  destruct (pick_defined topBreed (S k) Hne (Hrnd (S k))) as [p2 ->].
  destruct (crossoverMutate rnd (genome p1) (genome p2) (S (S k))) as [g k1].
  eexists _, _. split; reflexivity.
Qed.

Lemma breedFrom_defined (topBreed : list AgentGenome) (maxId currentGen : Z)
    (count i k : nat) :
  topBreed <> [] -> (forall j, 0 <= rnd j < 1) ->
  exists children k',
    breedFrom rnd topBreed maxId currentGen count i k = Some (children, k') /\
    length children = count /\
    Forall (fun a => ag_status a = newborn) children.
Proof.
  intros Hne Hrnd. revert i k. induction count as [|count IH]; intros i k; simpl.
  - exists [], k. repeat split. constructor.
  - destruct (breedOne_defined topBreed maxId currentGen i k Hne Hrnd)
      as (child & k1 & -> & Hst).
    destruct (IH (S i) k1) as (rest & k2 & -> & Hlen & Hall).
    exists (child :: rest), k2. split; [reflexivity|].
    split; [simpl; congruence | constructor; assumption].
Qed.

(** Without a breeding pool the first offspring cannot be made. *)
Lemma breedFrom_empty_pool (maxId currentGen : Z) (count i k : nat) :
  breedFrom rnd [] maxId currentGen (S count) i k = None.
Proof.
  simpl. unfold breedOne, pick. simpl length.
  destruct (Qfloor (rnd k * inject_Z (Z.of_nat 0)) <? 0)%Z; reflexivity.
Qed.

End Cycle.

Lemma cullCountOf_bounds (n : nat) :
  (1 <= n)%nat -> (1 <= cullCountOf n <= Z.of_nat n)%Z.
Proof.
  intros Hn. unfold cullCountOf.
  assert (H : (Qfloor (inject_Z (Z.of_nat n) * 0.20) <= Z.of_nat n)%Z).
  { rewrite <- (Qfloor_Z (Z.of_nat n)) at 2. apply Qfloor_resp_le.
    assert (0 <= inject_Z (Z.of_nat n)).
    { change 0 with (inject_Z 0). rewrite <- Zle_Qle. lia. }
    lra. }
  lia.
Qed.

(** [Math.floor(n * 0.20)] is the integer quotient of [n] by 5. *)
Lemma cullCountOf_quotient (n : nat) : cullCountOf n = Z.max 1 (Z.of_nat n / 5).
Proof.
  unfold cullCountOf. f_equal. rewrite Zdiv_Qdiv. apply Qfloor_comp.
  change (inject_Z 5) with 5. field.
Qed.

Lemma filter_keeps_all {A} (P : A -> Prop) `{forall x, Decision (P x)} (l : list A) :
  Forall P l -> filter P l = l.
Proof.
  induction 1 as [|x l Hx Hl IH]; [reflexivity|].
  rewrite filter_cons_True by exact Hx. rewrite IH. reflexivity.
Qed.

Lemma filter_drops_all {A} (P : A -> Prop) `{forall x, Decision (P x)} (l : list A) :
  Forall (fun x => ~ P x) l -> filter P l = [].
Proof.
  induction 1 as [|x l Hx Hl IH]; [reflexivity|].
  rewrite filter_cons_False by exact Hx. exact IH.
Qed.

(** In a duplicate-free list, the elements that occur in one of its parts
    are as many as the part. *)
Lemma count_members_of_part (ids top part : list string) :
  NoDup ids -> ids ≡ₚ top ++ part ->
  length (filter (fun x => x ∈ part) ids) = length part.
Proof.
  intros Hnd Hperm. rewrite Hperm in Hnd. rewrite Hperm.
  apply NoDup_app in Hnd as (_ & Hdisj & _).
  rewrite filter_app, length_app.
  rewrite (filter_drops_all (fun x => x ∈ part) top)
    by (apply Forall_forall; intros x Hx; exact (Hdisj x Hx)).
  rewrite (filter_keeps_all (fun x => x ∈ part) part)
    by (apply Forall_forall; intros x Hx; exact Hx).
  reflexivity.
Qed.

Lemma survive_status (cullIds : gset string) (backtested : list AgentGenome)
    (a : AgentGenome) :
  ag_status (survive cullIds backtested a)
  = if bool_decide (ag_id a ∈ cullIds) then extinct
    else match ag_status a with newborn => active | s => s end.
Proof.
  unfold survive. destruct (bool_decide (ag_id a ∈ cullIds)); reflexivity.
Qed.

(** The survivors still alive and the culled agents make up the agents that
    were alive. *)
Lemma survivors_count (cullIds : gset string) (backtested agents : list AgentGenome) :
  (length (filter (fun a => alive a = true) (map (survive cullIds backtested) agents))
   + length (filter (fun x => x ∈ cullIds)
               (map ag_id (filter (fun a => alive a = true) agents))))%nat
  = length (filter (fun a => alive a = true) agents).
Proof.
  induction agents as [|a l IH]; [reflexivity|].
  cbn [map].
  assert (Hst := survive_status cullIds backtested a).
  destruct (alive a) eqn:Ha.
  - rewrite (filter_cons_True (fun a => alive a = true) a l) by exact Ha.
    cbn [map].
    destruct (decide (ag_id a ∈ cullIds)) as [Hin|Hout].
    + rewrite bool_decide_true in Hst by exact Hin.
      rewrite filter_cons_False by (unfold alive; rewrite Hst; discriminate).
      rewrite filter_cons_True by exact Hin. cbn [length]. lia.
    + rewrite bool_decide_false in Hst by exact Hout.
      rewrite filter_cons_True.
      2:{ unfold alive in *. rewrite Hst. destruct (ag_status a); done. }
      rewrite filter_cons_False by exact Hout. cbn [length]. lia.
  - rewrite (filter_cons_False (fun a => alive a = true) a l) by congruence.
    rewrite filter_cons_False; [exact IH|].
    unfold alive in *. rewrite Hst.
    destruct (bool_decide (ag_id a ∈ cullIds)); [discriminate|].
    destruct (ag_status a); simpl in Ha; discriminate.
Qed.

Lemma alive_partition (l : list AgentGenome) :
  (length (filter (fun a => alive a = true) l)
   + length (filter (fun a => alive a = false) l))%nat = length l.
Proof.
  induction l as [|a l IH]; [reflexivity|].
  destruct (alive a) eqn:Ha.
  - rewrite filter_cons_True by exact Ha.
    rewrite filter_cons_False by congruence. cbn [length]. lia.
  - rewrite filter_cons_False by congruence.
    rewrite filter_cons_True by exact Ha. cbn [length]. lia.
Qed.

Lemma NoDup_ids_of_alive (agents : list AgentGenome) :
  NoDup (map ag_id agents) ->
  NoDup (map ag_id (filter (fun a => alive a = true) agents)).
Proof.
  intros H. eapply sublist_NoDup; [exact H|].
  apply (fmap_sublist ag_id). apply sublist_filter.
Qed.

(** C3: with price data loaded, distinct agent ids and draws in [0, 1), a
    cycle over N >= 1 non-extinct agents completes, culls exactly
    max(1, floor(0.20 * N)) agents, creates as many newborn offspring, and
    leaves N non-extinct agents. *)
Theorem C3_generation_keeps_population_size
    (tanh sqrt : Q -> Q) (TOP_15 : list string) (SYMBOL_LABEL : gmap string string)
    (rnd : nat -> Q) (agents : list AgentGenome)
    (priceHistory : gmap string (list OHLCVBar)) (currentGen : Z) :
  size priceHistory <> 0%nat ->
  NoDup (map ag_id agents) ->
  (forall k, 0 <= rnd k < 1) ->
  (1 <= length (filter (fun a => alive a = true) agents))%nat ->
  let N := length (filter (fun a => alive a = true) agents) in
  exists s,
    runGeneration tanh sqrt TOP_15 SYMBOL_LABEL rnd agents priceHistory currentGen
      = GenerationComplete s /\
    gs_cullCount s = Z.max 1 (Qfloor (inject_Z (Z.of_nat N) * 0.20)) /\
    Z.of_nat (length (gs_culled s)) = gs_cullCount s /\
    Z.of_nat (length (gs_born s)) = gs_cullCount s /\
    Forall (fun a => ag_status a = newborn) (gs_born s) /\
    Z.of_nat (length (filter (fun a => alive a = false) (gs_agents s)))
      = (Z.of_nat (length (filter (fun a => alive a = false) agents)) + gs_cullCount s)%Z /\
    length (filter (fun a => alive a = true) (gs_agents s)) = N.
Proof.
  intros Hprices Hnodup Hrnd HN N. unfold runGeneration.
  destruct (Nat.eqb_spec (size priceHistory) 0); [contradiction|].
  fold N.
  set (active := filter (fun a => alive a = true) agents) in *.
  assert (Hsc := scoreAll_ids_statuses tanh sqrt TOP_15 SYMBOL_LABEL priceHistory active ∅).
  assert (Hscl := scoreAll_length tanh sqrt TOP_15 SYMBOL_LABEL priceHistory active ∅).
  destruct (scoreAll tanh sqrt TOP_15 SYMBOL_LABEL priceHistory active ∅)
    as [backtested newResults].
  cbn [fst] in Hsc, Hscl. destruct Hsc as [Hids _].
  set (sorted := sortDesc (nicheSelectFitness backtested newResults) backtested).
  assert (Hperm : sorted ≡ₚ backtested) by apply sortDesc_Permutation.
  assert (Hlen : length sorted = N) by (rewrite Hperm; exact Hscl).
  rewrite Hlen.
  assert (Hc := cullCountOf_bounds N HN).
  set (cullCount := cullCountOf N) in *.
  set (bottom := sliceLast cullCount sorted).
  assert (Hbot : length bottom = Z.to_nat cullCount).
  { unfold bottom, sliceLast. rewrite length_drop, Hlen. lia. }
  set (topBreed := take (Z.to_nat (breedCountOf N)) sorted).
  assert (Htop : topBreed <> []).
  { unfold topBreed. destruct sorted as [|x l]; [simpl in Hlen; lia|].
    assert (Hb : (2 <= breedCountOf N)%Z) by (unfold breedCountOf; lia).
    destruct (Z.to_nat (breedCountOf N)) eqn:E; [lia | discriminate]. }
  destruct (breedFrom_defined rnd topBreed (maxIdOf agents) currentGen
              (Z.to_nat cullCount) 0 0 Htop Hrnd)
    as (raw & k' & -> & Hrawlen & Hrawst).
  assert (Hoff := scoreAll_ids_statuses tanh sqrt TOP_15 SYMBOL_LABEL priceHistory raw newResults).
  assert (Hoffl := scoreAll_length tanh sqrt TOP_15 SYMBOL_LABEL priceHistory raw newResults).
  destruct (scoreAll tanh sqrt TOP_15 SYMBOL_LABEL priceHistory raw newResults)
    as [offspring newResults'].
  cbn [fst] in Hoff, Hoffl. destruct Hoff as [_ Hoffst].
  assert (Hnewborn : Forall (fun a => ag_status a = newborn) offspring).
  { apply Forall_lookup. intros i a Hi.
    assert (H1 : map ag_status offspring !! i = Some (ag_status a))
      by (rewrite map_lookup, Hi; reflexivity).
    rewrite Hoffst, map_lookup in H1.
    destruct (raw !! i) as [b|] eqn:Eb; [|discriminate].
    injection H1 as <-. rewrite Forall_lookup in Hrawst. exact (Hrawst i b Eb). }
  set (cullIds := (list_to_set (map ag_id bottom) : gset string)).
  assert (Hculled :
    length (filter (fun x => x ∈ cullIds) (map ag_id active)) = Z.to_nat cullCount).
  { rewrite <- Hbot, <- (length_map ag_id bottom).
    assert (Hfilter : filter (fun x => x ∈ cullIds) (map ag_id active)
                      = filter (fun x => x ∈ map ag_id bottom) (map ag_id active)).
    { apply list_filter_iff. intros x. unfold cullIds. apply elem_of_list_to_set. }
    rewrite Hfilter.
    apply (count_members_of_part _ (map ag_id (take (length sorted - Z.to_nat cullCount) sorted))).
    - apply NoDup_ids_of_alive. exact Hnodup.
    - rewrite <- Hids, <- map_app. unfold bottom, sliceLast.
      rewrite take_drop. rewrite Hperm. reflexivity. }
  assert (Hsurv := survivors_count cullIds backtested agents).
  fold active in Hsurv. rewrite Hculled in Hsurv.
  assert (Haliveoff : filter (fun a => alive a = true) offspring = offspring).
  { apply filter_keeps_all. eapply Forall_impl; [exact Hnewborn|].
    intros a Ha. unfold alive. rewrite Ha. reflexivity. }
  eexists. split; [reflexivity|]. cbn [gs_cullCount gs_culled gs_born gs_agents].
  split; [reflexivity|]. split; [rewrite Hbot; lia|].
  split; [rewrite Hoffl, Hrawlen; lia|]. split; [exact Hnewborn|].
  assert (Halive : length (filter (fun a => alive a = true)
                     (map (survive cullIds backtested) agents ++ offspring)) = N).
  { rewrite filter_app, length_app, Haliveoff, Hoffl, Hrawlen.
    fold N in Hsurv. lia. }
  split; [|exact Halive].
  assert (P1 := alive_partition (map (survive cullIds backtested) agents ++ offspring)).
  assert (P2 := alive_partition agents). fold active in P2. fold N in P2.
  rewrite Halive in P1. rewrite length_app, length_map, Hoffl, Hrawlen in P1.
  lia.
Qed.

Lemma sampleRnd_range (k : nat) : 0 <= sampleRnd k < 1.
Proof.
  unfold sampleRnd.
  assert (H := Nat.mod_upper_bound (k * 37 + 11) 100 ltac:(lia)).
  set (m := ((k * 37 + 11) mod 100)%nat) in *. clearbody m.
  assert (H0 : inject_Z 0 <= inject_Z (Z.of_nat m)) by (rewrite <- Zle_Qle; lia).
  assert (H1 : inject_Z (Z.of_nat m) < inject_Z 100) by (rewrite <- Zlt_Qlt; lia).
  change (inject_Z 0) with 0 in H0. change (inject_Z 100) with 100 in H1.
  set (q := inject_Z (Z.of_nat m)) in *. clearbody q.
  split.
  - apply Qle_shift_div_l; lra.
  - apply Qlt_shift_div_r; lra.
Qed.

Lemma C3_generation_keeps_population_size_witness :
  size samplePrices <> 0%nat /\
  NoDup (map ag_id samplePopulation) /\
  (forall k, 0 <= sampleRnd k < 1) /\
  length (filter (fun a => alive a = true) samplePopulation) = 10%nat /\
  exists s,
    runGeneration tanhQ sqrtQ sampleSymbols sampleLabels sampleRnd samplePopulation
                  samplePrices 0 = GenerationComplete s /\
    gs_cullCount s = 2%Z /\
    length (gs_culled s) = 2%nat /\
    length (gs_born s) = 2%nat /\
    length (filter (fun a => alive a = true) (gs_agents s)) = 10%nat.
Proof.
  assert (H1 : size samplePrices <> 0%nat) by (vm_compute; discriminate).
  assert (H2 : NoDup (map ag_id samplePopulation)).
  { apply (bool_decide_unpack (NoDup (map ag_id samplePopulation))).
    vm_compute. exact I. }
  assert (H3 : length (filter (fun a => alive a = true) samplePopulation) = 10%nat)
    by (vm_compute; reflexivity).
  split; [exact H1|]. split; [exact H2|]. split; [exact sampleRnd_range|].
  split; [exact H3|].
  destruct (C3_generation_keeps_population_size tanhQ sqrtQ sampleSymbols sampleLabels
              sampleRnd samplePopulation samplePrices 0 H1 H2 sampleRnd_range
              ltac:(rewrite H3; lia))
    as (s & Hrun & Hc & Hculled & Hborn & _ & _ & Halive).
  rewrite H3 in Hc, Halive.
  change (Z.max 1 (Qfloor (inject_Z (Z.of_nat 10) * 0.20))) with 2%Z in Hc.
  exists s. split; [exact Hrun|]. split; [exact Hc|].
  rewrite Hc in Hculled, Hborn.
  split; [lia|]. split; [lia | exact Halive].
Defined.

(** Without a single non-extinct agent the cycle does not complete: one
    offspring is still requested and there is no parent to take it from. *)
Lemma runGeneration_no_active
    (tanh sqrt : Q -> Q) (TOP_15 : list string) (SYMBOL_LABEL : gmap string string)
    (rnd : nat -> Q) (agents : list AgentGenome)
    (priceHistory : gmap string (list OHLCVBar)) (currentGen : Z) :
  size priceHistory <> 0%nat ->
  filter (fun a => alive a = true) agents = [] ->
  runGeneration tanh sqrt TOP_15 SYMBOL_LABEL rnd agents priceHistory currentGen
    = GenerationFailed.
Proof.
  intros Hprices Hnone. unfold runGeneration.
  destruct (Nat.eqb_spec (size priceHistory) 0); [contradiction|].
  rewrite Hnone. cbn [scoreAll sortDesc foldr length].
  change (Z.to_nat (cullCountOf 0)) with 1%nat.
  change (take (Z.to_nat (breedCountOf 0)) []) with (@nil AgentGenome).
  rewrite breedFrom_empty_pool. reflexivity.
Qed.

(** C1 (what the code does): with price data loaded and an empty population
    the cycle computes a cull count of 1, divides 0 by 0 for the average
    fitness, and fails while breeding instead of reporting zero culled and
    zero born. *)
Theorem C1_empty_population_fails (rnd : nat -> Q) (currentGen : Z) :
  runGeneration tanhQ sqrtQ sampleSymbols sampleLabels rnd [] samplePrices currentGen
    = GenerationFailed /\
  cullCountOf 0 = 1%Z /\
  avgFitness [] = None.
Proof.
  split; [|split; reflexivity].
  apply runGeneration_no_active; [vm_compute; discriminate | reflexivity].
Qed.

(** ** Signal detection at other number types *)

Lemma prefixFromA_exact (acc : Q) (prices : list Q) :
  prefixFromA exactQ acc prices = prefixFrom acc prices.
Proof.
  revert acc. induction prices as [|p ps IH]; intros acc; simpl; [reflexivity|].
  rewrite IH. reflexivity.
Qed.

Lemma computeSMAA_exact (prices : list Q) (period : Z) :
  computeSMAA exactQ prices period = computeSMA prices period.
Proof.
  unfold computeSMAA, computeSMA. rewrite prefixFromA_exact. reflexivity.
Qed.

Lemma crossSignals_actions (tanh : Q -> Q) (ra : Q) (bar : OHLCVBar)
    (prevF prevS : option Q) (f s : Q) :
  map action (crossSignals tanh ra bar prevF prevS f s)
  = crossActionsA exactQ prevF prevS f s.
Proof.
  unfold crossSignals, crossActionsA. simpl.
  destruct prevF as [pF|], prevS as [pS|]; try reflexivity.
  destruct (Qltb s f && Qle_bool pF pS); [reflexivity|].
  destruct (Qle_bool f s && Qltb pS pF); reflexivity.
Qed.

Lemma runLoop_actions (tanh : Q -> Q) (ra cap : Q)
    (xs : list (nat * (OHLCVBar * (option Q * option Q)))) (st : LoopState) :
  map action (signals (runLoop tanh ra cap xs st))
  = map action (signals st)
    ++ signalLoopA exactQ (map (fun x => snd (snd x)) xs) (prevFSMA st) (prevSSMA st).
Proof.
  revert st. induction xs as [|[i [bar [fS sS]]] xs IH]; intros st.
  - simpl. rewrite app_nil_r. reflexivity.
  - unfold runLoop in *. cbn [fold_left map snd signalLoopA].
    rewrite IH. rewrite barStep_signals.
    destruct (barStep_prev tanh ra cap st i bar fS sS) as [-> ->].
    destruct fS as [f|], sS as [s|]; try reflexivity.
    rewrite map_app, crossSignals_actions, app_assoc. reflexivity.
Qed.

Lemma loopInput_smas (bars : list OHLCVBar) (fastP slowP : Z) :
  map (fun x => snd (snd x)) (loopInput bars fastP slowP)
  = zip (computeSMA (map close bars) fastP) (computeSMA (map close bars) slowP).
Proof.
  apply list_eq. intros i. rewrite map_lookup.
  destruct (bars !! i) as [bar|] eqn:Hbar.
  - rewrite (loopInput_lookup_bar bars fastP slowP i bar Hbar). simpl.
    assert (Hi : (i < length (map close bars))%nat).
    { rewrite length_map. eapply lookup_lt_Some, Hbar. }
    symmetry. apply lookup_zip_with_Some.
    eexists _, _. split; [reflexivity|].
    split; apply computeSMA_lookup; exact Hi.
  - assert (Hge : (length bars <= i)%nat) by (apply lookup_ge_None; exact Hbar).
    rewrite (lookup_ge_None_2 (loopInput bars fastP slowP)) by (rewrite loopInput_length; lia).
    symmetry. apply lookup_ge_None_2.
    rewrite length_zip_with, !computeSMA_length, length_map. lia.
Qed.

(** The actions of the signals of a result are the generic detection run on
    exact rationals. *)
Lemma tradeSignals_actions (tanh sqrt : Q -> Q) (TOP_15 : list string)
    (SYMBOL_LABEL : gmap string string) (bars : list OHLCVBar)
    (fastMAv slowMAv riskAversion initialCapital : Q) (r : BacktestResult) :
  runBacktest tanh sqrt TOP_15 SYMBOL_LABEL bars fastMAv slowMAv
              riskAversion initialCapital = Some r ->
  map action (tradeSignals r)
  = signalActionsA exactQ (map close bars)
      (fst (simPeriods fastMAv slowMAv)) (snd (simPeriods fastMAv slowMAv)).
Proof.
  intros Hrun.
  destruct (runBacktest_inv _ _ _ _ _ _ _ _ _ _ Hrun) as (_ & _ & _ & _ & _ & _ & ->).
  unfold finalState, signalActionsA.
  destruct (simPeriods fastMAv slowMAv) as [fp sp]. simpl fst. simpl snd.
  rewrite runLoop_actions, loopInput_smas. reflexivity.
Qed.

(** C9 (the code departs from the claim): on fifty bars that all close at
    0.1, with the genes 0 and 0 (periods 5 and 20), the moving averages and
    the cross detection of the code, run on binary64, record an exit, an
    entry and an exit, where the same computation on exact rationals
    records nothing.  The prefix sums of [computeSMA] are rounded at every
    addition, so the two averages of the flat series differ in their last
    bits. *)
Theorem C9_flat_series_records_signals :
  (50 <= length dimeCloses)%nat /\
  simPeriods 0 0 = (5, 20)%Z /\
  signalActionsA binary64 dimeCloses 5 20 = [exit; entry; exit] /\
  signalActionsA exactQ (repeat (1 # 10) 50) 5 20 = [].
Proof.
  split; [vm_compute; lia|]. split; [reflexivity|].
  split; vm_compute; reflexivity.
Qed.

(** * Further properties of the code *)

Lemma Math_round_mono (x y : Q) : x <= y -> (Math_round x <= Math_round y)%Z.
Proof. intros H. unfold Math_round. apply Qfloor_resp_le. lra. Qed.

Lemma Math_round_Z (n : Z) (x : Q) : x == inject_Z n -> Math_round x = n.
Proof.
  intros H. unfold Math_round.
  assert (H1 : (n <= Qfloor (x + (1 # 2)))%Z).
  { rewrite <- (Qfloor_Z n). apply Qfloor_resp_le. lra. }
  assert (H2 : (Qfloor (x + (1 # 2)) < n + 1)%Z).
  { rewrite Zlt_Qlt. assert (Hf := Qfloor_le (x + (1 # 2))).
    rewrite inject_Z_plus. change (inject_Z 1) with 1. lra. }
  lia.
Qed.

(** X1: decodeFastMA, decodeSlowMA and decodeAssetIdx are monotone in the gene
    value, and for every gene value, inside [0,1] or not, the fast period is
    at least 5, the slow period at least 20 and the asset index within 0..27. *)
Theorem decoders_monotone_and_floored (v w : Q) :
  v <= w ->
  (decodeFastMA v <= decodeFastMA w)%Z /\
  (decodeSlowMA v <= decodeSlowMA w)%Z /\
  (decodeAssetIdx v <= decodeAssetIdx w)%Z /\
  (5 <= decodeFastMA v)%Z /\ (20 <= decodeSlowMA v)%Z /\
  (0 <= decodeAssetIdx v <= 27)%Z.
Proof.
  intros H. unfold decodeFastMA, decodeSlowMA, decodeAssetIdx.
  assert (H1 := Math_round_mono (5 + v * 45) (5 + w * 45) ltac:(lra)).
  assert (H2 := Math_round_mono (20 + v * 180) (20 + w * 180) ltac:(lra)).
  assert (H3 := Math_round_mono (v * 27) (w * 27) ltac:(lra)).
  lia.
Qed.

Lemma decoders_monotone_and_floored_witness :
  0.2 <= 0.7 /\ (decodeFastMA 0.2 <= decodeFastMA 0.7)%Z /\ decodeFastMA 0.2 = 14%Z /\
  decodeFastMA 0.7 = 37%Z.
Proof.
  assert (H : 0.2 <= 0.7) by lra.
  split; [exact H|].
  split; [exact (proj1 (decoders_monotone_and_floored 0.2 0.7 H))|].
  split; reflexivity.
Defined.

Lemma gene_of_value (lo span p : Z) :
  (0 < span)%Z -> (lo <= p <= lo + span)%Z ->
  let v := inject_Z (p - lo) / inject_Z span in
  0 <= v <= 1 /\ inject_Z lo + v * inject_Z span == inject_Z p.
Proof.
  intros Hs Hp v.
  assert (Hs' : 0 < inject_Z span) by (change 0 with (inject_Z 0); rewrite <- Zlt_Qlt; lia).
  assert (H0 : 0 <= inject_Z (p - lo)) by (change 0 with (inject_Z 0); rewrite <- Zle_Qle; lia).
  assert (H1 : inject_Z (p - lo) <= inject_Z span) by (rewrite <- Zle_Qle; lia).
  assert (He : inject_Z (p - lo) == inject_Z p - inject_Z lo).
  { unfold Z.sub. rewrite inject_Z_plus, inject_Z_opp. lra. }
  assert (Hv : v * inject_Z span == inject_Z (p - lo)).
  { unfold v. field. lra. }
  split.
  - split.
    + unfold v. apply Qle_shift_div_l; [exact Hs'|]. lra.
    + unfold v. apply Qle_shift_div_r; [exact Hs'|]. lra.
  - rewrite Hv, He. lra.
Qed.

(** X2: Every fast period in 5..50, every slow period in 20..200 and every
    asset index in 0..27 is the decoding of some gene value in [0,1]. *)
Theorem decoders_reach_every_value (p q a : Z) :
  (5 <= p <= 50)%Z -> (20 <= q <= 200)%Z -> (0 <= a <= 27)%Z ->
  exists v1 v2 v3,
    (0 <= v1 <= 1 /\ decodeFastMA v1 = p) /\
    (0 <= v2 <= 1 /\ decodeSlowMA v2 = q) /\
    (0 <= v3 <= 1 /\ decodeAssetIdx v3 = a).
Proof.
  intros Hp Hq Ha.
  destruct (gene_of_value 5 45 p ltac:(lia) ltac:(lia)) as [R1 E1].
  destruct (gene_of_value 20 180 q ltac:(lia) ltac:(lia)) as [R2 E2].
  destruct (gene_of_value 0 27 a ltac:(lia) ltac:(lia)) as [R3 E3].
  eexists _, _, _. split; [|split].
  - split; [exact R1|]. unfold decodeFastMA.
    rewrite (Math_round_Z p) by exact E1. lia.
  - split; [exact R2|]. unfold decodeSlowMA.
    rewrite (Math_round_Z q) by exact E2. lia.
  - split; [exact R3|]. unfold decodeAssetIdx.
    rewrite (Math_round_Z a); [lia|].
    rewrite <- E3. change (inject_Z 0) with 0. change (inject_Z 27) with 27. lra.
Qed.

Lemma decoders_reach_every_value_witness :
  (5 <= 17 <= 50)%Z /\ (20 <= 100 <= 200)%Z /\ (0 <= 3 <= 27)%Z /\
  exists v1 v2 v3,
    (0 <= v1 <= 1 /\ decodeFastMA v1 = 17%Z) /\
    (0 <= v2 <= 1 /\ decodeSlowMA v2 = 100%Z) /\
    (0 <= v3 <= 1 /\ decodeAssetIdx v3 = 3%Z).
Proof.
  split; [lia|]. split; [lia|]. split; [lia|].
  apply (decoders_reach_every_value 17 100 3); lia.
Defined.

(** X3: archetypeFromGenome classifies by conditions on the decoded periods f
    and s that do not depend on the order of its rules: momentum iff f <= 10
    and s - f <= 25; defensive iff s >= 130; volatility iff f > 10, s - f <=
    15 and s < 130; mean-reversion iff f >= 25, 80 <= s < 130 and s - f > 15;
    hybrid in the remaining cases. *)
Theorem archetype_conditions (fastMAv slowMAv : Q) :
  let f := decodeFastMA fastMAv in
  let s := decodeSlowMA slowMAv in
  let arch := archetypeFromGenome fastMAv slowMAv in
  (arch = momentum <-> (f <= 10 /\ s - f <= 25)%Z) /\
  (arch = defensive <-> (130 <= s)%Z) /\
  (arch = volatility <-> (10 < f /\ s - f <= 15 /\ s < 130)%Z) /\
  (arch = mean_reversion <-> (25 <= f /\ 80 <= s < 130 /\ 15 < s - f)%Z) /\
  (arch = hybrid <->
     (15 < s - f /\ s < 130 /\ (f <= 10 -> 25 < s - f) /\ (25 <= f -> s < 80))%Z).
Proof.
  intros f s arch. unfold arch, archetypeFromGenome. fold f. fold s.
  assert (Hf : (5 <= f)%Z) by (unfold f, decodeFastMA; lia).
  destruct (Z.leb_spec f 10), (Z.leb_spec (s - f) 25), (Z.leb_spec 130 s),
    (Z.leb_spec (s - f) 15), (Z.leb_spec 25 f), (Z.leb_spec 80 s); cbn;
    repeat split; intros; try discriminate; try lia.
Qed.

Lemma clamp01_range (v : Q) : 0 <= clamp01 v <= 1.
Proof.
  unfold clamp01. split.
  - apply Qmin_glb; [lra | apply Qmax_ge_l || apply Q.le_max_l].
  - apply Qmin_le_l.
Qed.

Lemma clamp01_between (lo hi v : Q) :
  lo <= 1 -> 0 <= hi -> lo <= v <= hi -> lo <= clamp01 v <= hi.
Proof.
  intros Hlo Hhi [H1 H2]. unfold clamp01. split.
  - apply Qmin_glb; [exact Hlo|].
    apply Qle_trans with v; [exact H1 | apply Qmax_ge_r].
  - apply Qle_trans with (Qmax 0 v); [apply Qmin_le_r|].
    apply Q.max_lub; lra.
Qed.

Lemma clamp01_id (v : Q) : 0 <= v <= 1 -> clamp01 v == v.
Proof.
  intros [H0 H1]. unfold clamp01.
  rewrite (Q.max_r 0 v) by exact H0. apply Q.min_r. exact H1.
Qed.

(** X4: For any parents and any random draws (even outside [0,1)), the four
    genes of the child made by crossoverMutate lie in [0,1], and the call
    consumes exactly 8 draws. *)
Theorem crossoverMutate_genes_in_unit_interval (rnd : nat -> Q) (p1 p2 : SMAGenome) (k : nat) :
  let child := fst (crossoverMutate rnd p1 p2 k) in
  0 <= fastMA child <= 1 /\ 0 <= slowMA child <= 1 /\
  0 <= riskAversion child <= 1 /\ 0 <= assetIdx child <= 1 /\
  snd (crossoverMutate rnd p1 p2 k) = (k + 8)%nat.
Proof.
  unfold crossoverMutate, blend. cbn.
  repeat split; try apply clamp01_range. lia.
Qed.

Lemma blend_near (rnd : nat -> Q) (a b : Q) (k : nat) :
  0 <= a <= 1 -> 0 <= b <= 1 -> 0 <= rnd k < 1 -> 0 <= rnd (S k) < 1 ->
  Qmin a b - MUT <= fst (blend rnd a b k) <= Qmax a b + MUT.
Proof.
  intros Ha Hb Hr Hs. unfold blend. cbn [fst]. unfold MUT.
  assert (Hmin1 := Qmin_le_l a b). assert (Hmin2 := Qmin_le_r a b).
  assert (Hmax1 := Q.le_max_l a b). assert (Hmax2 := Q.le_max_r a b).
  apply clamp01_between; [lra | lra |].
  set (r := rnd k) in *. set (s := rnd (S k)) in *.
  set (m := Qmin a b) in *. set (M := Qmax a b) in *. clearbody r s m M.
  assert (Hmix : m <= a + (b - a) * r <= M).
  { destruct (Qlt_le_dec a b); split; nra. }
  lra.
Qed.

(** X5: With parent genes in [0,1] and draws in [0,1), each blended gene
    (fastMA, slowMA, riskAversion) of the child lies within MUT = 0.12 of the
    interval spanned by the two parents' values; the asset gene equals the
    gene of one parent when the first draw is below 0.75 and is the second
    draw otherwise. *)
Theorem crossoverMutate_stays_near_parents (rnd : nat -> Q) (p1 p2 : SMAGenome) (k : nat) :
  (forall j, 0 <= rnd j < 1) ->
  0 <= fastMA p1 <= 1 -> 0 <= fastMA p2 <= 1 ->
  0 <= slowMA p1 <= 1 -> 0 <= slowMA p2 <= 1 ->
  0 <= riskAversion p1 <= 1 -> 0 <= riskAversion p2 <= 1 ->
  0 <= assetIdx p1 <= 1 -> 0 <= assetIdx p2 <= 1 ->
  let child := fst (crossoverMutate rnd p1 p2 k) in
  Qmin (fastMA p1) (fastMA p2) - MUT <= fastMA child <= Qmax (fastMA p1) (fastMA p2) + MUT /\
  Qmin (slowMA p1) (slowMA p2) - MUT <= slowMA child <= Qmax (slowMA p1) (slowMA p2) + MUT /\
  Qmin (riskAversion p1) (riskAversion p2) - MUT <= riskAversion child
    <= Qmax (riskAversion p1) (riskAversion p2) + MUT /\
  (rnd k < 0.75 -> assetIdx child == assetIdx p1 \/ assetIdx child == assetIdx p2) /\
  (0.75 <= rnd k -> assetIdx child == rnd (S k)).
Proof.
  intros Hrnd Hf1 Hf2 Hs1 Hs2 Hr1 Hr2 Ha1 Ha2.
  unfold crossoverMutate.
  assert (B1 := blend_near rnd (fastMA p1) (fastMA p2) (S (S k)) Hf1 Hf2 (Hrnd _) (Hrnd _)).
  assert (B2 := blend_near rnd (slowMA p1) (slowMA p2) (S (S (S (S k)))) Hs1 Hs2 (Hrnd _) (Hrnd _)).
  assert (B3 := blend_near rnd (riskAversion p1) (riskAversion p2)
                  (S (S (S (S (S (S k)))))) Hr1 Hr2 (Hrnd _) (Hrnd _)).
  cbn. cbn in B1, B2, B3.
  split; [exact B1|]. split; [exact B2|]. split; [exact B3|].
  split.
  - intros Hlt. apply Qltb_true in Hlt. rewrite Hlt.
    destruct (Qltb (rnd (S k)) 0.5); [left | right]; apply clamp01_id; assumption.
  - intros Hge. apply Qltb_false in Hge. rewrite Hge.
    apply clamp01_id. destruct (Hrnd (S k)). split; lra.
Qed.

Lemma prefixFromA_app_nth {T} (A : Arith T) (prices more : list T) (acc d : T) (k : nat) :
  (k <= length prices)%nat ->
  nth k (prefixFromA A acc (prices ++ more)) d = nth k (prefixFromA A acc prices) d.
Proof.
  revert acc k. induction prices as [|p ps IH]; intros acc k Hk.
  - simpl in Hk. assert (k = 0%nat) by lia. subst k. destruct more; reflexivity.
  - destruct k as [|k]; [reflexivity|].
    simpl in Hk. cbn [app prefixFromA nth]. apply IH. lia.
Qed.

Lemma computeSMAA_lookup {T} (A : Arith T) (prices : list T) (period : Z) (i : nat) :
  (i < length prices)%nat ->
  computeSMAA A prices period !! i
  = Some (smaEntryA A (prefixFromA A (zero A) prices) period i).
Proof.
  intros Hi. unfold computeSMAA. rewrite list_lookup_fmap.
  rewrite lookup_seq_lt by exact Hi. reflexivity.
Qed.

(** X6: computeSMA returns one entry per price; for a period of at least 1,
    entry i is null exactly when i < period - 1 and a number otherwise, and it
    is computed from the prices up to index i only: appending later prices
    leaves it unchanged. The statement is over any number type, so it holds
    with the rounded prefix sums of binary64 as with exact arithmetic. *)
Theorem computeSMA_no_lookahead {T} (A : Arith T) (prices more : list T)
    (period : Z) (i : nat) :
  (1 <= period)%Z -> (i < length prices)%nat ->
  length (computeSMAA A prices period) = length prices /\
  (computeSMAA A prices period !! i = Some None <-> (Z.of_nat i < period - 1)%Z) /\
  ((period - 1 <= Z.of_nat i)%Z ->
   exists v, computeSMAA A prices period !! i = Some (Some v)) /\
  computeSMAA A (prices ++ more) period !! i = computeSMAA A prices period !! i.
Proof.
  intros Hp Hi.
  split; [unfold computeSMAA; rewrite length_map, length_seq; reflexivity|].
  rewrite (computeSMAA_lookup A prices period i Hi).
  rewrite (computeSMAA_lookup A (prices ++ more) period i)
    by (rewrite length_app; lia).
  unfold smaEntryA.
  destruct (Z.ltb_spec (Z.of_nat i) (period - 1)) as [Hlt|Hge].
  - split; [split; [intros _; exact Hlt | reflexivity]|].
    split; [lia | reflexivity].
  - split; [split; [discriminate | lia]|].
    split; [intros _; eexists; reflexivity|].
    rewrite !(prefixFromA_app_nth A prices more) by lia. reflexivity.
Qed.

Lemma computeSMA_no_lookahead_witness :
  (1 <= 5)%Z /\ (10 < length dimeCloses)%nat /\
  computeSMAA binary64 (dimeCloses ++ [(1 / 2)%float]) 5 !! 10%nat
  = computeSMAA binary64 dimeCloses 5 !! 10%nat.
Proof.
  assert (Hp : (1 <= 5)%Z) by lia.
  assert (Hi : (10 < length dimeCloses)%nat) by (simpl; lia).
  split; [exact Hp|]. split; [exact Hi|].
  exact (proj2 (proj2 (proj2
    (computeSMA_no_lookahead binary64 dimeCloses [(1 / 2)%float] 5 10 Hp Hi)))).
Defined.

Lemma toFixed_compat (f : Z) (x y : Q) : x == y -> toFixed f x = toFixed f y.
Proof.
  intros E. unfold toFixed.
  assert (Hs : Qltb x 0 = Qltb y 0).
  { unfold Qltb. rewrite E. reflexivity. }
  rewrite Hs. destruct (Qltb y 0).
  - rewrite (Qfloor_comp (- x * inject_Z (10 ^ f) + (1 # 2))
                         (- y * inject_Z (10 ^ f) + (1 # 2))) by (rewrite E; reflexivity).
    reflexivity.
  - rewrite (Qfloor_comp (x * inject_Z (10 ^ f) + (1 # 2))
                         (y * inject_Z (10 ^ f) + (1 # 2))) by (rewrite E; reflexivity).
    reflexivity.
Qed.

(** X7: On bars with positive closes, while the slow moving average is still
    undefined (the first slowPeriod - 1 bars) runBacktest does not trade: cash
    stays at the initial capital, no units are held, the exposure is 0, no
    win, loss or trade signal is recorded, and every point of the equity curve
    so far is the initial capital rounded to 2 decimals. *)
Theorem no_trade_before_slow_average (tanh : Q -> Q) (bars : list OHLCVBar)
    (fastMAv slowMAv riskAversion initialCapital : Q) (k : nat) :
  Forall (fun b => 0 < close b) bars ->
  (k <= length bars)%nat ->
  (Z.of_nat k <= snd (simPeriods fastMAv slowMAv) - 1)%Z ->
  let st := stateBefore tanh bars fastMAv slowMAv riskAversion initialCapital k in
  cash st = initialCapital /\ position st = 0 /\ currentExposure st = 0 /\
  wins st = 0%Z /\ losses st = 0%Z /\ signals st = [] /\
  map snd (curve st) = repeat (toFixed 2 initialCapital) k.
Proof.
  intros _ Hk Hwarm. cbv zeta. unfold stateBefore.
  destruct (simPeriods fastMAv slowMAv) as [fp sp]. simpl snd in Hwarm.
  rewrite <- (loopInput_length bars fp sp) in Hk.
  enough (H : (Z.of_nat k <= sp - 1)%Z ->
    let st := runLoop tanh riskAversion initialCapital (take k (loopInput bars fp sp))
                (initState initialCapital) in
    cash st = initialCapital /\ position st = 0 /\ currentExposure st = 0 /\
    wins st = 0%Z /\ losses st = 0%Z /\ signals st = [] /\
    map snd (curve st) = repeat (toFixed 2 initialCapital) k) by exact (H Hwarm).
  clear Hwarm. revert k Hk.
  apply (runLoop_invariant tanh riskAversion initialCapital (loopInput bars fp sp)
    (fun k st => (Z.of_nat k <= sp - 1)%Z ->
       cash st = initialCapital /\ position st = 0 /\ currentExposure st = 0 /\
       wins st = 0%Z /\ losses st = 0%Z /\ signals st = [] /\
       map snd (curve st) = repeat (toFixed 2 initialCapital) k)).
  - intros _. repeat split; reflexivity.
  - intros k x st Hx IH Hw.
    destruct IH as (Hc & Hu & He & Hwi & Hlo & Hsig & Hcur); [lia|].
    destruct (loopInput_lookup _ _ _ _ _ Hx) as (bar & Hbar & ->).
    assert (Hlt : (k < length (map close bars))%nat).
    { rewrite length_map. eapply lookup_lt_Some, Hbar. }
    assert (Hs : smaEntry (prefixFrom 0 (map close bars)) sp k = None).
    { unfold smaEntry. destruct (Z.ltb_spec (Z.of_nat k) (sp - 1)); [reflexivity | lia]. }
    unfold barStep. rewrite Hs.
    assert (Heq : toFixed 2 (cash st + position st * close bar) = toFixed 2 initialCapital).
    { apply toFixed_compat. rewrite Hc, Hu. ring. }
    destruct (smaEntry _ fp k); cbn [cash position currentExposure wins losses signals curve];
      rewrite map_app, Hcur, Heq; cbn [map snd];
      (repeat split; try assumption);
      rewrite <- repeat_cons; reflexivity.
Qed.

Lemma no_trade_before_slow_average_witness :
  Forall (fun b => 0 < close b) spikeBars /\
  (19 <= length spikeBars)%nat /\
  (Z.of_nat 19 <= snd (simPeriods 0 0) - 1)%Z /\
  cash (stateBefore tanhQ spikeBars 0 0 0 100000 19) = 100000 /\
  position (stateBefore tanhQ spikeBars 0 0 0 100000 19) = 0.
Proof.
  assert (H1 : Forall (fun b => 0 < close b) spikeBars).
  { apply forallb_positive_closes. vm_compute. reflexivity. }
  assert (H2 : (19 <= length spikeBars)%nat) by (vm_compute; lia).
  assert (H3 : (Z.of_nat 19 <= snd (simPeriods 0 0) - 1)%Z) by (vm_compute; discriminate).
  split; [exact H1|]. split; [exact H2|]. split; [exact H3|].
  destruct (no_trade_before_slow_average tanhQ spikeBars 0 0 0 100000 19 H1 H2 H3)
    as (Hc & Hu & _).
  split; [exact Hc | exact Hu].
Defined.

Lemma scale_pos (f : Z) : (0 <= f)%Z -> 0 < inject_Z (10 ^ f).
Proof.
  intros Hf. change 0 with (inject_Z 0). rewrite <- Zlt_Qlt.
  apply Z.pow_pos_nonneg; lia.
Qed.

Lemma Qdiv_le_mono (a b s : Q) : 0 < s -> a <= b -> a / s <= b / s.
Proof.
  intros Hs Hab. apply Qle_shift_div_l; [exact Hs|].
  assert (E : a / s * s == a) by (field; lra). lra.
Qed.

Lemma toFixed_mono (f : Z) (x y : Q) :
  (0 <= f)%Z -> x <= y -> toFixed f x <= toFixed f y.
Proof.
  intros Hf Hxy. unfold toFixed.
  assert (Hs := scale_pos f Hf). set (s := inject_Z (10 ^ f)) in *. clearbody s.
  assert (Hfl : forall a b, a <= b ->
            inject_Z (Qfloor (a * s + (1 # 2))) / s <= inject_Z (Qfloor (b * s + (1 # 2))) / s).
  { intros a b Hab. apply Qdiv_le_mono; [exact Hs|].
    rewrite <- Zle_Qle. apply Qfloor_resp_le. nra. }
  assert (Hnn : forall a, 0 <= a -> 0 <= inject_Z (Qfloor (a * s + (1 # 2))) / s).
  { intros a Ha. apply Qle_shift_div_l; [exact Hs|].
    change (0 * s) with (inject_Z 0 * s).
    assert (H0 : (0 <= Qfloor (a * s + (1 # 2)))%Z).
    { change 0%Z with (Qfloor 0). apply Qfloor_resp_le. nra. }
    rewrite Zle_Qle in H0. change (inject_Z 0) with 0 in *. lra. }
  destruct (Qltb x 0) eqn:Ex; [apply Qltb_true in Ex | apply Qltb_false in Ex];
    (destruct (Qltb y 0) eqn:Ey; [apply Qltb_true in Ey | apply Qltb_false in Ey]).
  - assert (H := Hfl (- y) (- x) ltac:(lra)). lra.
  - assert (H1 := Hnn (- x) ltac:(lra)). assert (H2 := Hnn y Ey). lra.
  - lra.
  - apply Hfl. exact Hxy.
Qed.

(** A non-negative multiple of [10^-f] is its own rounding. *)
Lemma toFixed_fixed (f n : Z) (x : Q) :
  (0 <= f)%Z -> (0 <= n)%Z -> x == inject_Z n / inject_Z (10 ^ f) -> toFixed f x == x.
Proof.
  intros Hf Hn Hx. unfold toFixed.
  assert (Hs := scale_pos f Hf). set (s := inject_Z (10 ^ f)) in *.
  assert (Hn' : 0 <= inject_Z n) by (change 0 with (inject_Z 0); rewrite <- Zle_Qle; exact Hn).
  assert (Hx0 : 0 <= x).
  { rewrite Hx. apply Qle_shift_div_l; [exact Hs | lra]. }
  assert (E : Qltb x 0 = false) by (apply Qltb_false; exact Hx0).
  rewrite E.
  assert (Hm : x * s == inject_Z n) by (rewrite Hx; field; lra).
  assert (Hr : Qfloor (x * s + (1 # 2)) = n) by (apply (Math_round_Z n (x * s)); exact Hm).
  rewrite Hr. symmetry. exact Hx.
Qed.

(** ** Bookkeeping of the simulation loop *)

Lemma barStep_curve (tanh : Q -> Q) (ra cap : Q) (st : LoopState) (i : nat)
    (bar : OHLCVBar) (fS sS : option Q) :
  curve (barStep tanh ra cap st (i, (bar, (fS, sS))))
  = curve st ++ [(date bar, toFixed 2 (cash st + position st * close bar))].
Proof.
  unfold barStep. destruct fS, sS; try reflexivity.
  destruct (Qle_bool _ _); reflexivity.
Qed.

Lemma barStep_dailyReturns (tanh : Q -> Q) (ra cap : Q) (st : LoopState) (i : nat)
    (bar : OHLCVBar) (fS sS : option Q) :
  length (dailyReturns (barStep tanh ra cap st (i, (bar, (fS, sS)))))
  = (length (dailyReturns st) + if (0 <? i)%nat then 1 else 0)%nat.
Proof.
  unfold barStep. destruct fS, sS; cbn [dailyReturns];
    try destruct (Qle_bool _ _); cbn [dailyReturns];
    destruct (0 <? i)%nat; rewrite ?length_app; simpl; lia.
Qed.

Lemma rebalance_counts (price equity te cur : Q) (b : Book) :
  (b_wins b <= b_wins (rebalance price equity te cur b) <= b_wins b + 1)%Z /\
  (b_losses b <= b_losses (rebalance price equity te cur b) <= b_losses b + 1)%Z.
Proof.
  unfold rebalance.
  destruct (Qltb 0 _); [cbn; lia|].
  destruct (Qltb _ 0); [|lia].
  destruct (Qltb _ _); [|cbn; lia].
  cbn. destruct (Qltb _ _); lia.
Qed.

Lemma barStep_counts (tanh : Q -> Q) (ra cap : Q) (st : LoopState) (i : nat)
    (bar : OHLCVBar) (fS sS : option Q) :
  (wins st <= wins (barStep tanh ra cap st (i, (bar, (fS, sS)))))%Z /\
  (losses st <= losses (barStep tanh ra cap st (i, (bar, (fS, sS)))))%Z.
Proof.
  unfold barStep. destruct fS, sS; cbn [wins losses]; try lia.
  destruct (Qle_bool _ _); cbn [wins losses]; [lia|].
  match goal with |- context [rebalance ?p ?e ?t ?c ?b] =>
    destruct (rebalance_counts p e t c b) as [H1 H2] end.
  cbn [bookOf b_wins b_losses] in H1, H2. lia.
Qed.

Lemma barStep_maxDD (tanh : Q -> Q) (ra cap : Q) (st : LoopState) (i : nat)
    (bar : OHLCVBar) (fS sS : option Q) :
  0 <= maxDD st ->
  0 <= maxDD (barStep tanh ra cap st (i, (bar, (fS, sS)))) /\
  (0 <= cash st + position st * close bar -> maxDD st <= 100 ->
   maxDD (barStep tanh ra cap st (i, (bar, (fS, sS)))) <= 100).
Proof.
  intros H0.
  set (equity := cash st + position st * close bar).
  set (peak' := if Qltb (peak st) equity then equity else peak st).
  set (dd := if Qltb 0 peak' then ((peak' - equity) / peak') * 100 else 0).
  assert (E : maxDD (barStep tanh ra cap st (i, (bar, (fS, sS))))
              = if Qltb (maxDD st) dd then dd else maxDD st).
  { unfold barStep. destruct fS, sS; try reflexivity.
    destruct (Qle_bool _ _); reflexivity. }
  rewrite E.
  assert (Hpk : equity <= peak').
  { unfold peak'. destruct (Qltb (peak st) equity) eqn:Ep; [lra|].
    apply Qltb_false in Ep. exact Ep. }
  assert (Hdd : 0 <= dd /\ (0 <= equity -> dd <= 100)).
  { unfold dd. destruct (Qltb 0 peak') eqn:Ez; [|split; intros; lra].
    apply Qltb_true in Ez. set (p := peak') in *. clearbody p.
    assert (Hq0 : 0 <= (p - equity) / p) by (apply Qle_shift_div_l; lra).
    split; [lra|]. intros He.
    assert (Hq1 : (p - equity) / p <= 1) by (apply Qle_shift_div_r; lra).
    lra. }
  destruct Hdd as [Hd0 Hd1].
  destruct (Qltb (maxDD st) dd); split; try assumption; intros; auto.
Qed.

(** The counters and the lists kept by the loop, after [k] bars. *)
Lemma loop_bookkeeping (tanh : Q -> Q) (ra cap : Q) (bars : list OHLCVBar)
    (fp sp : Z) (k : nat) :
  (k <= length bars)%nat ->
  let st := runLoop tanh ra cap (take k (loopInput bars fp sp)) (initState cap) in
  (0 <= wins st)%Z /\ (0 <= losses st)%Z /\
  map fst (curve st) = map date (take k bars) /\
  length (dailyReturns st) = pred k /\
  0 <= maxDD st /\
  (forall bar0, bars !! 0%nat = Some bar0 -> (1 <= k)%nat ->
     exists e, curve st !! 0%nat = Some (date bar0, e) /\ e == toFixed 2 cap).
Proof.
  intros Hk. cbv zeta.
  rewrite <- (loopInput_length bars fp sp) in Hk.
  enough (H : (0 <= wins (runLoop tanh ra cap (take k (loopInput bars fp sp)) (initState cap)))%Z /\
       (0 <= losses (runLoop tanh ra cap (take k (loopInput bars fp sp)) (initState cap)))%Z /\
       map fst (curve (runLoop tanh ra cap (take k (loopInput bars fp sp)) (initState cap)))
         = map date (take k bars) /\
       length (dailyReturns (runLoop tanh ra cap (take k (loopInput bars fp sp)) (initState cap)))
         = pred k /\
       0 <= maxDD (runLoop tanh ra cap (take k (loopInput bars fp sp)) (initState cap)) /\
       (k = 0%nat ->
        cash (runLoop tanh ra cap (take k (loopInput bars fp sp)) (initState cap)) = cap /\
        position (runLoop tanh ra cap (take k (loopInput bars fp sp)) (initState cap)) = 0 /\
        curve (runLoop tanh ra cap (take k (loopInput bars fp sp)) (initState cap)) = []) /\
       (forall bar0, bars !! 0%nat = Some bar0 -> (1 <= k)%nat ->
          exists e, curve (runLoop tanh ra cap (take k (loopInput bars fp sp)) (initState cap))
                      !! 0%nat = Some (date bar0, e) /\ e == toFixed 2 cap)).
  { destruct H as (H1 & H2 & H3 & H4 & H5 & _ & H7). repeat split; assumption. }
  revert k Hk.
  apply (runLoop_invariant tanh ra cap (loopInput bars fp sp)
    (fun k st =>
       (0 <= wins st)%Z /\ (0 <= losses st)%Z /\
       map fst (curve st) = map date (take k bars) /\
       length (dailyReturns st) = pred k /\
       0 <= maxDD st /\
       (k = 0%nat -> cash st = cap /\ position st = 0 /\ curve st = []) /\
       (forall bar0, bars !! 0%nat = Some bar0 -> (1 <= k)%nat ->
          exists e, curve st !! 0%nat = Some (date bar0, e) /\ e == toFixed 2 cap))).
  - simpl. repeat split; try lia; try lra.
  - intros k x st Hx (Hw & Hl & Hc & Hd & Hm & H0 & H1).
    destruct (loopInput_lookup _ _ _ _ _ Hx) as (bar & Hbar & ->).
    set (fS := smaEntry _ fp k). set (sS := smaEntry _ sp k). clearbody fS sS.
    destruct (barStep_counts tanh ra cap st k bar fS sS) as [C1 C2].
    destruct (barStep_maxDD tanh ra cap st k bar fS sS Hm) as [M1 _].
    rewrite barStep_curve, barStep_dailyReturns.
    split; [lia|]. split; [lia|]. split.
    { rewrite map_app, Hc. rewrite (take_S_r bars k bar Hbar), map_app. reflexivity. }
    split.
    { rewrite Hd. destruct k; simpl; lia. }
    split; [exact M1|]. split; [intros; lia|].
    intros bar0 Hb0 _. destruct k as [|k].
    + destruct (H0 eq_refl) as (Ecash & Epos & Ecurve).
      rewrite Ecurve. assert (bar0 = bar) by congruence. subst bar0.
      eexists. split; [reflexivity|].
      apply toFixed_proper; [reflexivity|]. rewrite Ecash, Epos. ring.
    + destruct (H1 bar0 Hb0 ltac:(lia)) as (e & He & Ee).
      exists e. split; [|exact Ee]. apply lookup_app_l_Some. exact He.
Qed.

(** ** What a backtest result reports *)

Lemma finalState_runLoop (tanh : Q -> Q) (bars : list OHLCVBar)
    (fastMAv slowMAv ra cap : Q) :
  finalState tanh bars fastMAv slowMAv ra cap
  = runLoop tanh ra cap
      (take (length bars)
         (loopInput bars (fst (simPeriods fastMAv slowMAv)) (snd (simPeriods fastMAv slowMAv))))
      (initState cap).
Proof.
  unfold finalState. destruct (simPeriods fastMAv slowMAv) as [fp sp]. cbn [fst snd].
  rewrite take_ge by (rewrite loopInput_length; lia). reflexivity.
Qed.

Lemma runBacktest_fields (tanh sqrt : Q -> Q) (TOP_15 : list string)
    (SYMBOL_LABEL : gmap string string) (bars : list OHLCVBar)
    (fastMAv slowMAv ra cap : Q) (r : BacktestResult) :
  runBacktest tanh sqrt TOP_15 SYMBOL_LABEL bars fastMAv slowMAv ra cap = Some r ->
  let st := finalState tanh bars fastMAv slowMAv ra cap in
  maxDrawdown r = toFixed 2 (maxDD st) /\
  sharpe r = toFixed 3 (sharpeOf sqrt (dailyReturns st)) /\
  fastPeriod r = fst (simPeriods fastMAv slowMAv) /\
  slowPeriod r = snd (simPeriods fastMAv slowMAv).
Proof.
  unfold runBacktest. destruct (length bars <? 50)%nat; [discriminate|].
  destruct (simPeriods fastMAv slowMAv) as [fp sp].
  intros H. injection H as <-. cbn. repeat split; reflexivity.
Qed.

Lemma equityCurve_length (tanh sqrt : Q -> Q) (TOP_15 : list string)
    (SYMBOL_LABEL : gmap string string) (bars : list OHLCVBar)
    (fastMAv slowMAv riskAversion initialCapital : Q) (r : BacktestResult) :
  runBacktest tanh sqrt TOP_15 SYMBOL_LABEL bars fastMAv slowMAv
              riskAversion initialCapital = Some r ->
  length (equityCurve r) = length bars.
Proof.
  intros H. destruct (runBacktest_inv _ _ _ _ _ _ _ _ _ _ H) as (_ & _ & _ & _ & _ & Hc & _).
  rewrite Hc, finalState_runLoop.
  destruct (loop_bookkeeping tanh riskAversion initialCapital bars
              (fst (simPeriods fastMAv slowMAv)) (snd (simPeriods fastMAv slowMAv))
              (length bars) (Nat.le_refl _)) as (_ & _ & Hd & _).
  rewrite (take_ge bars) in Hd by lia.
  apply (f_equal length) in Hd. rewrite !length_map in Hd. exact Hd.
Qed.

(** X8: The equity curve of a backtest result has one point per bar, dated
    with the dates of the bars in order, and its first point is the initial
    capital rounded to 2 decimals. *)
Theorem equity_curve_follows_bars (tanh sqrt : Q -> Q) (TOP_15 : list string)
    (SYMBOL_LABEL : gmap string string) (bars : list OHLCVBar)
    (fastMAv slowMAv riskAversion initialCapital : Q) (r : BacktestResult) :
  runBacktest tanh sqrt TOP_15 SYMBOL_LABEL bars fastMAv slowMAv
              riskAversion initialCapital = Some r ->
  map fst (equityCurve r) = map date bars /\
  length (equityCurve r) = length bars /\
  exists bar0 e, bars !! 0%nat = Some bar0 /\
    equityCurve r !! 0%nat = Some (date bar0, e) /\ e == toFixed 2 initialCapital.
Proof.
  intros H. destruct (runBacktest_inv _ _ _ _ _ _ _ _ _ _ H) as (Hlen & _ & _ & _ & _ & Hc & _).
  rewrite Hc, finalState_runLoop.
  destruct (loop_bookkeeping tanh riskAversion initialCapital bars
              (fst (simPeriods fastMAv slowMAv)) (snd (simPeriods fastMAv slowMAv))
              (length bars) (Nat.le_refl _)) as (_ & _ & Hd & _ & _ & H0).
  rewrite (take_ge bars) in Hd by lia.
  split; [exact Hd|]. split.
  { apply (f_equal length) in Hd. rewrite !length_map in Hd. exact Hd. }
  destruct bars as [|bar0 rest]; [simpl in Hlen; lia|].
  destruct (H0 bar0 eq_refl ltac:(simpl; lia)) as (e & He & Ee).
  exists bar0, e. repeat split; assumption.
Qed.

Lemma equity_curve_follows_bars_witness :
  exists r, runBacktest tanhQ sqrtQ sampleSymbols sampleLabels spikeBars 0 0 0 100000 = Some r /\
    length (equityCurve r) = length spikeBars /\
    map fst (equityCurve r) = map date spikeBars.
Proof.
  destruct (runBacktest_total tanhQ sqrtQ sampleSymbols sampleLabels spikeBars 0 0 0 100000
              ltac:(vm_compute; lia)) as [r E].
  exists r. split; [exact E|].
  destruct (equity_curve_follows_bars tanhQ sqrtQ sampleSymbols sampleLabels spikeBars
              0 0 0 100000 r E) as (H1 & H2 & _).
  split; [exact H2 | exact H1].
Defined.

Lemma winRateOf_range (st : LoopState) :
  (0 <= wins st)%Z -> (0 <= losses st)%Z ->
  0 <= winRateOf st <= 100 /\ ((wins st + losses st = 0)%Z -> winRateOf st = 0).
Proof.
  intros Hw Hl. unfold winRateOf.
  destruct (Z.ltb_spec 0 (wins st + losses st)) as [Hpos|Hz].
  - split; [|lia].
    assert (Ht : 0 < inject_Z (wins st + losses st)).
    { change 0 with (inject_Z 0). rewrite <- Zlt_Qlt. exact Hpos. }
    assert (Hw' : 0 <= inject_Z (wins st)).
    { change 0 with (inject_Z 0). rewrite <- Zle_Qle. exact Hw. }
    assert (Hle : inject_Z (wins st) <= inject_Z (wins st + losses st)).
    { rewrite <- Zle_Qle. lia. }
    set (t := inject_Z (wins st + losses st)) in *. set (w := inject_Z (wins st)) in *.
    clearbody t w.
    assert (H0 : 0 <= w / t) by (apply Qle_shift_div_l; lra).
    assert (H1 : w / t <= 1) by (apply Qle_shift_div_r; lra).
    split; lra.
  - split; [split; lra | reflexivity].
Qed.

(** X9: In every backtest result the trade count is non-negative, the win rate
    lies in [0,100], and the win rate is 0 when no round trip was completed. *)
Theorem win_rate_of_result (tanh sqrt : Q -> Q) (TOP_15 : list string)
    (SYMBOL_LABEL : gmap string string) (bars : list OHLCVBar)
    (fastMAv slowMAv riskAversion initialCapital : Q) (r : BacktestResult) :
  runBacktest tanh sqrt TOP_15 SYMBOL_LABEL bars fastMAv slowMAv
              riskAversion initialCapital = Some r ->
  (0 <= trades r)%Z /\ 0 <= winRate r <= 100 /\ (trades r = 0%Z -> winRate r == 0).
Proof.
  intros H. destruct (runBacktest_inv _ _ _ _ _ _ _ _ _ _ H) as (Hlen & _ & Hwr & Htr & _).
  rewrite Hwr, Htr, finalState_runLoop.
  destruct (loop_bookkeeping tanh riskAversion initialCapital bars
              (fst (simPeriods fastMAv slowMAv)) (snd (simPeriods fastMAv slowMAv))
              (length bars) (Nat.le_refl _)) as (Hw & Hl & _).
  destruct (winRateOf_range _ Hw Hl) as [Hr Hz].
  split; [lia|]. split.
  - apply (toFixed_range 1 _ 100); [lia | exact Hr].
  - intros Ht. rewrite (Hz Ht). reflexivity.
Qed.

Lemma win_rate_of_result_witness :
  exists r, runBacktest tanhQ sqrtQ sampleSymbols sampleLabels spikeBars 0 0 0 100000 = Some r /\
    (0 <= trades r)%Z /\ 0 <= winRate r <= 100.
Proof.
  destruct (runBacktest_total tanhQ sqrtQ sampleSymbols sampleLabels spikeBars 0 0 0 100000
              ltac:(vm_compute; lia)) as [r E].
  exists r. split; [exact E|].
  destruct (win_rate_of_result tanhQ sqrtQ sampleSymbols sampleLabels spikeBars
              0 0 0 100000 r E) as (H1 & H2 & _).
  split; [exact H1 | exact H2].
Defined.

(** X10: The fitness of every backtest result lies in [0,100] and never
    exceeds the base composite fitness: the consistency factor can only lower
    it. *)
Theorem fitness_of_result_bounded (tanh sqrt : Q -> Q) (TOP_15 : list string)
    (SYMBOL_LABEL : gmap string string) (bars : list OHLCVBar)
    (fastMAv slowMAv riskAversion initialCapital : Q) (r : BacktestResult) :
  runBacktest tanh sqrt TOP_15 SYMBOL_LABEL bars fastMAv slowMAv
              riskAversion initialCapital = Some r ->
  let st := finalState tanh bars fastMAv slowMAv riskAversion initialCapital in
  0 <= fitness r <= 100 /\
  fitness r <= baseFitnessOf sqrt initialCapital bars st.
Proof.
  intros H st. destruct (runBacktest_inv _ _ _ _ _ _ _ _ _ _ H) as (_ & _ & _ & _ & Hf & _).
  fold st in Hf. rewrite Hf.
  assert (Hb : 0 <= baseFitnessOf sqrt initialCapital bars st <= 100)
    by (unfold baseFitnessOf; apply computeFitness_bounds).
  assert (Hp := consistencyPenalty_range (year2RetOf initialCapital bars st)).
  assert (Hfix : toFixed 1 (baseFitnessOf sqrt initialCapital bars st)
                 == baseFitnessOf sqrt initialCapital bars st).
  { unfold baseFitnessOf, computeFitness.
    match goal with |- toFixed 1 (toFixed 1 ?x) == _ =>
      assert (Hx : 0 <= x) by
        (apply Qmult_le_0_compat; [|lra];
         apply Qmin_glb; [apply Qmax_ge_r | lra]);
      destruct (toFixed_nonneg_bounds 1 x ltac:(lia) Hx) as (_ & _ & n & Hn & _ & En)
    end.
    apply (toFixed_fixed 1 n); [lia | exact Hn | exact En]. }
  set (base := baseFitnessOf sqrt initialCapital bars st) in *.
  set (pen := consistencyPenalty _) in *. clearbody base pen.
  assert (Hprod : 0 <= base * pen <= 100) by nra.
  split.
  - apply (toFixed_range 1 _ 100); [lia | exact Hprod].
  - rewrite <- Hfix. apply toFixed_mono; [lia | nra].
Qed.

Lemma fitness_of_result_bounded_witness :
  exists r, runBacktest tanhQ sqrtQ sampleSymbols sampleLabels spikeBars 0 0 0 100000 = Some r /\
    0 <= fitness r <= 100 /\
    fitness r <= baseFitnessOf sqrtQ 100000 spikeBars (finalState tanhQ spikeBars 0 0 0 100000).
Proof.
  destruct (runBacktest_total tanhQ sqrtQ sampleSymbols sampleLabels spikeBars 0 0 0 100000
              ltac:(vm_compute; lia)) as [r E].
  exists r. split; [exact E|].
  exact (fitness_of_result_bounded tanhQ sqrtQ sampleSymbols sampleLabels spikeBars
           0 0 0 100000 r E).
Defined.

(** X11: On bars with positive closes and a non-negative initial capital, the
    maxDrawdown reported by runBacktest lies in [0,100]. *)
Theorem max_drawdown_bounded (tanh sqrt : Q -> Q) (TOP_15 : list string)
    (SYMBOL_LABEL : gmap string string) (bars : list OHLCVBar)
    (fastMAv slowMAv riskAversion initialCapital : Q) (r : BacktestResult) :
  Forall (fun b => 0 < close b) bars ->
  0 <= initialCapital ->
  runBacktest tanh sqrt TOP_15 SYMBOL_LABEL bars fastMAv slowMAv
              riskAversion initialCapital = Some r ->
  0 <= maxDrawdown r <= 100.
Proof.
  intros Hpos Hcap H.
  destruct (runBacktest_fields _ _ _ _ _ _ _ _ _ _ H) as (Hdd & _).
  rewrite Hdd, finalState_runLoop.
  set (fp := fst (simPeriods fastMAv slowMAv)). set (sp := snd (simPeriods fastMAv slowMAv)).
  apply (toFixed_range 2 _ 100); [lia|].
  assert (Hinv : forall j, (j <= length (loopInput bars fp sp))%nat ->
    0 <= cash (runLoop tanh riskAversion initialCapital
                 (take j (loopInput bars fp sp)) (initState initialCapital)) /\
    0 <= position (runLoop tanh riskAversion initialCapital
                     (take j (loopInput bars fp sp)) (initState initialCapital)) /\
    0 <= maxDD (runLoop tanh riskAversion initialCapital
                  (take j (loopInput bars fp sp)) (initState initialCapital)) <= 100).
  { apply (runLoop_invariant tanh riskAversion initialCapital (loopInput bars fp sp)
             (fun _ st => 0 <= cash st /\ 0 <= position st /\ 0 <= maxDD st <= 100)).
    - simpl. repeat split; lra.
    - intros j x st Hx (Hc & Hu & Hm0 & Hm1).
      destruct (loopInput_lookup _ _ _ _ _ Hx) as (bar & Hbar & ->).
      assert (Hp : 0 < close bar) by (rewrite Forall_lookup in Hpos; exact (Hpos j bar Hbar)).
      destruct (barStep_nonneg tanh riskAversion initialCapital st j bar
                  (smaEntry (prefixFrom 0 (map close bars)) fp j)
                  (smaEntry (prefixFrom 0 (map close bars)) sp j) Hp Hc Hu) as [N1 N2].
      destruct (barStep_maxDD tanh riskAversion initialCapital st j bar
                  (smaEntry (prefixFrom 0 (map close bars)) fp j)
                  (smaEntry (prefixFrom 0 (map close bars)) sp j) Hm0) as [M0 M1].
      split; [exact N1|]. split; [exact N2|]. split; [exact M0|].
      apply M1; [nra | exact Hm1]. }
  destruct (Hinv (length bars)) as (_ & _ & Hm); [rewrite loopInput_length; lia|].
  exact Hm.
Qed.

Lemma max_drawdown_bounded_witness :
  Forall (fun b => 0 < close b) spikeBars /\ 0 <= 100000 /\
  exists r, runBacktest tanhQ sqrtQ sampleSymbols sampleLabels spikeBars 0 0 0 100000 = Some r /\
    0 <= maxDrawdown r <= 100.
Proof.
  assert (Hpos : Forall (fun b => 0 < close b) spikeBars)
    by (apply forallb_positive_closes; vm_compute; reflexivity).
  assert (Hcap : 0 <= 100000) by (vm_compute; discriminate).
  split; [exact Hpos|]. split; [exact Hcap|].
  destruct (runBacktest_total tanhQ sqrtQ sampleSymbols sampleLabels spikeBars 0 0 0 100000
              ltac:(vm_compute; lia)) as [r E].
  exists r. split; [exact E|].
  exact (max_drawdown_bounded tanhQ sqrtQ sampleSymbols sampleLabels spikeBars 0 0 0 100000 r
           Hpos Hcap E).
Defined.

(** ** Where trade signals come from *)

Lemma smaEntry_Some_index (prefix : list Q) (period : Z) (k : nat) (v : Q) :
  smaEntry prefix period k = Some v -> (period - 1 <= Z.of_nat k)%Z.
Proof.
  unfold smaEntry. destruct (Z.ltb_spec (Z.of_nat k) (period - 1)); [discriminate | lia].
Qed.

Lemma signals_located (tanh : Q -> Q) (ra cap : Q) (bars : list OHLCVBar)
    (fp sp : Z) (k : nat) :
  (k <= length bars)%nat ->
  let st := runLoop tanh ra cap (take k (loopInput bars fp sp)) (initState cap) in
  Forall (fun sig => exists j, (j < k)%nat /\ signalAt tanh ra bars fp sp j sig) (signals st) /\
  (Z.of_nat (length (signals st)) <= Z.max 0 (Z.of_nat k - sp))%Z.
Proof.
  intros Hk. cbv zeta.
  rewrite <- (loopInput_length bars fp sp) in Hk.
  enough (H :
    prevSSMA (runLoop tanh ra cap (take k (loopInput bars fp sp)) (initState cap))
      = match k with O => None | S k' => smaEntry (prefixFrom 0 (map close bars)) sp k' end /\
    Forall (fun sig => exists j, (j < k)%nat /\ signalAt tanh ra bars fp sp j sig)
      (signals (runLoop tanh ra cap (take k (loopInput bars fp sp)) (initState cap))) /\
    (Z.of_nat (length (signals (runLoop tanh ra cap (take k (loopInput bars fp sp))
                                  (initState cap))))
     <= Z.max 0 (Z.of_nat k - sp))%Z).
  { destruct H as (_ & H2 & H3). split; assumption. }
  revert k Hk.
  apply (runLoop_invariant tanh ra cap (loopInput bars fp sp)
    (fun k st =>
       prevSSMA st
         = match k with O => None | S k' => smaEntry (prefixFrom 0 (map close bars)) sp k' end /\
       Forall (fun sig => exists j, (j < k)%nat /\ signalAt tanh ra bars fp sp j sig)
         (signals st) /\
       (Z.of_nat (length (signals st)) <= Z.max 0 (Z.of_nat k - sp))%Z)).
  - simpl. split; [reflexivity|]. split; [constructor | lia].
  - intros k x st Hx (Hprev & Hall & Hcount).
    destruct (loopInput_lookup _ _ _ _ _ Hx) as (bar & Hbar & ->).
    destruct (barStep_prev tanh ra cap st k bar
                (smaEntry (prefixFrom 0 (map close bars)) fp k)
                (smaEntry (prefixFrom 0 (map close bars)) sp k)) as [_ E2].
    split; [exact E2|].
    rewrite barStep_signals.
    assert (Hold : Forall (fun sig => exists j, (j < S k)%nat /\
                                        signalAt tanh ra bars fp sp j sig) (signals st)).
    { eapply Forall_impl; [exact Hall|]. intros sig (j & Hj & Hs). exists j. split; [lia | exact Hs]. }
    destruct (smaEntry (prefixFrom 0 (map close bars)) fp k) as [f|] eqn:Ef;
      [|split; [exact Hold | lia]].
    destruct (smaEntry (prefixFrom 0 (map close bars)) sp k) as [s|] eqn:Es;
      [|split; [exact Hold | lia]].
    assert (Hidx := smaEntry_Some_index _ _ _ _ Es).
    unfold crossSignals.
    destruct (prevFSMA st) as [pF|]; [|rewrite app_nil_r; split; [exact Hold | lia]].
    destruct (prevSSMA st) as [pS|] eqn:EpS; [|rewrite app_nil_r; split; [exact Hold | lia]].
    assert (Hk1 : (sp <= Z.of_nat k)%Z).
    { destruct k as [|k']; [discriminate|].
      symmetry in Hprev. apply smaEntry_Some_index in Hprev. lia. }
    destruct (Qltb s f && Qle_bool pF pS) eqn:Eentry.
    + split.
      * apply Forall_app. split; [exact Hold|]. constructor; [|constructor].
        exists k. split; [lia|]. exists bar. cbn.
        repeat split; try assumption; try discriminate.
        intros _. exists f, s. apply andb_prop in Eentry as [E1 _].
        apply Qltb_true in E1. repeat split; assumption.
      * rewrite length_app. simpl. lia.
    + destruct (Qle_bool f s && Qltb pS pF).
      * split.
        -- apply Forall_app. split; [exact Hold|]. constructor; [|constructor].
           exists k. split; [lia|]. exists bar. cbn.
           repeat split; try assumption; try discriminate.
        -- rewrite length_app. simpl. lia.
      * rewrite app_nil_r. split; [exact Hold | lia].
Qed.

(** X12: Every trade signal of a backtest result carries the date and the
    close of a bar whose index is at least the slow period (no signal during
    warm-up), an exit signal has exposure 0, and there are at most max(0,
    number of bars - slowPeriod) signals. *)
Theorem signals_come_from_bars (tanh sqrt : Q -> Q) (TOP_15 : list string)
    (SYMBOL_LABEL : gmap string string) (bars : list OHLCVBar)
    (fastMAv slowMAv riskAversion initialCapital : Q) (r : BacktestResult) :
  runBacktest tanh sqrt TOP_15 SYMBOL_LABEL bars fastMAv slowMAv
              riskAversion initialCapital = Some r ->
  (forall sig, sig ∈ tradeSignals r ->
     exists k bar, bars !! k = Some bar /\ (slowPeriod r <= Z.of_nat k)%Z /\
       sig_date sig = date bar /\ sig_price sig = close bar /\
       (action sig = exit -> exposure sig = 0)) /\
  (Z.of_nat (length (tradeSignals r))
   <= Z.max 0 (Z.of_nat (length bars) - slowPeriod r))%Z.
Proof.
  intros H.
  destruct (runBacktest_inv _ _ _ _ _ _ _ _ _ _ H) as (_ & _ & _ & _ & _ & _ & Hs).
  destruct (runBacktest_fields _ _ _ _ _ _ _ _ _ _ H) as (_ & _ & _ & Hsp).
  rewrite Hs, Hsp, finalState_runLoop.
  destruct (signals_located tanh riskAversion initialCapital bars
              (fst (simPeriods fastMAv slowMAv)) (snd (simPeriods fastMAv slowMAv))
              (length bars) (Nat.le_refl _)) as [Hall Hcount].
  split; [|exact Hcount].
  intros sig Hin. rewrite Forall_forall in Hall.
  destruct (Hall sig Hin) as (j & _ & bar & Hbar & Hj & Hd & Hp & Hx & _).
  exists j, bar. repeat split; assumption.
Qed.

Lemma signals_come_from_bars_witness :
  exists r, runBacktest tanhQ sqrtQ sampleSymbols sampleLabels spikeBars 0 0 0 100000 = Some r /\
    (Z.of_nat (length (tradeSignals r))
     <= Z.max 0 (Z.of_nat (length spikeBars) - slowPeriod r))%Z.
Proof.
  destruct (runBacktest_total tanhQ sqrtQ sampleSymbols sampleLabels spikeBars 0 0 0 100000
              ltac:(vm_compute; lia)) as [r E].
  exists r. split; [exact E|].
  exact (proj2 (signals_come_from_bars tanhQ sqrtQ sampleSymbols sampleLabels spikeBars
                  0 0 0 100000 r E)).
Defined.

(** X13: With Math.tanh in [0,1] on positive arguments, positive closes and
    riskAversion in [0,1], the exposure recorded in every trade signal lies in
    [0, 0.99]. *)
Theorem signal_exposure_bounded (tanh sqrt : Q -> Q) (TOP_15 : list string)
    (SYMBOL_LABEL : gmap string string) (bars : list OHLCVBar)
    (fastMAv slowMAv riskAversion initialCapital : Q) (r : BacktestResult) :
  (forall x, 0 < x -> 0 <= tanh x <= 1) ->
  Forall (fun b => 0 < close b) bars ->
  0 <= riskAversion <= 1 ->
  runBacktest tanh sqrt TOP_15 SYMBOL_LABEL bars fastMAv slowMAv
              riskAversion initialCapital = Some r ->
  forall sig, sig ∈ tradeSignals r ->
    0 <= exposure sig <= 0.99.
Proof.
  intros Htanh Hpos Hra H sig Hin.
  destruct (runBacktest_inv _ _ _ _ _ _ _ _ _ _ H) as (_ & _ & _ & _ & _ & _ & Hs).
  rewrite Hs, finalState_runLoop in Hin.
  assert (Hb := simPeriods_bounds fastMAv slowMAv).
  destruct (signals_located tanh riskAversion initialCapital bars
              (fst (simPeriods fastMAv slowMAv)) (snd (simPeriods fastMAv slowMAv))
              (length bars) (Nat.le_refl _)) as [Hall _].
  rewrite Forall_forall in Hall.
  destruct (Hall sig Hin) as (j & Hj & bar & Hbar & _ & _ & _ & Hexit & Hentry).
  destruct (action sig).
  - destruct (Hentry eq_refl) as (f & s & Hf & Hsm & Hlt & ->).
    assert (Hs0 : 0 < s).
    { apply (smaEntry_positive (map close bars) (snd (simPeriods fastMAv slowMAv)) j s).
      - apply Forall_map. exact Hpos.
      - lia.
      - rewrite length_map. eapply lookup_lt_Some, Hbar.
      - exact Hsm. }
    destruct (exposureFormula_range tanh riskAversion f s Htanh Hra Hs0 Hlt) as [E0 E1].
    split.
    + apply (toFixed_range 4 _ 1); [lia|]. change (inject_Z 1) with 1. lra.
    + rewrite <- (toFixed_fixed 4 9900 0.99) by (try lia; reflexivity).
      apply toFixed_mono; [lia | exact E1].
  - rewrite (Hexit eq_refl). lra.
Qed.

Lemma signal_exposure_bounded_witness :
  (forall x, 0 < x -> 0 <= tanhSat x <= 1) /\
  Forall (fun b => 0 < close b) jumpBars /\ 0 <= 0 <= 1 /\
  exists r,
    runBacktest tanhSat sqrtQ sampleSymbols sampleLabels jumpBars 0 0 0 100000 = Some r /\
    forall sig, sig ∈ tradeSignals r -> 0 <= exposure sig <= 0.99.
Proof.
  assert (Hpos : Forall (fun b => 0 < close b) jumpBars)
    by (apply forallb_positive_closes; vm_compute; reflexivity).
  assert (Hra : 0 <= 0 <= 1) by (split; vm_compute; discriminate).
  split; [exact tanhSat_range|]. split; [exact Hpos|]. split; [exact Hra|].
  destruct (runBacktest_total tanhSat sqrtQ sampleSymbols sampleLabels jumpBars 0 0 0 100000
              ltac:(vm_compute; lia)) as [r E].
  exists r. split; [exact E|].
  exact (signal_exposure_bounded tanhSat sqrtQ sampleSymbols sampleLabels jumpBars 0 0 0 100000 r
           tanhSat_range Hpos Hra E).
Defined.

(** ** A fully risk-averse genome *)

Lemma targetExposureOf_averse (tanh : Q -> Q) (ra f s : Q) :
  ra == 1 -> targetExposureOf tanh ra f s == 0 /\ exposureFormula tanh ra f s == 0.
Proof.
  intros Hra. unfold targetExposureOf, exposureFormula.
  destruct (Qltb s f); split; try reflexivity; rewrite Hra; ring.
Qed.

Lemma averse_invariant (tanh : Q -> Q) (ra cap : Q) (bars : list OHLCVBar)
    (fp sp : Z) (k : nat) :
  ra == 1 -> 0 < cap -> (k <= length bars)%nat ->
  let st := runLoop tanh ra cap (take k (loopInput bars fp sp)) (initState cap) in
  cash st = cap /\ position st = 0 /\ currentExposure st = 0 /\
  wins st = 0%Z /\ losses st = 0%Z /\ peak st = cap /\ maxDD st == 0 /\
  Forall (fun p => snd p == toFixed 2 cap) (curve st) /\
  Forall (fun sig => exposure sig == 0) (signals st).
Proof.
  intros Hra Hcap Hk. cbv zeta.
  rewrite <- (loopInput_length bars fp sp) in Hk. revert k Hk.
  apply (runLoop_invariant tanh ra cap (loopInput bars fp sp)
    (fun _ st =>
       cash st = cap /\ position st = 0 /\ currentExposure st = 0 /\
       wins st = 0%Z /\ losses st = 0%Z /\ peak st = cap /\ maxDD st == 0 /\
       Forall (fun p => snd p == toFixed 2 cap) (curve st) /\
       Forall (fun sig => exposure sig == 0) (signals st))).
  - simpl. repeat split; try reflexivity; constructor.
  - intros k x st Hx (Hcash & Hpos & Hexp & Hw & Hl & Hpk & Hdd & Hcv & Hsg).
    destruct (loopInput_lookup _ _ _ _ _ Hx) as (bar & Hbar & ->).
    set (fS := smaEntry _ fp k). set (sS := smaEntry _ sp k). clearbody fS sS.
    assert (Heq : cash st + position st * close bar == cap) by (rewrite Hcash, Hpos; ring).
    assert (Hkeep :
      cash (barStep tanh ra cap st (k, (bar, (fS, sS)))) = cash st /\
      position (barStep tanh ra cap st (k, (bar, (fS, sS)))) = position st /\
      currentExposure (barStep tanh ra cap st (k, (bar, (fS, sS)))) = currentExposure st /\
      wins (barStep tanh ra cap st (k, (bar, (fS, sS)))) = wins st /\
      losses (barStep tanh ra cap st (k, (bar, (fS, sS)))) = losses st).
    { unfold barStep. destruct fS as [f|], sS as [s|]; try (repeat split; reflexivity).
      assert (Hc : Qle_bool (Qabs (targetExposureOf tanh ra f s - currentExposure st)) 0.01 = true).
      { apply Qle_bool_iff. rewrite Hexp.
        rewrite (proj1 (targetExposureOf_averse tanh ra f s Hra)). vm_compute. discriminate. }
      rewrite Hc. repeat split; reflexivity. }
    destruct Hkeep as (K1 & K2 & K3 & K4 & K5).
    rewrite K1, K2, K3, K4, K5, barStep_curve, barStep_signals.
    assert (Hpeak : peak (barStep tanh ra cap st (k, (bar, (fS, sS)))) = cap /\
                    maxDD (barStep tanh ra cap st (k, (bar, (fS, sS)))) == 0).
    { assert (E : peak (barStep tanh ra cap st (k, (bar, (fS, sS))))
                  = (if Qltb (peak st) (cash st + position st * close bar)
                     then cash st + position st * close bar else peak st) /\
                  maxDD (barStep tanh ra cap st (k, (bar, (fS, sS))))
                  = (let equity := cash st + position st * close bar in
                     let peak' := if Qltb (peak st) equity then equity else peak st in
                     let dd := if Qltb 0 peak' then ((peak' - equity) / peak') * 100 else 0 in
                     if Qltb (maxDD st) dd then dd else maxDD st)).
      { unfold barStep. destruct fS, sS; try (split; reflexivity).
        destruct (Qle_bool _ _); split; reflexivity. }
      destruct E as [E1 E2]. rewrite E1, E2. cbv zeta.
      assert (Hlt : Qltb (peak st) (cash st + position st * close bar) = false).
      { apply Qltb_false. rewrite Hpk. lra. }
      rewrite Hlt. split; [exact Hpk|].
      rewrite Hpk.
      assert (Hp0 : Qltb 0 cap = true) by (apply Qltb_true; exact Hcap).
      rewrite Hp0.
      assert (Hz : (cap - (cash st + position st * close bar)) / cap * 100 == 0).
      { rewrite Heq. field. lra. }
      assert (Hn : Qltb (maxDD st) ((cap - (cash st + position st * close bar)) / cap * 100)
                   = false).
      { apply Qltb_false. rewrite Hz, Hdd. lra. }
      rewrite Hn. exact Hdd. }
    destruct Hpeak as [P1 P2].
    repeat split; try assumption.
    + apply Forall_app. split; [exact Hcv|]. constructor; [|constructor].
      cbn [snd]. apply toFixed_proper; [reflexivity | exact Heq].
    + destruct fS as [f|], sS as [s|]; try exact Hsg.
      apply Forall_app. split; [exact Hsg|].
      unfold crossSignals.
      destruct (prevFSMA st), (prevSSMA st); try constructor.
      destruct (_ && _).
      * constructor; [|constructor]. cbn [exposure].
        rewrite (proj2 (targetExposureOf_averse tanh ra f s Hra)). reflexivity.
      * destruct (_ && _); constructor; [reflexivity | constructor].
Qed.

(** X14: With riskAversion = 1 and a positive initial capital, a backtest on
    at least 50 bars never trades: zero trades, total return 0, win rate 0,
    max drawdown 0, every equity-curve point at the initial capital rounded to
    2 decimals, and every recorded signal with exposure 0. *)
Theorem full_risk_aversion_never_trades (tanh sqrt : Q -> Q) (TOP_15 : list string)
    (SYMBOL_LABEL : gmap string string) (bars : list OHLCVBar)
    (fastMAv slowMAv riskAversion initialCapital : Q) :
  riskAversion == 1 -> 0 < initialCapital -> (50 <= length bars)%nat ->
  exists r,
    runBacktest tanh sqrt TOP_15 SYMBOL_LABEL bars fastMAv slowMAv
                riskAversion initialCapital = Some r /\
    trades r = 0%Z /\ totalReturn r == 0 /\ winRate r == 0 /\ maxDrawdown r == 0 /\
    Forall (fun p => snd p == toFixed 2 initialCapital) (equityCurve r) /\
    Forall (fun sig => exposure sig == 0) (tradeSignals r).
Proof.
  intros Hra Hcap Hlen.
  destruct (runBacktest_total tanh sqrt TOP_15 SYMBOL_LABEL bars fastMAv slowMAv
              riskAversion initialCapital Hlen) as [r Hr].
  exists r. split; [exact Hr|].
  destruct (runBacktest_inv _ _ _ _ _ _ _ _ _ _ Hr)
    as (_ & Htr & Hwr & Htrades & _ & Hcv & Hsig).
  destruct (runBacktest_fields _ _ _ _ _ _ _ _ _ _ Hr) as (Hdd & _).
  rewrite Htrades, Htr, Hwr, Hdd, Hcv, Hsig.
  unfold totalReturnOf, finalEquityOf, winRateOf.
  rewrite finalState_runLoop.
  destruct (averse_invariant tanh riskAversion initialCapital bars
              (fst (simPeriods fastMAv slowMAv)) (snd (simPeriods fastMAv slowMAv))
              (length bars) Hra Hcap (Nat.le_refl _))
    as (H1 & H2 & _ & H4 & H5 & _ & H7 & H8 & H9).
  rewrite H1, H2, H4, H5.
  split; [reflexivity|]. split; [|split; [reflexivity|split; [|split; assumption]]].
  - assert (Hz : (initialCapital + 0 * List.last (map close bars) 0 - initialCapital)
                 / initialCapital * 100 == 0) by (field; lra).
    rewrite Hz. reflexivity.
  - rewrite H7. reflexivity.
Qed.

Lemma full_risk_aversion_never_trades_witness :
  1 == 1 /\ 0 < 100000 /\ (50 <= length spikeBars)%nat /\
  exists r,
    runBacktest tanhQ sqrtQ sampleSymbols sampleLabels spikeBars 0 0 1 100000 = Some r /\
    trades r = 0%Z /\ totalReturn r == 0.
Proof.
  assert (H1 : 1 == 1) by reflexivity.
  assert (H2 : 0 < 100000) by reflexivity.
  assert (H3 : (50 <= length spikeBars)%nat) by (vm_compute; lia).
  split; [exact H1|]. split; [exact H2|]. split; [exact H3|].
  destruct (full_risk_aversion_never_trades tanhQ sqrtQ sampleSymbols sampleLabels spikeBars
              0 0 1 100000 H1 H2 H3) as (r & Hr & Ht & Hret & _).
  exists r. split; [exact Hr|]. split; [exact Ht | exact Hret].
Defined.

(** ** Backtest of one agent *)

Section Agent.

Variable tanh : Q -> Q.
Variable sqrt : Q -> Q.
Variable TOP_15 : list string.
Variable SYMBOL_LABEL : gmap string string.

Lemma backtestAgent_Some (agent : AgentGenome) (priceHistory : gmap string (list OHLCVBar))
    (r : BacktestResult) :
  backtestAgent tanh sqrt TOP_15 SYMBOL_LABEL agent priceHistory = Some r ->
  let sym := propKey (assetSymbol TOP_15 (assetIdx (genome agent))) in
  exists allBars r0,
    priceHistory !! sym = Some allBars /\ (50 <= length allBars)%nat /\
    runBacktest tanh sqrt TOP_15 SYMBOL_LABEL
      (drop (length allBars - BACKTEST_BARS) allBars)
      (fastMA (genome agent)) (slowMA (genome agent)) (riskAversion (genome agent))
      defaultCapital = Some r0 /\
    totalReturn r = totalReturn r0 /\ sharpe r = sharpe r0 /\
    maxDrawdown r = maxDrawdown r0 /\ winRate r = winRate r0 /\
    trades r = trades r0 /\ fitness r = fitness r0 /\
    equityCurve r = equityCurve r0 /\ tradeSignals r = tradeSignals r0 /\
    fastPeriod r = fastPeriod r0 /\ slowPeriod r = slowPeriod r0 /\
    asset r = default sym (SYMBOL_LABEL !! sym).
Proof.
  unfold backtestAgent. cbv zeta.
  destruct (priceHistory !! _) as [allBars|] eqn:E; [|discriminate].
  destruct (Nat.ltb_spec (length allBars) 50) as [|Hlen]; [discriminate|].
  destruct (runBacktest _ _ _ _ _ _ _ _ _) as [r0|] eqn:Er; [|discriminate].
  intros H. injection H as <-. exists allBars, r0. cbn. repeat split; first [assumption | reflexivity].
Qed.

(** X15: backtestAgent returns a result exactly when the price history holds
    at least 50 bars for the agent's symbol; the asset of the result is the
    label of the symbol (the symbol itself when it has no label, and the same
    as assetLabel when it has one), its fast period is below its slow period,
    and its equity curve has min(number of bars, 730) points. *)
Theorem backtestAgent_defined_iff (agent : AgentGenome)
    (priceHistory : gmap string (list OHLCVBar)) :
  let sym := propKey (assetSymbol TOP_15 (assetIdx (genome agent))) in
  (is_Some (backtestAgent tanh sqrt TOP_15 SYMBOL_LABEL agent priceHistory) <->
   exists allBars, priceHistory !! sym = Some allBars /\ (50 <= length allBars)%nat) /\
  (forall r, backtestAgent tanh sqrt TOP_15 SYMBOL_LABEL agent priceHistory = Some r ->
     asset r = default sym (SYMBOL_LABEL !! sym) /\
     (is_Some (SYMBOL_LABEL !! sym) ->
      asset r = assetLabel TOP_15 SYMBOL_LABEL (assetIdx (genome agent))) /\
     (fastPeriod r < slowPeriod r)%Z /\
     exists allBars, priceHistory !! sym = Some allBars /\
       length (equityCurve r) = Nat.min (length allBars) BACKTEST_BARS).
Proof.
  intros sym. split; [split|].
  - intros [r Hr]. destruct (backtestAgent_Some _ _ _ Hr) as (allBars & _ & E & Hlen & _).
    exists allBars. split; assumption.
  - intros (allBars & E & Hlen). unfold backtestAgent. fold sym. rewrite E.
    destruct (Nat.ltb_spec (length allBars) 50) as [|_]; [lia|].
    destruct (runBacktest_total tanh sqrt TOP_15 SYMBOL_LABEL
                (drop (length allBars - BACKTEST_BARS) allBars)
                (fastMA (genome agent)) (slowMA (genome agent))
                (riskAversion (genome agent)) defaultCapital) as [r0 ->].
    { rewrite length_drop. unfold BACKTEST_BARS. lia. }
    eexists. reflexivity.
  - intros r Hr.
    destruct (backtestAgent_Some _ _ _ Hr)
      as (allBars & r0 & E & Hlen & Hr0 & _ & _ & _ & _ & _ & _ & Hc & _ & Hf & Hs & Ha).
    split; [exact Ha|]. split.
    { intros [lbl Hl]. rewrite Ha. unfold assetLabel. fold sym. rewrite Hl. reflexivity. }
    split.
    + destruct (runBacktest_fields _ _ _ _ _ _ _ _ _ _ Hr0) as (_ & _ & F & S).
      rewrite Hf, Hs, F, S. apply simPeriods_bounds.
    + exists allBars. split; [exact E|].
      assert (L := equityCurve_length _ _ _ _ _ _ _ _ _ _ Hr0).
      rewrite Hc, L, length_drop. lia.
Qed.

(** X16: backtestAgent uses only the last 730 bars: two price histories whose
    series for the agent's symbol end with the same 730 bars give the same
    result. *)
Theorem backtestAgent_lookback_window (agent : AgentGenome)
    (history1 history2 : gmap string (list OHLCVBar)) (old1 old2 recent : list OHLCVBar) :
  let sym := propKey (assetSymbol TOP_15 (assetIdx (genome agent))) in
  history1 !! sym = Some (old1 ++ recent) ->
  history2 !! sym = Some (old2 ++ recent) ->
  length recent = BACKTEST_BARS ->
  backtestAgent tanh sqrt TOP_15 SYMBOL_LABEL agent history1
  = backtestAgent tanh sqrt TOP_15 SYMBOL_LABEL agent history2.
Proof.
  intros sym H1 H2 Hlen. unfold backtestAgent. fold sym. rewrite H1, H2.
  assert (Hd : forall old, drop (length (old ++ recent) - BACKTEST_BARS) (old ++ recent) = recent).
  { intros old. rewrite length_app, Hlen.
    replace (length old + BACKTEST_BARS - BACKTEST_BARS)%nat with (length old) by lia.
    apply drop_app_length. }
  assert (Hl : forall old, (length (old ++ recent) <? 50)%nat = false).
  { intros old. apply Nat.ltb_ge. rewrite length_app, Hlen. unfold BACKTEST_BARS. lia. }
  rewrite !Hd, !Hl. reflexivity.
Qed.

End Agent.

Lemma backtestAgent_lookback_window_witness :
  historyA !! propKey (assetSymbol sampleSymbols (assetIdx (genome (sampleAgent 0))))
    = Some (spikeBars ++ recentBars) /\
  historyB !! propKey (assetSymbol sampleSymbols (assetIdx (genome (sampleAgent 0))))
    = Some ((fallBars ++ jumpBars) ++ recentBars) /\
  length recentBars = BACKTEST_BARS /\
  backtestAgent tanhQ sqrtQ sampleSymbols sampleLabels (sampleAgent 0) historyA
  = backtestAgent tanhQ sqrtQ sampleSymbols sampleLabels (sampleAgent 0) historyB.
Proof.
  assert (H1 : historyA !! propKey (assetSymbol sampleSymbols (assetIdx (genome (sampleAgent 0))))
               = Some (spikeBars ++ recentBars)) by (vm_compute; reflexivity).
  assert (H2 : historyB !! propKey (assetSymbol sampleSymbols (assetIdx (genome (sampleAgent 0))))
               = Some ((fallBars ++ jumpBars) ++ recentBars)) by (vm_compute; reflexivity).
  assert (H3 : length recentBars = BACKTEST_BARS) by (vm_compute; reflexivity).
  split; [exact H1|]. split; [exact H2|]. split; [exact H3|].
  exact (backtestAgent_lookback_window tanhQ sqrtQ sampleSymbols sampleLabels (sampleAgent 0)
           historyA historyB _ _ _ H1 H2 H3).
Defined.

(** ** Scoring a population *)

Section Scoring.

Variable tanh : Q -> Q.
Variable sqrt : Q -> Q.
Variable TOP_15 : list string.
Variable SYMBOL_LABEL : gmap string string.
Variable priceHistory : gmap string (list OHLCVBar).

Lemma backtestAgent_genome (a b : AgentGenome) :
  genome a = genome b ->
  backtestAgent tanh sqrt TOP_15 SYMBOL_LABEL a priceHistory
  = backtestAgent tanh sqrt TOP_15 SYMBOL_LABEL b priceHistory.
Proof. intros H. unfold backtestAgent. rewrite H. reflexivity. Qed.

(** Entry [i] of the scored list is agent [i], with the metrics of its own
    backtest when there is one. *)
Lemma scoreAll_lookup (agents : list AgentGenome) (acc : gmap string BacktestResult)
    (i : nat) (b : AgentGenome) :
  fst (scoreAll tanh sqrt TOP_15 SYMBOL_LABEL priceHistory agents acc) !! i = Some b ->
  exists a, agents !! i = Some a /\
    match backtestAgent tanh sqrt TOP_15 SYMBOL_LABEL a priceHistory with
    | Some r => b = withMetrics r a
    | None => b = a
    end.
Proof.
  revert acc i. induction agents as [|agent rest IH]; intros acc i; [discriminate|].
  cbn [scoreAll].
  destruct (backtestAgent tanh sqrt TOP_15 SYMBOL_LABEL agent priceHistory) as [r|] eqn:E.
  - specialize (IH (<[ag_id agent := r]> acc)).
    destruct (scoreAll _ _ _ _ _ rest _) as [rest' res']. cbn [fst] in *.
    destruct i as [|i]; cbn.
    + intros H. injection H as <-. exists agent. rewrite E. split; reflexivity.
    + apply IH.
  - specialize (IH acc).
    destruct (scoreAll _ _ _ _ _ rest _) as [rest' res']. cbn [fst] in *.
    destruct i as [|i]; cbn.
    + intros H. injection H as <-. exists agent. rewrite E. split; reflexivity.
    + apply IH.
Qed.

(** X17: Re-backtesting a population (on load, on a price refresh and at the
    start of a cycle) keeps every genome, gives each agent that has a result
    the fitness, trade count, Sharpe and win rate of its own backtest, leaves
    an agent without a result as it was, and is idempotent: scoring the scored
    population again changes nothing. *)
Theorem rescoring_is_idempotent (agents : list AgentGenome)
    (acc : gmap string BacktestResult) :
  let score := scoreAll tanh sqrt TOP_15 SYMBOL_LABEL priceHistory in
  score (fst (score agents acc)) acc = score agents acc /\
  map genome (fst (score agents acc)) = map genome agents /\
  (forall a r, a ∈ fst (score agents acc) ->
     backtestAgent tanh sqrt TOP_15 SYMBOL_LABEL a priceHistory = Some r ->
     ag_fitness a = fitness r /\ ag_trades a = trades r /\
     ag_sharpe a = toFixed 2 (sharpe r) /\ ag_winRate a = toFixed 1 (winRate r)) /\
  (forall a, a ∈ fst (score agents acc) ->
     backtestAgent tanh sqrt TOP_15 SYMBOL_LABEL a priceHistory = None -> a ∈ agents).
Proof.
  cbv zeta. split; [|split; [|split]].
  - revert acc. induction agents as [|agent rest IH]; intros acc; [reflexivity|].
    cbn [scoreAll].
    destruct (backtestAgent tanh sqrt TOP_15 SYMBOL_LABEL agent priceHistory) as [r|] eqn:E.
    + specialize (IH (<[ag_id agent := r]> acc)).
      destruct (scoreAll _ _ _ _ _ rest _) as [rest' res']. cbn [fst] in *.
      cbn [scoreAll].
      rewrite (backtestAgent_genome (withMetrics r agent) agent eq_refl), E.
      change (ag_id (withMetrics r agent)) with (ag_id agent). rewrite IH. reflexivity.
    + specialize (IH acc).
      destruct (scoreAll _ _ _ _ _ rest _) as [rest' res']. cbn [fst] in *.
      cbn [scoreAll]. rewrite E, IH. reflexivity.
  - apply list_eq. intros i. rewrite !map_lookup.
    destruct (fst (scoreAll tanh sqrt TOP_15 SYMBOL_LABEL priceHistory agents acc) !! i)
      as [b|] eqn:Eb.
    + destruct (scoreAll_lookup _ _ _ _ Eb) as (a & -> & Hb). cbn.
      destruct (backtestAgent _ _ _ _ a _); subst b; reflexivity.
    + apply lookup_ge_None in Eb.
      assert (Hl : length (fst (scoreAll tanh sqrt TOP_15 SYMBOL_LABEL priceHistory agents acc))
                   = length agents).
      { pose proof (scoreAll_ids_statuses tanh sqrt TOP_15 SYMBOL_LABEL priceHistory agents acc)
          as [Hid _].
        apply (f_equal length) in Hid. rewrite !length_map in Hid. exact Hid. }
      rewrite lookup_ge_None_2 by lia. reflexivity.
  - intros a r Hin Hr. apply list_elem_of_lookup in Hin as [i Hi].
    destruct (scoreAll_lookup _ _ _ _ Hi) as (a0 & _ & Hb).
    destruct (backtestAgent _ _ _ _ a0 _) as [r0|] eqn:E0; subst a.
    + rewrite (backtestAgent_genome (withMetrics r0 a0) a0 eq_refl), E0 in Hr.
      injection Hr as <-. repeat split; reflexivity.
    + congruence.
  - intros a Hin Hr. apply list_elem_of_lookup in Hin as [i Hi].
    destruct (scoreAll_lookup _ _ _ _ Hi) as (a0 & Ha0 & Hb).
    destruct (backtestAgent _ _ _ _ a0 _) as [r0|] eqn:E0; subst a.
    + rewrite (backtestAgent_genome (withMetrics r0 a0) a0 eq_refl), E0 in Hr. discriminate.
    + eapply list_elem_of_lookup_2, Ha0.
Qed.

End Scoring.

(** ** Selection order *)

Lemma insertDesc_sorted {A} (key : A -> Q) (x : A) (l : list A) :
  StronglySorted (fun a b => key b <= key a) l ->
  StronglySorted (fun a b => key b <= key a) (insertDesc key x l).
Proof.
  induction 1 as [|y l Hs IH Hall]; cbn.
  - constructor; constructor.
  - destruct (Qle_bool (key y) (key x)) eqn:E.
    + apply Qle_bool_iff in E. constructor; [constructor; assumption|].
      constructor; [exact E|].
      eapply Forall_impl; [exact Hall|]. intros z Hz. cbn in Hz. lra.
    + apply Qle_bool_false in E. constructor; [exact IH|].
      rewrite (insertDesc_Permutation key x l). constructor; [lra | exact Hall].
Qed.

Lemma sortDesc_sorted {A} (key : A -> Q) (l : list A) :
  StronglySorted (fun a b => key b <= key a) (sortDesc key l).
Proof.
  induction l as [|x l IH]; cbn; [constructor|].
  apply insertDesc_sorted. exact IH.
Qed.

Lemma StronglySorted_lookup_lt {A} (R : A -> A -> Prop) (l : list A) (i j : nat) (a b : A) :
  StronglySorted R l -> (i < j)%nat -> l !! i = Some a -> l !! j = Some b -> R a b.
Proof.
  intros Hs. revert i j. induction Hs as [|x l Hs IH Hall]; intros i j Hij Ha Hb; [discriminate|].
  destruct j as [|j]; [lia|]. cbn in Hb.
  destruct i as [|i]; cbn in Ha.
  - injection Ha as <-. rewrite Forall_lookup in Hall. exact (Hall j b Hb).
  - apply (IH i j); [lia | assumption | assumption].
Qed.

(** X18: The selection sort of runGeneration returns a permutation of its
    input in non-increasing order of the sort key. *)
Theorem sortDesc_orders_by_descending_key {A} (key : A -> Q) (l : list A) :
  sortDesc key l ≡ₚ l /\
  forall i j a b, (i < j)%nat ->
    sortDesc key l !! i = Some a -> sortDesc key l !! j = Some b -> key b <= key a.
Proof.
  split; [apply sortDesc_Permutation|].
  intros i j a b Hij Ha Hb.
  exact (StronglySorted_lookup_lt _ _ i j a b (sortDesc_sorted key l) Hij Ha Hb).
Qed.

(** ** Agent identifiers *)

Lemma digitOf_pretty_N_char (n : N) :
  (n < 10)%N -> digitOf (pretty_N_char n) = Some (Z.of_N n).
Proof.
  intros H. destruct n as [|p]; [reflexivity|].
  do 4 (try (destruct p as [p|p|]; try reflexivity; try lia)).
Qed.

(** Reading the decimal digits of a positive [x] appends them to the value
    read so far. *)
Lemma readDigits_pretty_N_go (x : N) :
  (0 < x)%N ->
  exists p : Z, forall acc s,
    readDigits acc (pretty_N_go x s)
    = readDigits (Some (from_option (fun a => a * p + Z.of_N x) (Z.of_N x) acc)%Z) s.
Proof.
  induction (N.lt_wf_0 x) as [x _ IH]. intros Hx.
  assert (Hd := digitOf_pretty_N_char (x `mod` 10)%N ltac:(apply N.mod_lt; lia)).
  assert (Hdm : (Z.of_N x = Z.of_N (x `div` 10) * 10 + Z.of_N (x `mod` 10))%Z).
  { rewrite (N.div_mod x 10) at 1 by lia. lia. }
  destruct (N.eq_dec (x `div` 10)%N 0%N) as [Hz|Hnz].
  - exists 10%Z. intros acc s. rewrite pretty_N_go_step by exact Hx.
    rewrite Hz, pretty_N_go_0. cbn [readDigits]. rewrite Hd.
    rewrite Hz in Hdm. change (Z.of_N 0) with 0%Z in Hdm.
    destruct acc; cbn [from_option]; do 2 f_equal; rewrite Hdm; ring.
  - destruct (IH (x `div` 10)%N) as [p Hp]; [apply N.div_lt; lia | apply N.neq_0_lt_0, Hnz |].
    exists (p * 10)%Z. intros acc s. rewrite pretty_N_go_step by exact Hx.
    rewrite Hp. cbn [readDigits]. rewrite Hd.
    destruct acc; cbn [from_option]; do 2 f_equal; rewrite Hdm; ring.
Qed.

Lemma readDigits_pretty_Z (z : Z) (acc : option Z) :
  (0 < z)%Z -> acc = None \/ acc = Some 0%Z -> readDigits acc (pretty z) = Some z.
Proof.
  intros Hz Hacc. destruct z as [|q|q]; try lia.
  change (pretty (Z.pos q)) with (pretty_N_go (N.pos q) "").
  destruct (readDigits_pretty_N_go (N.pos q) ltac:(lia)) as [p Hp].
  rewrite Hp. cbn [readDigits]. destruct Hacc as [->| ->]; cbn; f_equal; lia.
Qed.

Lemma readDigits_padStart0 (fuel width : nat) (t : string) (v : Z) :
  (forall acc, acc = None \/ acc = Some 0%Z -> readDigits acc t = Some v) ->
  forall acc, acc = None \/ acc = Some 0%Z ->
    readDigits acc (padStart0 fuel width t) = Some v.
Proof.
  revert t. induction fuel as [|fuel IH]; intros t Ht acc Hacc; cbn [padStart0].
  - apply Ht, Hacc.
  - destruct (String.length t <? width)%nat; [|apply Ht, Hacc].
    apply IH; [|exact Hacc].
    intros acc' Hacc'. cbn [readDigits].
    change (digitOf "0"%char) with (Some 0%Z).
    apply Ht. right. destruct Hacc' as [->| ->]; reflexivity.
Qed.

Lemma digit_is_no_space_or_sign (c : ascii) (d : Z) :
  digitOf c = Some d ->
  isSpace c = false /\ Ascii.eqb c "-"%char = false /\ Ascii.eqb c "+"%char = false.
Proof.
  destruct c as [[] [] [] [] [] [] [] []]; vm_compute; intros H;
    first [discriminate H | repeat split].
Qed.

(** A string that starts with a digit is parsed by reading its digits. *)
Lemma parseInt10_digits (t : string) (v : Z) :
  readDigits None t = Some v -> parseInt10 t = Some v.
Proof.
  destruct t as [|c t]; [discriminate|]. intros H.
  cbn [readDigits] in H. destruct (digitOf c) as [d|] eqn:Ed; [|discriminate].
  destruct (digit_is_no_space_or_sign c d Ed) as (H1 & H2 & H3).
  unfold parseInt10. cbn [skipSpaces]. rewrite H1, H2, H3.
  cbn [readDigits]. rewrite Ed. exact H.
Qed.

Lemma substring_full (t : string) : String.substring 0 (String.length t) t = t.
Proof. induction t as [|c t IH]; [reflexivity|]. cbn. rewrite IH. reflexivity. Qed.

Lemma removeFirst_prefix (t : string) :
  removeFirst "AGT-" (String.append "AGT-" t) = t.
Proof.
  unfold removeFirst.
  change (String.append "AGT-" t) with (String "A" (String "G" (String "T" (String "-" t)))).
  assert (Hidx : String.index 0 "AGT-" (String "A" (String "G" (String "T" (String "-" t))))
                 = Some 0%nat) by (cbn; destruct t; reflexivity).
  rewrite Hidx. cbn. rewrite Nat.sub_0_r, substring_full. reflexivity.
Qed.

Lemma agentId_parses (n : Z) :
  (0 < n)%Z -> parseInt10 (removeFirst "AGT-" (agentId n)) = Some n.
Proof.
  intros Hn. unfold agentId. rewrite removeFirst_prefix.
  apply parseInt10_digits. apply readDigits_padStart0; [|left; reflexivity].
  intros acc Hacc. apply readDigits_pretty_Z; [exact Hn | exact Hacc].
Qed.

Lemma freshId_parses (m : Z) (i : nat) :
  (0 <= m)%Z ->
  parseInt10 (removeFirst "AGT-" (freshId m i)) = Some (m + Z.of_nat i + 1)%Z.
Proof. intros Hm. unfold freshId. apply agentId_parses. lia. Qed.

Lemma freshId_inj (m : Z) (i j : nat) :
  (0 <= m)%Z -> freshId m i = freshId m j -> i = j.
Proof.
  intros Hm E. apply (f_equal (fun s => parseInt10 (removeFirst "AGT-" s))) in E.
  rewrite !freshId_parses in E by exact Hm. injection E. lia.
Qed.

(** Up to [2^53] an integer is its own [number]. *)
Lemma toDouble_exact (z : Z) : (Z.abs z <= 2 ^ 53)%Z -> toDouble z = z.
Proof.
  intros H. unfold toDouble.
  destruct (Z.leb_spec (Z.abs z) (2 ^ 53)) as [_|Hgt]; [reflexivity|].
  exfalso. apply (Z.lt_irrefl (2 ^ 53)). eapply Z.lt_le_trans; eassumption.
Qed.

(** Below [2^53] the two additions behind an offspring identifier are
    exact. *)
Lemma offspringId_exact (m : Z) (i : nat) :
  (0 <= m)%Z -> (m + Z.of_nat i + 1 <= 2 ^ 53)%Z ->
  offspringId m i = freshId m i.
Proof.
  intros Hm Hb. unfold offspringId, freshId, numAdd.
  set (B := (2 ^ 53)%Z) in *.
  rewrite (toDouble_exact (m + Z.of_nat i)) by (fold B; lia).
  rewrite (toDouble_exact (m + Z.of_nat i + 1)) by (fold B; lia).
  reflexivity.
Qed.

Lemma maxIdOf_bounds (agents : list AgentGenome) :
  (0 <= maxIdOf agents)%Z /\
  forall a, a ∈ agents ->
    (default 0 (toDouble <$> parseInt10 (removeFirst "AGT-" (ag_id a)))
     <= maxIdOf agents)%Z.
Proof.
  unfold maxIdOf. induction agents as [|b l [IH0 IH]]; cbn.
  - split; [lia|]. intros a Ha. inversion Ha.
  - split; [lia|]. intros a Ha. apply elem_of_cons in Ha as [->|Ha]; [lia|].
    specialize (IH a Ha). lia.
Qed.

Lemma offspringId_not_used (agents : list AgentGenome) (i : nat) :
  (maxIdOf agents + Z.of_nat i + 1 <= 2 ^ 53)%Z ->
  offspringId (maxIdOf agents) i ∉ map ag_id agents.
Proof.
  intros Hb. destruct (maxIdOf_bounds agents) as [H0 Hmax].
  rewrite (offspringId_exact _ _ H0 Hb).
  intros Hin. apply list_elem_of_fmap in Hin as (a & Hid & Ha).
  specialize (Hmax a Ha). rewrite <- Hid, freshId_parses in Hmax by exact H0.
  cbn [fmap option_fmap option_map default] in Hmax.
  set (B := (2 ^ 53)%Z) in *.
  rewrite toDouble_exact in Hmax by (fold B; lia). unfold id in Hmax. lia.
Qed.

Lemma offspringId_inj (m : Z) (i j : nat) :
  (0 <= m)%Z ->
  (m + Z.of_nat i + 1 <= 2 ^ 53)%Z -> (m + Z.of_nat j + 1 <= 2 ^ 53)%Z ->
  offspringId m i = offspringId m j -> i = j.
Proof.
  intros Hm Hi Hj. rewrite !offspringId_exact by assumption.
  apply freshId_inj, Hm.
Qed.

(** X19: While the agent numbers stay within 2^53, the range in which a
    JavaScript number holds integers exactly (maxId + i + 1 <= 2^53), the
    identifier built for offspring i parses back (after AGT- is removed) to
    maxId + i + 1, is not the id of any existing agent, and differs from the
    identifier built for every other offspring index in that range. Beyond the
    bound this fails: above an agent numbered 2^53 the sum is rounded and that
    agent's id is issued again (offspringId_reused_at_2_53). *)
Theorem offspringId_round_trip (agents : list AgentGenome) (i j : nat) :
  let maxId := maxIdOf agents in
  (maxId + Z.of_nat i + 1 <= 2 ^ 53)%Z ->
  (maxId + Z.of_nat j + 1 <= 2 ^ 53)%Z ->
  parseInt10 (removeFirst "AGT-" (offspringId maxId i))
  = Some (maxId + Z.of_nat i + 1)%Z /\
  (offspringId maxId i ∉ map ag_id agents) /\
  (offspringId maxId i = offspringId maxId j -> i = j).
Proof.
  intros maxId Hi Hj. destruct (maxIdOf_bounds agents) as [H0 _]. fold maxId in H0.
  split.
  - rewrite (offspringId_exact maxId i H0 Hi). apply freshId_parses, H0.
  - split; [apply offspringId_not_used, Hi|].
    intros E. exact (offspringId_inj maxId i j H0 Hi Hj E).
Qed.

Lemma offspringId_round_trip_witness :
  (maxIdOf samplePopulation + Z.of_nat 0 + 1 <= 2 ^ 53)%Z /\
  (maxIdOf samplePopulation + Z.of_nat 1 + 1 <= 2 ^ 53)%Z /\
  offspringId (maxIdOf samplePopulation) 0 ∉ map ag_id samplePopulation.
Proof.
  assert (H0 : (maxIdOf samplePopulation + Z.of_nat 0 + 1 <= 2 ^ 53)%Z)
    by (vm_compute; discriminate).
  assert (H1 : (maxIdOf samplePopulation + Z.of_nat 1 + 1 <= 2 ^ 53)%Z)
    by (vm_compute; discriminate).
  split; [exact H0|]. split; [exact H1|].
  exact (proj1 (proj2 (offspringId_round_trip samplePopulation 0 1 H0 H1))).
Defined.

(** The bound of 2^53 is needed: above an agent numbered 2^53 the sum
    [maxId + 0 + 1] is rounded back to 2^53 and the first offspring is given
    the identifier of that agent. *)
Lemma offspringId_reused_at_2_53 :
  maxIdOf [lateAgent] = (2 ^ 53)%Z /\
  offspringId (maxIdOf [lateAgent]) 0 = ag_id lateAgent.
Proof. split; vm_compute; reflexivity. Qed.

(** ** What a completed generation cycle leaves *)

Section Generation.

Variable tanh : Q -> Q.
Variable sqrt : Q -> Q.
Variable TOP_15 : list string.
Variable SYMBOL_LABEL : gmap string string.
Variable rnd : nat -> Q.
Variable priceHistory : gmap string (list OHLCVBar).

(** The intermediate values of a cycle that completes. *)
Lemma runGeneration_inv (agents : list AgentGenome) (currentGen : Z) (s : GenSummary) :
  runGeneration tanh sqrt TOP_15 SYMBOL_LABEL rnd agents priceHistory currentGen
    = GenerationComplete s ->
  let scored := scoreAll tanh sqrt TOP_15 SYMBOL_LABEL priceHistory
                  (filter (fun a => alive a = true) agents) ∅ in
  let sorted := sortDesc (nicheSelectFitness (fst scored) (snd scored)) (fst scored) in
  let cullCount := cullCountOf (length sorted) in
  let bottom := sliceLast cullCount sorted in
  let topBreed := take (Z.to_nat (breedCountOf (length sorted))) sorted in
  size priceHistory <> 0%nat /\
  exists raw k',
    breedFrom rnd topBreed (maxIdOf agents) currentGen (Z.to_nat cullCount) 0 0
      = Some (raw, k') /\
    gs_culled s = bottom /\
    gs_cullCount s = cullCount /\
    gs_generation s = (currentGen + 1)%Z /\
    gs_born s = fst (scoreAll tanh sqrt TOP_15 SYMBOL_LABEL priceHistory raw (snd scored)) /\
    gs_results s = snd (scoreAll tanh sqrt TOP_15 SYMBOL_LABEL priceHistory raw (snd scored)) /\
    gs_agents s
    = map (survive (list_to_set (map ag_id bottom)) (fst scored)) agents ++ gs_born s.
Proof.
  unfold runGeneration. cbv zeta.
  destruct (Nat.eqb_spec (size priceHistory) 0) as [|Hsz]; [discriminate|].
  destruct (scoreAll tanh sqrt TOP_15 SYMBOL_LABEL priceHistory
              (filter (fun a => alive a = true) agents) ∅) as [backtested newResults].
  cbn [fst snd].
  destruct (breedFrom _ _ _ _ _ _ _) as [[raw k']|]; [|discriminate].
  destruct (scoreAll tanh sqrt TOP_15 SYMBOL_LABEL priceHistory raw newResults)
    as [offspring newResults'] eqn:Eoff.
  intros H. injection H as <-. cbn.
  split; [exact Hsz|]. exists raw, k'. rewrite Eoff. repeat split; reflexivity.
Qed.

Lemma sliceLast_split {A} (k : Z) (l : list A) :
  l = take (length l - Z.to_nat k) l ++ sliceLast k l.
Proof. unfold sliceLast. symmetry. apply take_drop. Qed.

(** X20: In a completed cycle the scored agents split into the kept and the
    culled ones, every culled agent has a selection fitness no higher than
    that of every kept agent, and the culled list is in non-increasing order
    of selection fitness. *)
Theorem culled_have_lowest_selection_fitness (agents : list AgentGenome) (currentGen : Z)
    (s : GenSummary) :
  runGeneration tanh sqrt TOP_15 SYMBOL_LABEL rnd agents priceHistory currentGen
    = GenerationComplete s ->
  let scored := scoreAll tanh sqrt TOP_15 SYMBOL_LABEL priceHistory
                  (filter (fun a => alive a = true) agents) ∅ in
  let selectFitness := nicheSelectFitness (fst scored) (snd scored) in
  exists kept,
    fst scored ≡ₚ kept ++ gs_culled s /\
    (forall a c, a ∈ kept -> c ∈ gs_culled s -> selectFitness c <= selectFitness a) /\
    (forall i j c1 c2, (i < j)%nat -> gs_culled s !! i = Some c1 -> gs_culled s !! j = Some c2 ->
       selectFitness c2 <= selectFitness c1).
Proof.
  intros H scored selectFitness.
  destruct (runGeneration_inv agents currentGen s H) as (_ & raw & k' & _ & Hc & _).
  fold scored in Hc. fold selectFitness in Hc.
  set (sorted := sortDesc selectFitness (fst scored)) in *.
  set (k := cullCountOf (length sorted)) in *.
  assert (Hperm : sorted ≡ₚ fst scored) by apply sortDesc_Permutation.
  assert (Hord : forall i j a b, (i < j)%nat ->
            sorted !! i = Some a -> sorted !! j = Some b ->
            selectFitness b <= selectFitness a).
  { intros i j a b Hij Ha Hb.
    exact (StronglySorted_lookup_lt _ _ i j a b
             (sortDesc_sorted selectFitness (fst scored)) Hij Ha Hb). }
  exists (take (length sorted - Z.to_nat k) sorted).
  rewrite Hc. split; [|split].
  - rewrite <- Hperm at 1. rewrite <- (sliceLast_split k sorted). reflexivity.
  - intros a c Ha Hcin.
    apply list_elem_of_lookup in Ha as [i Hi]. apply list_elem_of_lookup in Hcin as [j Hj].
    assert (Hil : (i < length sorted - Z.to_nat k)%nat).
    { apply lookup_lt_Some in Hi. rewrite length_take in Hi. lia. }
    rewrite lookup_take_lt in Hi by exact Hil.
    unfold sliceLast in Hj. rewrite lookup_drop in Hj.
    apply (Hord i (length sorted - Z.to_nat k + j)%nat a c); [lia | exact Hi | exact Hj].
  - intros i j c1 c2 Hij H1 H2. unfold sliceLast in H1, H2. rewrite lookup_drop in H1, H2.
    apply (Hord (length sorted - Z.to_nat k + i)%nat (length sorted - Z.to_nat k + j)%nat);
      [lia | exact H1 | exact H2].
Qed.

End Generation.

(** ** Offspring and survivors *)

Lemma crossoverMutate_unit (rnd : nat -> Q) (p1 p2 : SMAGenome) (k : nat) :
  let child := fst (crossoverMutate rnd p1 p2 k) in
  0 <= fastMA child <= 1 /\ 0 <= slowMA child <= 1 /\
  0 <= riskAversion child <= 1 /\ 0 <= assetIdx child <= 1.
Proof.
  unfold crossoverMutate, blend. cbn. repeat split; apply clamp01_range.
Qed.

Lemma pick_elem {A} (rnd : nat -> Q) (arr : list A) (k : nat) (x : A) :
  pick rnd arr k = Some x -> x ∈ arr.
Proof.
  unfold pick. destruct (_ <? 0)%Z; [discriminate|].
  apply list_elem_of_lookup_2.
Qed.

Lemma breedOne_spec (rnd : nat -> Q) (pool : list AgentGenome) (maxId gen : Z)
    (i k : nat) (child : AgentGenome) (k' : nat) :
  breedOne rnd pool maxId gen i k = Some (child, k') ->
  ag_id child = offspringId maxId i /\ bredFrom pool gen child.
Proof.
  unfold breedOne.
  destruct (pick rnd pool k) as [p1|] eqn:E1; [|discriminate].
  destruct (pick rnd pool (S k)) as [p2|] eqn:E2; [|discriminate].
  assert (Hu := crossoverMutate_unit rnd (genome p1) (genome p2) (S (S k))).
  destruct (crossoverMutate rnd (genome p1) (genome p2) (S (S k))) as [g k1].
  cbn [fst] in Hu. intros H. injection H as <- _.
  split; [reflexivity|]. unfold bredFrom. cbn.
  repeat split; try apply Hu.
  exists p1, p2. repeat split; eauto using pick_elem.
Qed.

Lemma breedFrom_spec (rnd : nat -> Q) (pool : list AgentGenome) (maxId gen : Z)
    (count i k : nat) (children : list AgentGenome) (k' : nat) :
  breedFrom rnd pool maxId gen count i k = Some (children, k') ->
  length children = count /\
  forall n child, children !! n = Some child ->
    ag_id child = offspringId maxId (i + n) /\ bredFrom pool gen child.
Proof.
  revert i k children k'. induction count as [|count IH]; intros i k children k'; cbn.
  - intros H. injection H as <- _. split; [reflexivity|]. intros n child Hn. discriminate.
  - destruct (breedOne rnd pool maxId gen i k) as [[child k1]|] eqn:E1; [|discriminate].
    destruct (breedFrom rnd pool maxId gen count (S i) k1) as [[rest k2]|] eqn:E2;
      [|discriminate].
    intros H. injection H as <- _.
    destruct (IH _ _ _ _ E2) as [Hlen Hrest].
    split; [cbn; lia|].
    intros n c Hn. destruct n as [|n]; cbn in Hn.
    + injection Hn as <-. rewrite Nat.add_0_r. exact (breedOne_spec _ _ _ _ _ _ _ _ E1).
    + replace (i + S n)%nat with (S i + n)%nat by lia. exact (Hrest n c Hn).
Qed.

Section Offspring.

Variable tanh : Q -> Q.
Variable sqrt : Q -> Q.
Variable TOP_15 : list string.
Variable SYMBOL_LABEL : gmap string string.
Variable rnd : nat -> Q.
Variable priceHistory : gmap string (list OHLCVBar).

Lemma born_spec (agents : list AgentGenome) (currentGen : Z) (s : GenSummary) :
  runGeneration tanh sqrt TOP_15 SYMBOL_LABEL rnd agents priceHistory currentGen
    = GenerationComplete s ->
  let scored := scoreAll tanh sqrt TOP_15 SYMBOL_LABEL priceHistory
                  (filter (fun a => alive a = true) agents) ∅ in
  let sorted := sortDesc (nicheSelectFitness (fst scored) (snd scored)) (fst scored) in
  let topBreed := take (Z.to_nat (breedCountOf (length sorted))) sorted in
  length (gs_born s) = Z.to_nat (gs_cullCount s) /\
  forall n child, gs_born s !! n = Some child ->
    ag_id child = offspringId (maxIdOf agents) n /\ bredFrom topBreed currentGen child.
Proof.
  intros H scored sorted topBreed.
  destruct (runGeneration_inv tanh sqrt TOP_15 SYMBOL_LABEL rnd priceHistory
              agents currentGen s H)
    as (_ & raw & k' & Hraw & _ & Hcc & _ & Hborn & _).
  fold scored in Hraw, Hborn, Hcc. fold sorted in Hraw, Hcc. fold topBreed in Hraw.
  destruct (breedFrom_spec _ _ _ _ _ _ _ _ _ Hraw) as [Hlen Hspec].
  rewrite Hborn, Hcc. split.
  - rewrite scoreAll_length. exact Hlen.
  - intros n child Hn.
    destruct (scoreAll_lookup _ _ _ _ _ _ _ _ _ Hn) as (c0 & Hc0 & Hc).
    destruct (Hspec n c0 Hc0) as [Hid Hb]. cbn in Hid.
    destruct (backtestAgent _ _ _ _ c0 _); subst child; split; assumption.
Qed.

(** X21: In a completed cycle, offspring n, with maxId + n + 1 <= 2^53, has
    the fresh id number maxId + n + 1, generation currentGen + 1, status
    newborn, the archetype of its own genome, all four genes in [0,1], and two
    parent ids taken from the top breeding pool. *)
Theorem offspring_come_from_breeding_pool (agents : list AgentGenome) (currentGen : Z)
    (s : GenSummary) (n : nat) (child : AgentGenome) :
  runGeneration tanh sqrt TOP_15 SYMBOL_LABEL rnd agents priceHistory currentGen
    = GenerationComplete s ->
  gs_born s !! n = Some child ->
  (maxIdOf agents + Z.of_nat n + 1 <= 2 ^ 53)%Z ->
  let scored := scoreAll tanh sqrt TOP_15 SYMBOL_LABEL priceHistory
                  (filter (fun a => alive a = true) agents) ∅ in
  let sorted := sortDesc (nicheSelectFitness (fst scored) (snd scored)) (fst scored) in
  let topBreed := take (Z.to_nat (breedCountOf (length sorted))) sorted in
  ag_id child = freshId (maxIdOf agents) n /\
  ag_generation child = (currentGen + 1)%Z /\ ag_status child = newborn /\
  ag_archetype child
    = archetypeFromGenome (fastMA (genome child)) (slowMA (genome child)) /\
  (0 <= fastMA (genome child) <= 1 /\ 0 <= slowMA (genome child) <= 1 /\
   0 <= riskAversion (genome child) <= 1 /\ 0 <= assetIdx (genome child) <= 1) /\
  exists p1 p2, p1 ∈ topBreed /\ p2 ∈ topBreed /\
    ag_parentIds child = Some [ag_id p1; ag_id p2].
Proof.
  intros H Hn Hsafe. cbv zeta.
  destruct (born_spec agents currentGen s H) as [_ Hspec].
  destruct (Hspec n child Hn) as [Hid Hb]. split; [|exact Hb].
  rewrite Hid.
  exact (offspringId_exact (maxIdOf agents) n (proj1 (maxIdOf_bounds agents)) Hsafe).
Qed.

End Offspring.

(** ** Survivors *)

Lemma withStatus_same (a : AgentGenome) : withStatus (ag_status a) a = a.
Proof. destruct a. reflexivity. Qed.

Lemma NoDup_ids_inj (l : list AgentGenome) (a b : AgentGenome) :
  NoDup (map ag_id l) -> a ∈ l -> b ∈ l -> ag_id a = ag_id b -> a = b.
Proof.
  intros Hnd Ha Hb Hid.
  apply list_elem_of_lookup in Ha as [i Hi]. apply list_elem_of_lookup in Hb as [j Hj].
  assert (Hi' : map ag_id l !! i = Some (ag_id a)) by (rewrite map_lookup, Hi; reflexivity).
  assert (Hj' : map ag_id l !! j = Some (ag_id a)) by (rewrite map_lookup, Hj, Hid; reflexivity).
  assert (i = j) by (eapply NoDup_lookup; eassumption). subst j. congruence.
Qed.

Section Survivors.

Variable tanh : Q -> Q.
Variable sqrt : Q -> Q.
Variable TOP_15 : list string.
Variable SYMBOL_LABEL : gmap string string.
Variable rnd : nat -> Q.
Variable priceHistory : gmap string (list OHLCVBar).

Lemma survive_id (cullIds : gset string) (backtested : list AgentGenome) (a : AgentGenome) :
  ag_id (survive cullIds backtested a) = ag_id a.
Proof.
  unfold survive. destruct (bool_decide _); [reflexivity|].
  destruct (list_find _ backtested) as [[j b]|] eqn:E; cbn; [|reflexivity].
  apply list_find_Some in E as (_ & Hb & _). exact Hb.
Qed.

(** The scored copy of an agent that is found under the agent's id. *)
Lemma scored_copy (agents : list AgentGenome) (a b : AgentGenome) (j : nat) :
  NoDup (map ag_id agents) -> a ∈ agents ->
  list_find (fun b => ag_id b = ag_id a)
    (fst (scoreAll tanh sqrt TOP_15 SYMBOL_LABEL priceHistory
            (filter (fun a => alive a = true) agents) ∅)) = Some (j, b) ->
  alive a = true /\
  match backtestAgent tanh sqrt TOP_15 SYMBOL_LABEL a priceHistory with
  | Some r => b = withMetrics r a
  | None => b = a
  end.
Proof.
  intros Hnd Ha E. apply list_find_Some in E as (Hj & Hid & _).
  destruct (scoreAll_lookup _ _ _ _ _ _ _ _ _ Hj) as (a0 & Ha0 & Hb).
  assert (Hin0 : a0 ∈ filter (fun a => alive a = true) agents)
    by (eapply list_elem_of_lookup_2, Ha0).
  apply list_elem_of_filter in Hin0 as [Halive Hin0].
  assert (Hid0 : ag_id a0 = ag_id a).
  { rewrite <- Hid. destruct (backtestAgent _ _ _ _ a0 _); subst b; reflexivity. }
  assert (a0 = a) by (eapply NoDup_ids_inj; eassumption). subst a0.
  split; assumption.
Qed.

(** What [survive] makes of an agent of a population with distinct ids. *)
Lemma survive_cases (agents : list AgentGenome) (cullIds : gset string) (a : AgentGenome) :
  NoDup (map ag_id agents) -> a ∈ agents ->
  let scored := scoreAll tanh sqrt TOP_15 SYMBOL_LABEL priceHistory
                  (filter (fun a => alive a = true) agents) ∅ in
  let a' := survive cullIds (fst scored) a in
  (ag_id a ∈ cullIds -> a' = withStatus extinct a) /\
  (ag_status a = extinct -> a' = a) /\
  (ag_id a ∉ cullIds -> ag_status a <> extinct ->
   a' = withStatus (match ag_status a with newborn => active | st => st end)
          (match backtestAgent tanh sqrt TOP_15 SYMBOL_LABEL a priceHistory with
           | Some r => withMetrics r a
           | None => a
           end)).
Proof.
  intros Hnd Hin scored a'. unfold a', survive.
  destruct (bool_decide_reflect (ag_id a ∈ cullIds)) as [Hc1|Hc1].
  - split; [reflexivity|]. split; [|intros; contradiction].
    intros Hx. rewrite <- Hx. apply withStatus_same.
  - split; [intros; contradiction|].
    destruct (list_find _ (fst scored)) as [[j b]|] eqn:E;
      cbn [fmap option_fmap option_map default snd].
    + destruct (scored_copy agents a b j Hnd Hin E) as [Halive Hb].
      assert (Hne : ag_status a <> extinct).
      { unfold alive in Halive. destruct (ag_status a); simpl in Halive; congruence. }
      split; [intros; contradiction|]. intros _ _.
      destruct (backtestAgent _ _ _ _ a _); subst b; reflexivity.
    + split.
      * intros Hx. rewrite Hx. rewrite <- Hx at 1. apply withStatus_same.
      * intros _ Hne. exfalso.
        apply list_find_None in E.
        assert (Ha : a ∈ filter (fun a => alive a = true) agents).
        { apply list_elem_of_filter. split; [|exact Hin].
          unfold alive. destruct (ag_status a); try reflexivity. congruence. }
        apply list_elem_of_lookup in Ha as [j Hj].
        destruct (scoreAll_ids_statuses tanh sqrt TOP_15 SYMBOL_LABEL priceHistory
                    (filter (fun a => alive a = true) agents) ∅) as [Hids _].
        fold scored in Hids.
        assert (Hj' : map ag_id (fst scored) !! j = Some (ag_id a)).
        { rewrite Hids, map_lookup, Hj. reflexivity. }
        rewrite map_lookup in Hj'.
        destruct (fst scored !! j) as [b|] eqn:Eb; [|discriminate].
        injection Hj' as Hb.
        rewrite Forall_lookup in E. exact (E j b Eb Hb).
Qed.

(** X22: In a completed cycle over agents with distinct ids, entry i of the
    next population is agent i with the same id, name, genome, generation and
    parents; it is never newborn; it is extinct exactly when it was extinct or
    was culled; an extinct agent is unchanged, a culled agent keeps its pre-
    cycle metrics, and an agent that stays alive carries the fitness and trade
    count of its fresh backtest. *)
Theorem survivors_keep_identity (agents : list AgentGenome) (currentGen : Z)
    (s : GenSummary) (i : nat) (a : AgentGenome) :
  runGeneration tanh sqrt TOP_15 SYMBOL_LABEL rnd agents priceHistory currentGen
    = GenerationComplete s ->
  NoDup (map ag_id agents) ->
  agents !! i = Some a ->
  exists a', gs_agents s !! i = Some a' /\
    ag_id a' = ag_id a /\ ag_name a' = ag_name a /\ genome a' = genome a /\
    ag_generation a' = ag_generation a /\ ag_parentIds a' = ag_parentIds a /\
    ag_status a' <> newborn /\
    (ag_status a' = extinct <->
     ag_status a = extinct \/ ag_id a ∈ map ag_id (gs_culled s)) /\
    (ag_status a = extinct -> a' = a) /\
    (ag_id a ∈ map ag_id (gs_culled s) -> a' = withStatus extinct a) /\
    (ag_status a' <> extinct ->
     forall r, backtestAgent tanh sqrt TOP_15 SYMBOL_LABEL a priceHistory = Some r ->
       ag_fitness a' = fitness r /\ ag_trades a' = trades r).
Proof.
  intros H Hnd Hi.
  destruct (runGeneration_inv tanh sqrt TOP_15 SYMBOL_LABEL rnd priceHistory
              agents currentGen s H)
    as (_ & raw & k' & _ & Hc & _ & _ & _ & _ & Hag).
  set (scored := scoreAll tanh sqrt TOP_15 SYMBOL_LABEL priceHistory
                   (filter (fun a => alive a = true) agents) ∅) in *.
  rewrite <- Hc in Hag.
  set (cullIds := (list_to_set (map ag_id (gs_culled s)) : gset string)) in *.
  assert (Hin : a ∈ agents) by (eapply list_elem_of_lookup_2, Hi).
  exists (survive cullIds (fst scored) a). split.
  { rewrite Hag. apply lookup_app_l_Some. rewrite map_lookup, Hi. reflexivity. }
  assert (Hcull : ag_id a ∈ cullIds <-> ag_id a ∈ map ag_id (gs_culled s))
    by (unfold cullIds; apply elem_of_list_to_set).
  assert (Hst := survive_status cullIds (fst scored) a).
  destruct (survive_cases agents cullIds a Hnd Hin) as (C1 & C2 & C3).
  fold scored in C1, C2, C3. cbv zeta in C1, C2, C3.
  split; [apply survive_id|].
  assert (Hfields :
    ag_name (survive cullIds (fst scored) a) = ag_name a /\
    genome (survive cullIds (fst scored) a) = genome a /\
    ag_generation (survive cullIds (fst scored) a) = ag_generation a /\
    ag_parentIds (survive cullIds (fst scored) a) = ag_parentIds a).
  { destruct (decide (ag_id a ∈ cullIds)) as [Hc1|Hc1];
      [rewrite (C1 Hc1); repeat split; reflexivity|].
    assert (Hdec : ag_status a = extinct \/ ag_status a <> extinct)
      by (destruct (ag_status a); auto; right; discriminate).
    destruct Hdec as [Hx|Hx]; [rewrite (C2 Hx); repeat split; reflexivity|].
    rewrite (C3 Hc1 Hx).
    destruct (backtestAgent _ _ _ _ a _); repeat split; reflexivity. }
  destruct Hfields as (F1 & F2 & F3 & F4).
  split; [exact F1|]. split; [exact F2|]. split; [exact F3|]. split; [exact F4|].
  split; [|split; [|split; [exact C2 | split; [intros Hx; apply C1, Hcull, Hx|]]]].
  - rewrite Hst. destruct (bool_decide _); [discriminate|]. destruct (ag_status a); discriminate.
  - rewrite Hst. destruct (bool_decide_reflect (ag_id a ∈ cullIds)) as [Hc1|Hc1].
    + split; [intros _; right; apply Hcull, Hc1 | reflexivity].
    + split.
      * intros Hx. left. destruct (ag_status a); congruence.
      * intros [Hx|Hx]; [rewrite Hx; reflexivity | exfalso; apply Hc1, Hcull, Hx].
  - intros Halive r Hr.
    assert (Hc1 : ag_id a ∉ cullIds).
    { intros Hc1. apply Halive. rewrite (C1 Hc1). reflexivity. }
    assert (Hx : ag_status a <> extinct).
    { intros Hx. apply Halive. rewrite (C2 Hx). exact Hx. }
    rewrite (C3 Hc1 Hx), Hr. split; reflexivity.
Qed.

Lemma survived_ids (cullIds : gset string) (backtested agents : list AgentGenome) :
  map ag_id (map (survive cullIds backtested) agents) = map ag_id agents.
Proof.
  induction agents as [|a l IH]; [reflexivity|]. cbn. rewrite survive_id, IH. reflexivity.
Qed.

(** X23: A completed cycle over agents with distinct ids, with maxId +
    cullCount <= 2^53, yields a population with distinct ids: the old ids in
    their order, followed by the fresh ids of the offspring. *)
Theorem generation_keeps_ids_distinct (agents : list AgentGenome) (currentGen : Z)
    (s : GenSummary) :
  runGeneration tanh sqrt TOP_15 SYMBOL_LABEL rnd agents priceHistory currentGen
    = GenerationComplete s ->
  NoDup (map ag_id agents) ->
  (maxIdOf agents + gs_cullCount s <= 2 ^ 53)%Z ->
  NoDup (map ag_id (gs_agents s)) /\
  map ag_id (gs_agents s)
  = map ag_id agents
    ++ map (freshId (maxIdOf agents)) (seq 0 (Z.to_nat (gs_cullCount s))).
Proof.
  intros H Hnd Hsafe.
  destruct (born_spec tanh sqrt TOP_15 SYMBOL_LABEL rnd priceHistory agents currentGen s H)
    as [Hlen Hspec].
  destruct (runGeneration_inv tanh sqrt TOP_15 SYMBOL_LABEL rnd priceHistory
              agents currentGen s H)
    as (_ & raw & k' & _ & _ & _ & _ & _ & _ & Hag).
  assert (H0 := proj1 (maxIdOf_bounds agents)).
  assert (Hsafe' : forall n, (n < Z.to_nat (gs_cullCount s))%nat ->
                     (maxIdOf agents + Z.of_nat n + 1 <= 2 ^ 53)%Z).
  { intros n Hn. eapply Z.le_trans; [|exact Hsafe]. lia. }
  assert (Hborn : map ag_id (gs_born s)
                  = map (freshId (maxIdOf agents)) (seq 0 (Z.to_nat (gs_cullCount s)))).
  { apply list_eq. intros n. rewrite !map_lookup.
    destruct (gs_born s !! n) as [c|] eqn:Ec.
    - destruct (Hspec n c Ec) as [Hid _]. cbn. rewrite Hid.
      assert (Hn : (n < Z.to_nat (gs_cullCount s))%nat)
        by (apply lookup_lt_Some in Ec; lia).
      rewrite lookup_seq_lt by exact Hn. cbn.
      rewrite (offspringId_exact _ n H0 (Hsafe' n Hn)). reflexivity.
    - apply lookup_ge_None in Ec. rewrite lookup_seq_ge by lia. reflexivity. }
  assert (Hids : map ag_id (gs_agents s)
                 = map ag_id agents
                   ++ map (freshId (maxIdOf agents)) (seq 0 (Z.to_nat (gs_cullCount s)))).
  { rewrite Hag, map_app, survived_ids, Hborn. reflexivity. }
  split; [|exact Hids].
  rewrite Hids. apply NoDup_app. split; [exact Hnd|]. split.
  - intros x Hx Hfresh. apply list_elem_of_fmap in Hfresh as (n & -> & Hn).
    apply elem_of_seq in Hn as [_ Hn].
    rewrite <- (offspringId_exact _ n H0 (Hsafe' n ltac:(lia))) in Hx.
    exact (offspringId_not_used agents n (Hsafe' n ltac:(lia)) Hx).
  - apply NoDup_fmap_2_strong; [|apply NoDup_seq].
    intros n m _ _ E. exact (freshId_inj _ n m H0 E).
Qed.

End Survivors.

(** ** Portfolio snapshot *)

Lemma genReturnOf_range (w : Q) : -0.50 <= genReturnOf w <= 2.00.
Proof.
  unfold genReturnOf. split; [apply Q.le_max_l|].
  apply Q.max_lub; [lra | apply Qmin_le_r].
Qed.

Lemma genReturnOf_inside (w : Q) : -0.50 <= w <= 2.00 -> genReturnOf w == w.
Proof.
  intros [H0 H1]. unfold genReturnOf.
  rewrite (Q.min_l w 2.00) by exact H1. apply Q.max_r. exact H0.
Qed.

(** X24: The portfolio snapshot of a cycle reports a capital between 50,000
    and 300,000, a pnl equal to the capital minus 100,000 and a pnl percent in
    [-50, 200], whatever the agents' returns; with no active agent the capital
    is 100,000 and the pnl 0. *)
Theorem portfolio_capital_bounded (newResults backtestResults : gmap string BacktestResult)
    (activeNext : list AgentGenome) :
  let snap := portfolioSnapshot newResults backtestResults activeNext in
  (50000 <= ps_capital snap <= 300000)%Z /\
  ps_pnl snap = (ps_capital snap - 100000)%Z /\
  -50 <= ps_pnlPercent snap <= 200 /\
  (activeNext = [] -> ps_capital snap = 100000%Z /\ ps_pnl snap = 0%Z).
Proof.
  cbv zeta. unfold portfolioSnapshot. cbn [ps_capital ps_pnl ps_pnlPercent].
  assert (Hg := genReturnOf_range (weightedReturn newResults backtestResults activeNext)).
  set (g := genReturnOf _) in *.
  split; [|split; [reflexivity|split]].
  - apply Math_round_bounds. unfold INITIAL_CAPITAL.
    change (inject_Z 50000) with 50000. change (inject_Z 300000) with 300000. lra.
  - split.
    + apply Qle_trans with (toFixed 2 (-50)); [vm_compute; discriminate|].
      apply toFixed_mono; [lia | lra].
    + apply Qle_trans with (toFixed 2 200); [|vm_compute; discriminate].
      apply toFixed_mono; [lia | lra].
  - intros ->. unfold g. split; reflexivity.
Qed.

Lemma fitnessWeight_pos (a : AgentGenome) : 0.01 <= fitnessWeight a.
Proof. unfold fitnessWeight. apply Q.le_max_r. Qed.

Lemma totalActiveFitness_sum (l : list AgentGenome) (acc : Q) :
  fold_left (fun s a => s + fitnessWeight a) l acc == acc + sumWeights l.
Proof.
  revert acc. induction l as [|a l IH]; intros acc; [cbn; lra|].
  cbn [fold_left]. rewrite IH.
  change (sumWeights (a :: l)) with (fitnessWeight a + sumWeights l). lra.
Qed.

Lemma sumWeights_pos (l : list AgentGenome) : l <> [] -> 0 < sumWeights l.
Proof.
  intros Hne. destruct l as [|a l]; [congruence|].
  change (sumWeights (a :: l)) with (fitnessWeight a + sumWeights l).
  assert (Ha := fitnessWeight_pos a).
  assert (0 <= sumWeights l).
  { clear. induction l as [|b l IH]; [cbn; lra|].
    change (sumWeights (b :: l)) with (fitnessWeight b + sumWeights l).
    assert (Hb := fitnessWeight_pos b). lra. }
  lra.
Qed.

Lemma weighted_fold_sign (ret : AgentGenome -> Q) (T : Q) (l : list AgentGenome) (acc : Q) :
  0 < T ->
  ((forall a, a ∈ l -> 0 <= ret a) -> 0 <= acc ->
   0 <= fold_left (fun s a => s + fitnessWeight a / T * (ret a / 100)) l acc) /\
  ((forall a, a ∈ l -> ret a <= 0) -> acc <= 0 ->
   fold_left (fun s a => s + fitnessWeight a / T * (ret a / 100)) l acc <= 0).
Proof.
  intros HT. revert acc. induction l as [|a l IH]; intros acc.
  - cbn. split; intros _ H; exact H.
  - assert (Hw := fitnessWeight_pos a).
    assert (Hq : 0 < fitnessWeight a / T) by (apply Qlt_shift_div_l; lra).
    assert (D : fitnessWeight a / T * (ret a / 100)
                == fitnessWeight a / T * ret a * (1 # 100)) by (field; lra).
    destruct (IH (acc + fitnessWeight a / T * (ret a / 100))) as [IHp IHn].
    cbn [fold_left]. split; intros Hall Hacc.
    + apply IHp; [intros b Hb; apply Hall; right; exact Hb|].
      assert (Ha := Hall a ltac:(left)).
      assert (P : 0 <= fitnessWeight a / T * ret a) by (apply Qmult_le_0_compat; lra).
      rewrite D. lra.
    + apply IHn; [intros b Hb; apply Hall; right; exact Hb|].
      assert (Ha := Hall a ltac:(left)).
      assert (P : 0 <= fitnessWeight a / T * (- ret a)) by (apply Qmult_le_0_compat; lra).
      rewrite D. lra.
Qed.

Lemma weightedReturn_sign (newResults backtestResults : gmap string BacktestResult)
    (activeNext : list AgentGenome) :
  ((forall a, a ∈ activeNext -> 0 <= agentReturn newResults backtestResults a) ->
   0 <= weightedReturn newResults backtestResults activeNext) /\
  ((forall a, a ∈ activeNext -> agentReturn newResults backtestResults a <= 0) ->
   weightedReturn newResults backtestResults activeNext <= 0).
Proof.
  destruct activeNext as [|a0 l] eqn:El.
  - split; intros _; cbn; lra.
  - rewrite <- El.
    assert (Hne : activeNext <> []) by (rewrite El; discriminate).
    assert (HT0 : 0 < totalActiveFitness activeNext).
    { unfold totalActiveFitness. rewrite totalActiveFitness_sum.
      assert (Hpos := sumWeights_pos activeNext Hne). lra. }
    destruct (weighted_fold_sign (agentReturn newResults backtestResults)
                (totalActiveFitness activeNext) activeNext 0 HT0) as [Hp Hn].
    unfold weightedReturn. cbv zeta.
    split; intros Hall; [apply Hp | apply Hn]; try exact Hall; lra.
Qed.

(** X25: The portfolio snapshot follows the sign of the agents' returns: if no
    agent alive after the cycle has a negative return, the fitness-weighted
    return is not negative and the snapshot shows a capital of at least
    100,000 and a non-negative P&L; if none has a positive return, the
    weighted return is not positive, the capital is at most 100,000 and the
    P&L is not positive. *)
Theorem portfolio_follows_sign_of_returns
    (newResults backtestResults : gmap string BacktestResult)
    (activeNext : list AgentGenome) :
  let weighted := weightedReturn newResults backtestResults activeNext in
  let snap := portfolioSnapshot newResults backtestResults activeNext in
  ((forall a, a ∈ activeNext -> 0 <= agentReturn newResults backtestResults a) ->
   0 <= weighted /\ (100000 <= ps_capital snap)%Z /\ (0 <= ps_pnl snap)%Z) /\
  ((forall a, a ∈ activeNext -> agentReturn newResults backtestResults a <= 0) ->
   weighted <= 0 /\ (ps_capital snap <= 100000)%Z /\ (ps_pnl snap <= 0)%Z).
Proof.
  cbv zeta. destruct (weightedReturn_sign newResults backtestResults activeNext) as [Hp Hn].
  unfold portfolioSnapshot. cbn [ps_capital ps_pnl].
  set (w := weightedReturn newResults backtestResults activeNext) in *.
  assert (Hbase : Math_round (INITIAL_CAPITAL * (1 + 0)) = 100000%Z) by reflexivity.
  split; intros Hall.
  - specialize (Hp Hall).
    assert (Hg : 0 <= genReturnOf w).
    { unfold genReturnOf. apply Qle_trans with (Qmin w 2.00); [|apply Q.le_max_r].
      apply Q.min_glb; lra. }
    assert (Hc : (100000 <= Math_round (INITIAL_CAPITAL * (1 + genReturnOf w)))%Z).
    { rewrite <- Hbase. apply Math_round_mono. unfold INITIAL_CAPITAL. nra. }
    split; [exact Hp|]. split; [exact Hc | lia].
  - specialize (Hn Hall).
    assert (Hg : genReturnOf w <= 0).
    { unfold genReturnOf. apply Q.max_lub; [lra|].
      apply Qle_trans with w; [apply Q.le_min_l | exact Hn]. }
    assert (Hc : (Math_round (INITIAL_CAPITAL * (1 + genReturnOf w)) <= 100000)%Z).
    { rewrite <- Hbase. apply Math_round_mono. unfold INITIAL_CAPITAL. nra. }
    split; [exact Hn|]. split; [exact Hc | lia].
Qed.

Lemma portfolio_follows_sign_of_returns_witness :
  (forall a, a ∈ [sampleAgent 0; sampleAgent 1] ->
     0 <= agentReturn {[ "AGT-001"%string := sampleResult ]} ∅ a) /\
  (100000 <= ps_capital (portfolioSnapshot {[ "AGT-001"%string := sampleResult ]} ∅
                           [sampleAgent 0; sampleAgent 1]))%Z.
Proof.
  assert (Hall : forall a, a ∈ [sampleAgent 0; sampleAgent 1] ->
            0 <= agentReturn {[ "AGT-001"%string := sampleResult ]} ∅ a).
  { intros a Ha. apply elem_of_cons in Ha as [->|Ha].
    - vm_compute. discriminate.
    - apply list_elem_of_singleton in Ha as ->. vm_compute. discriminate. }
  split; [exact Hall|].
  exact (proj1 (proj2 (proj1 (portfolio_follows_sign_of_returns _ ∅ _) Hall))).
Defined.

(** ** Fitness formula *)

Lemma Qclamp_mono (lo hi x y : Q) :
  x <= y -> Qmin (Qmax x lo) hi <= Qmin (Qmax y lo) hi.
Proof.
  intros H. apply Q.min_le_compat_r. apply Q.max_le_compat_r. exact H.
Qed.

(** X26: computeFitness is monotone: a higher Sharpe ratio, total return or
    win rate never lowers the fitness, and a larger drawdown never raises it. *)
Theorem computeFitness_monotone (s1 s2 r1 r2 w1 w2 d1 d2 : Q) :
  s1 <= s2 -> r1 <= r2 -> w1 <= w2 -> d2 <= d1 ->
  computeFitness s1 r1 w1 d1 <= computeFitness s2 r2 w2 d2.
Proof.
  intros Hs Hr Hw Hd. unfold computeFitness.
  apply toFixed_mono; [lia|].
  assert (Cs := Qclamp_mono (-2) 4 s1 s2 Hs).
  assert (Cr := Qclamp_mono (-50) 150 r1 r2 Hr).
  assert (Cd := Qclamp_mono 0 60 d2 d1 Hd).
  set (cs1 := Qmin (Qmax s1 (-2)) 4) in *. set (cs2 := Qmin (Qmax s2 (-2)) 4) in *.
  set (cr1 := Qmin (Qmax r1 (-50)) 150) in *. set (cr2 := Qmin (Qmax r2 (-50)) 150) in *.
  set (cd1 := Qmin (Qmax d1 0) 60) in *. set (cd2 := Qmin (Qmax d2 0) 60) in *.
  clearbody cs1 cs2 cr1 cr2 cd1 cd2.
  assert (Hraw :
    0.40 * ((cs1 + 2) / 6) + 0.30 * ((cr1 + 50) / 200) + 0.20 * (w1 / 100)
      + 0.10 * (1 - cd1 / 60)
    <= 0.40 * ((cs2 + 2) / 6) + 0.30 * ((cr2 + 50) / 200) + 0.20 * (w2 / 100)
      + 0.10 * (1 - cd2 / 60)).
  { assert (E1 : forall x, (x + 2) / 6 == (x + 2) * (1 # 6)) by (intros; field).
    assert (E2 : forall x, (x + 50) / 200 == (x + 50) * (1 # 200)) by (intros; field).
    assert (E3 : forall x, x / 100 == x * (1 # 100)) by (intros; field).
    assert (E4 : forall x, x / 60 == x * (1 # 60)) by (intros; field).
    rewrite !E1, !E2, !E3, !E4. lra. }
  assert (Hc := Qclamp_mono 0 1 _ _ Hraw).
  set (c1 := Qmin (Qmax _ 0) 1) in *. set (c2 := Qmin (Qmax _ 0) 1) in *.
  clearbody c1 c2. lra.
Qed.

Lemma computeFitness_monotone_witness :
  1 <= 2 /\ 10 <= 30 /\ 40 <= 60 /\ 5 <= 20 /\
  computeFitness 1 10 40 20 <= computeFitness 2 30 60 5 /\
  computeFitness 4 150 100 0 == 100 /\ computeFitness (-2) (-50) 0 60 == 0.
Proof.
  assert (H1 : 1 <= 2) by (vm_compute; discriminate).
  assert (H2 : 10 <= 30) by (vm_compute; discriminate).
  assert (H3 : 40 <= 60) by (vm_compute; discriminate).
  assert (H4 : 5 <= 20) by (vm_compute; discriminate).
  split; [exact H1|]. split; [exact H2|]. split; [exact H3|]. split; [exact H4|].
  split; [exact (computeFitness_monotone 1 2 10 30 40 60 20 5 H1 H2 H3 H4)|].
  split; vm_compute; reflexivity.
Defined.

(** ** Stored agents and the first population *)

(** X27: Writing an agent with agentToDb and reading it back with dbToAgent
    returns the same agent; the reverse round trip returns the same row
    exactly when the row's genome_indicator_weight is 0.5, the value agentToDb
    always writes. *)
Theorem stored_agent_round_trip (a : AgentGenome) (row : AgentRow) :
  dbToAgent (agentToDb a) = a /\
  (agentToDb (dbToAgent row) = row <-> genome_indicator_weight row = 0.5).
Proof.
  split.
  - destruct a as [? ? ? ? ? ? ? ? ? ? ? ? []]. reflexivity.
  - destruct row. unfold agentToDb, dbToAgent. cbn. split.
    + intros H. injection H as <-. reflexivity.
    + intros ->. reflexivity.
Qed.

Lemma lcgNext_range (s : Z) : (0 <= lcgNext s < 2 ^ 32)%Z.
Proof. unfold lcgNext. apply Z.mod_pos_bound. lia. Qed.

Lemma lcgState_range (seed : Z) (n : nat) : (0 <= lcgState seed n < 2 ^ 32)%Z.
Proof. destruct n; cbn [lcgState]; apply lcgNext_range. Qed.

Lemma rng_range (seed : Z) (n : nat) : 0 <= rng seed n <= 1.
Proof.
  unfold rng. assert (H := lcgState_range seed n).
  assert (H0 : 0 <= inject_Z (lcgState seed n)).
  { change 0 with (inject_Z 0). rewrite <- Zle_Qle. lia. }
  assert (H1 : inject_Z (lcgState seed n) <= 4294967295).
  { change 4294967295 with (inject_Z 4294967295). rewrite <- Zle_Qle.
    change (2 ^ 32)%Z with 4294967296%Z in H. lia. }
  split; [apply Qle_shift_div_l | apply Qle_shift_div_r]; lra.
Qed.

(** X28: For a seed in [0, 2^32) every value returned by rng(seed) lies in
    [0,1] (1 included), the state stays a 32-bit unsigned integer, and the sum
    computed at each step stays below 2^53, so double-precision arithmetic
    computes it exactly. *)
Theorem rng_stays_in_unit_interval (seed : Z) (n : nat) :
  (0 <= seed < 2 ^ 32)%Z ->
  0 <= rng seed n <= 1 /\
  (0 <= lcgState seed n < 2 ^ 32)%Z /\
  (lcgState seed n * 1664525 + 1013904223 < 2 ^ 53)%Z /\
  (seed * 1664525 + 1013904223 < 2 ^ 53)%Z.
Proof.
  intros Hseed. assert (H := lcgState_range seed n).
  split; [apply rng_range|]. split; [exact H|].
  change (2 ^ 32)%Z with 4294967296%Z in *. change (2 ^ 53)%Z with 9007199254740992%Z.
  lia.
Qed.

Lemma rng_stays_in_unit_interval_witness :
  (0 <= 12345 < 2 ^ 32)%Z /\ 0 <= rng 12345 0 <= 1 /\ lcgState 12345 0 = 87628868%Z.
Proof.
  assert (H : (0 <= 12345 < 2 ^ 32)%Z) by (vm_compute; split; [discriminate | reflexivity]).
  split; [exact H|].
  split; [exact (proj1 (rng_stays_in_unit_interval 12345 0 H)) | reflexivity].
Defined.

Lemma buildAgent_archetype (rand : nat -> Q) (i : nat) :
  row_archetype (buildAgent rand i)
  = archetypeFromGenome (genome_entry_logic (buildAgent rand i))
                        (genome_exit_discipline (buildAgent rand i)).
Proof. reflexivity. Qed.

(** X29: The rows made by buildAgents(count), read through dbToAgent, are
    count agents with the pairwise distinct ids AGT-001, AGT-002, ..., all
    active, of generation 0, with fitness 50, genes in [0,1], and the
    archetype that archetypeFromGenome assigns to their genes. *)
Theorem buildAgents_population (seed : Z) (count : nat) :
  let agents := map dbToAgent (buildAgents seed count) in
  length agents = count /\
  NoDup (map ag_id agents) /\
  map ag_id agents = map (freshId 0) (seq 0 count) /\
  Forall (fun a =>
    alive a = true /\ ag_status a = active /\ ag_generation a = 0%Z /\ ag_fitness a = 50 /\
    ag_archetype a = archetypeFromGenome (fastMA (genome a)) (slowMA (genome a)) /\
    0 <= fastMA (genome a) <= 1 /\ 0 <= slowMA (genome a) <= 1 /\
    0 <= riskAversion (genome a) <= 1 /\ 0 <= assetIdx (genome a) <= 1) agents.
Proof.
  cbv zeta. unfold buildAgents.
  assert (Hids : map ag_id (map dbToAgent (map (buildAgent (rng seed)) (seq 0 count)))
                 = map (freshId 0) (seq 0 count)).
  { rewrite !map_map. apply map_ext. intros i. reflexivity. }
  split; [rewrite !length_map, length_seq; reflexivity|].
  split; [|split; [exact Hids|]].
  - rewrite Hids. apply NoDup_fmap_2_strong; [|apply NoDup_seq].
    intros n m _ _ E. exact (freshId_inj 0 n m (Z.le_refl 0) E).
  - apply Forall_forall. intros a Ha.
    apply list_elem_of_fmap in Ha as (row & -> & Hrow).
    apply list_elem_of_fmap in Hrow as (i & -> & _).
    cbn. repeat split; try apply rng_range.
Qed.

(** ** Outcomes of a cycle *)

Lemma runGeneration_no_prices (tanh sqrt : Q -> Q) (TOP_15 : list string)
    (SYMBOL_LABEL : gmap string string) (rnd : nat -> Q) (agents : list AgentGenome)
    (currentGen : Z) :
  runGeneration tanh sqrt TOP_15 SYMBOL_LABEL rnd agents ∅ currentGen = PriceDataNotLoaded.
Proof. reflexivity. Qed.

(** With price data, draws in [[0, 1)] and an agent alive, the cycle completes. *)
Lemma generation_completes (tanh sqrt : Q -> Q) (TOP_15 : list string)
    (SYMBOL_LABEL : gmap string string) (rnd : nat -> Q) (agents : list AgentGenome)
    (priceHistory : gmap string (list OHLCVBar)) (currentGen : Z) :
  (forall k, 0 <= rnd k < 1) ->
  priceHistory <> ∅ ->
  filter (fun a => alive a = true) agents <> [] ->
  exists s, runGeneration tanh sqrt TOP_15 SYMBOL_LABEL rnd agents priceHistory currentGen
            = GenerationComplete s.
Proof.
  intros Hrnd Hne Hact. unfold runGeneration.
  destruct (Nat.eqb_spec (size priceHistory) 0) as [Hs|_];
    [exfalso; apply Hne, map_size_empty_iff, Hs|].
  assert (Hl := scoreAll_length tanh sqrt TOP_15 SYMBOL_LABEL priceHistory
                  (filter (fun a => alive a = true) agents) ∅).
  destruct (scoreAll tanh sqrt TOP_15 SYMBOL_LABEL priceHistory
              (filter (fun a => alive a = true) agents) ∅) as [backtested newResults].
  cbn [fst] in Hl.
  set (sorted := sortDesc (nicheSelectFitness backtested newResults) backtested).
  assert (Hlen : length sorted = length (filter (fun a => alive a = true) agents)).
  { unfold sorted. rewrite sortDesc_Permutation. exact Hl. }
  assert (Htop : take (Z.to_nat (breedCountOf (length sorted))) sorted <> []).
  { destruct sorted as [|x l].
    - destruct (filter (fun a => alive a = true) agents); [congruence | discriminate].
    - assert (Hb : (2 <= breedCountOf (length (x :: l)))%Z) by (unfold breedCountOf; lia).
      destruct (Z.to_nat (breedCountOf (length (x :: l)))) eqn:E; [lia | discriminate]. }
  destruct (breedFrom_defined rnd _ (maxIdOf agents) currentGen
              (Z.to_nat (cullCountOf (length sorted))) 0 0 Htop Hrnd)
    as (raw & k' & -> & Hrl & Hrs).
  destruct (scoreAll tanh sqrt TOP_15 SYMBOL_LABEL priceHistory raw newResults).
  eexists. reflexivity.
Qed.

(** X30: With draws in [0,1): a cycle stops with 'price data not loaded'
    exactly when the price history is empty; its computation reaches the
    persistence step exactly when price data is loaded and some agent is
    alive; it completes exactly when that computation succeeds and the awaited
    database writes all resolve; and it reports 'Generation Failed' exactly
    when price data is loaded and either no agent is alive or a database write
    rejects. *)
Theorem generation_outcome_cases (tanh sqrt : Q -> Q) (TOP_15 : list string)
    (SYMBOL_LABEL : gmap string string) (rnd : nat -> Q) (writes : GenSummary -> bool)
    (agents : list AgentGenome)
    (priceHistory : gmap string (list OHLCVBar)) (currentGen : Z) :
  (forall k, 0 <= rnd k < 1) ->
  let computed :=
    runGeneration tanh sqrt TOP_15 SYMBOL_LABEL rnd agents priceHistory currentGen in
  let outcome :=
    runGenerationStored tanh sqrt TOP_15 SYMBOL_LABEL rnd writes agents priceHistory
      currentGen in
  let active := filter (fun a => alive a = true) agents in
  (outcome = PriceDataNotLoaded <-> priceHistory = ∅) /\
  ((exists s, computed = GenerationComplete s) <-> priceHistory <> ∅ /\ active <> []) /\
  (forall s, outcome = GenerationComplete s <->
             computed = GenerationComplete s /\ writes s = true) /\
  (outcome = GenerationFailed <->
   priceHistory <> ∅ /\
   (active = [] \/ exists s, computed = GenerationComplete s /\ writes s = false)).
Proof.
  intros Hrnd computed outcome active.
  assert (Hcases :
    (priceHistory = ∅ /\ computed = PriceDataNotLoaded) \/
    (priceHistory <> ∅ /\ active = [] /\ computed = GenerationFailed) \/
    (priceHistory <> ∅ /\ active <> [] /\ exists s, computed = GenerationComplete s)).
  { destruct (decide (priceHistory = ∅)) as [He|Hne].
    - left. split; [exact He|]. unfold computed. rewrite He. apply runGeneration_no_prices.
    - right. destruct active as [|a0 rest] eqn:Ea.
      + left. split; [exact Hne|]. split; [reflexivity|].
        apply runGeneration_no_active; [|exact Ea].
        intros Hs. apply Hne, map_size_empty_iff, Hs.
      + right. split; [exact Hne|]. split; [discriminate|].
        apply generation_completes; [exact Hrnd | exact Hne |].
        fold active. rewrite Ea. discriminate. }
  assert (Hout : outcome = match computed with
                           | GenerationComplete s =>
                               if writes s then GenerationComplete s else GenerationFailed
                           | PriceDataNotLoaded => PriceDataNotLoaded
                           | GenerationFailed => GenerationFailed
                           end) by reflexivity.
  clearbody outcome computed active.
  destruct Hcases as [[H1 H2]|[(H1 & H2 & H3)|(H1 & H2 & s0 & H3)]];
    rewrite Hout; subst computed.
  - split; [split; intros; done|].
    split; [split; [intros [s Hs]; discriminate | intros [Hne _]; contradiction]|].
    split; [intros s; split; [discriminate | intros [Hs _]; discriminate]|].
    split; [discriminate | intros [Hne _]; contradiction].
  - split; [split; [discriminate | intros; contradiction]|].
    split; [split; [intros [s Hs]; discriminate | intros [_ Hne]; contradiction]|].
    split; [intros s; split; [discriminate | intros [Hs _]; discriminate]|].
    split; [intros _; split; [exact H1 | left; exact H2] | reflexivity].
  - split; [split; [destruct (writes s0); discriminate | intros; contradiction]|].
    split; [split; [intros _; split; assumption | intros _; exists s0; reflexivity]|].
    destruct (writes s0) eqn:Ew.
    + split.
      * intros s. split.
        -- intros Hs. injection Hs as <-. split; [reflexivity | exact Ew].
        -- intros [Hs _]. exact Hs.
      * split; [discriminate|].
        intros [_ [He|(s & Hs & Hw)]]; [contradiction|].
        injection Hs as <-. congruence.
    + split.
      * intros s. split; [discriminate|].
        intros [Hs Hw]. injection Hs as <-. congruence.
      * split; [|reflexivity].
        intros _. split; [exact H1|]. right. exists s0. split; [reflexivity | exact Ew].
Qed.

Lemma generation_outcome_cases_witness :
  (forall k, 0 <= sampleRnd k < 1) /\
  runGenerationStored tanhQ sqrtQ sampleSymbols sampleLabels sampleRnd (fun _ => true)
    samplePopulation ∅ 0 = PriceDataNotLoaded /\
  (runGenerationStored tanhQ sqrtQ sampleSymbols sampleLabels sampleRnd (fun _ => false)
     samplePopulation samplePrices 0 = GenerationFailed <->
   samplePrices <> ∅ /\
   (filter (fun a => alive a = true) samplePopulation = [] \/
    exists s, runGeneration tanhQ sqrtQ sampleSymbols sampleLabels sampleRnd
                samplePopulation samplePrices 0 = GenerationComplete s /\
              (fun _ : GenSummary => false) s = false)).
Proof.
  split; [exact sampleRnd_range|]. split; [reflexivity|].
  exact (proj2 (proj2 (proj2 (generation_outcome_cases tanhQ sqrtQ sampleSymbols
                         sampleLabels sampleRnd (fun _ => false) samplePopulation
                         samplePrices 0 sampleRnd_range)))).
Defined.

(** ** A sample cycle *)

Lemma samplePopulation_NoDup : NoDup (map ag_id samplePopulation).
Proof.
  apply (bool_decide_unpack (NoDup (map ag_id samplePopulation))). vm_compute. exact I.
Qed.

(** The cycle over the sample population completes. *)
Lemma sample_generation :
  exists s,
    runGeneration tanhQ sqrtQ sampleSymbols sampleLabels sampleRnd samplePopulation
                  samplePrices 0 = GenerationComplete s.
Proof.
  apply generation_completes; [exact sampleRnd_range | |]; vm_compute; discriminate.
Qed.

(** A completed cycle has a first offspring. *)
Lemma first_offspring (tanh sqrt : Q -> Q) (TOP_15 : list string)
    (SYMBOL_LABEL : gmap string string) (rnd : nat -> Q) (agents : list AgentGenome)
    (priceHistory : gmap string (list OHLCVBar)) (currentGen : Z) (s : GenSummary) :
  runGeneration tanh sqrt TOP_15 SYMBOL_LABEL rnd agents priceHistory currentGen
    = GenerationComplete s ->
  exists child, gs_born s !! 0%nat = Some child.
Proof.
  intros H.
  destruct (born_spec tanh sqrt TOP_15 SYMBOL_LABEL rnd priceHistory agents currentGen s H)
    as [Hlen _].
  destruct (runGeneration_inv tanh sqrt TOP_15 SYMBOL_LABEL rnd priceHistory
              agents currentGen s H) as (_ & raw & k' & _ & _ & Hcc & _).
  assert (Hc : (1 <= gs_cullCount s)%Z) by (rewrite Hcc; unfold cullCountOf; lia).
  destruct (gs_born s) as [|child rest]; [simpl in Hlen; lia|].
  exists child. reflexivity.
Qed.

(** A completed cycle culls at least one agent and no more than there are. *)
Lemma cullCount_bounds (tanh sqrt : Q -> Q) (TOP_15 : list string)
    (SYMBOL_LABEL : gmap string string) (rnd : nat -> Q) (agents : list AgentGenome)
    (priceHistory : gmap string (list OHLCVBar)) (currentGen : Z) (s : GenSummary) :
  runGeneration tanh sqrt TOP_15 SYMBOL_LABEL rnd agents priceHistory currentGen
    = GenerationComplete s ->
  (1 <= gs_cullCount s <= Z.max 1 (Z.of_nat (length agents)))%Z.
Proof.
  intros H.
  destruct (runGeneration_inv tanh sqrt TOP_15 SYMBOL_LABEL rnd priceHistory
              agents currentGen s H) as (_ & raw & k' & _ & _ & Hcc & _).
  rewrite Hcc. unfold cullCountOf.
  rewrite sortDesc_Permutation, scoreAll_length.
  assert (Hf := length_filter (fun a => alive a = true) agents).
  set (n := length (filter (fun a => alive a = true) agents)) in *.
  assert (Hq : (Qfloor (inject_Z (Z.of_nat n) * 0.20) <= Z.of_nat n)%Z).
  { rewrite Zle_Qle.
    assert (Hfl := Qfloor_le (inject_Z (Z.of_nat n) * 0.20)).
    assert (H0 : 0 <= inject_Z (Z.of_nat n)).
    { change 0 with (inject_Z 0). rewrite <- Zle_Qle. lia. }
    set (x := inject_Z (Z.of_nat n)) in *. clearbody x. lra. }
  lia.
Qed.

Lemma crossoverMutate_stays_near_parents_witness :
  (forall j, 0 <= sampleRnd j < 1) /\
  0 <= fastMA parentA <= 1 /\ 0 <= fastMA parentB <= 1 /\
  0.2 - MUT <= fastMA (fst (crossoverMutate sampleRnd parentA parentB 0)) <= 0.6 + MUT /\
  assetIdx (fst (crossoverMutate sampleRnd parentA parentB 0)) == 0.
Proof.
  assert (R : forall x : Q, Qle_bool 0 x && Qle_bool x 1 = true -> 0 <= x <= 1).
  { intros x H. apply andb_prop in H as [H0 H1].
    split; apply Qle_bool_iff; assumption. }
  assert (Hf1 : 0 <= fastMA parentA <= 1) by (apply R; reflexivity).
  assert (Hf2 : 0 <= fastMA parentB <= 1) by (apply R; reflexivity).
  split; [exact sampleRnd_range|]. split; [exact Hf1|]. split; [exact Hf2|].
  destruct (crossoverMutate_stays_near_parents sampleRnd parentA parentB 0 sampleRnd_range
              Hf1 Hf2 ltac:(apply R; reflexivity) ltac:(apply R; reflexivity)
              ltac:(apply R; reflexivity) ltac:(apply R; reflexivity)
              ltac:(apply R; reflexivity) ltac:(apply R; reflexivity))
    as (B1 & _).
  split; [exact B1 | vm_compute; reflexivity].
Defined.

Lemma culled_have_lowest_selection_fitness_witness :
  exists s,
    runGeneration tanhQ sqrtQ sampleSymbols sampleLabels sampleRnd samplePopulation
                  samplePrices 0 = GenerationComplete s /\
    let scored := scoreAll tanhQ sqrtQ sampleSymbols sampleLabels samplePrices
                    (filter (fun a => alive a = true) samplePopulation) ∅ in
    exists kept,
      fst scored ≡ₚ kept ++ gs_culled s /\
      (forall a c, a ∈ kept -> c ∈ gs_culled s ->
         nicheSelectFitness (fst scored) (snd scored) c
         <= nicheSelectFitness (fst scored) (snd scored) a).
Proof.
  destruct sample_generation as (s & Hs).
  exists s. split; [exact Hs|].
  destruct (culled_have_lowest_selection_fitness tanhQ sqrtQ sampleSymbols sampleLabels
              sampleRnd samplePrices samplePopulation 0 s Hs) as (kept & H1 & H2 & _).
  exists kept. split; assumption.
Defined.

Lemma offspring_come_from_breeding_pool_witness :
  exists s child,
    runGeneration tanhQ sqrtQ sampleSymbols sampleLabels sampleRnd samplePopulation
                  samplePrices 0 = GenerationComplete s /\
    gs_born s !! 0%nat = Some child /\
    (maxIdOf samplePopulation + Z.of_nat 0 + 1 <= 2 ^ 53)%Z /\
    ag_id child = "AGT-011"%string /\
    ag_generation child = 1%Z /\ ag_status child = newborn.
Proof.
  destruct sample_generation as (s & Hs).
  destruct (first_offspring _ _ _ _ _ _ _ _ _ Hs) as [child H0].
  assert (Hsafe : (maxIdOf samplePopulation + Z.of_nat 0 + 1 <= 2 ^ 53)%Z)
    by (vm_compute; discriminate).
  exists s, child. split; [exact Hs|]. split; [exact H0|]. split; [exact Hsafe|].
  destruct (offspring_come_from_breeding_pool tanhQ sqrtQ sampleSymbols sampleLabels
              sampleRnd samplePrices samplePopulation 0 s 0 child Hs H0 Hsafe)
    as (Hid & Hgen & Hst & _).
  split; [|split; [exact Hgen | exact Hst]].
  rewrite Hid. vm_compute. reflexivity.
Defined.

Lemma survivors_keep_identity_witness :
  exists s a',
    runGeneration tanhQ sqrtQ sampleSymbols sampleLabels sampleRnd samplePopulation
                  samplePrices 0 = GenerationComplete s /\
    NoDup (map ag_id samplePopulation) /\
    samplePopulation !! 1%nat = Some (sampleAgent 1) /\
    gs_agents s !! 1%nat = Some a' /\
    ag_id a' = "AGT-002"%string /\ genome a' = genome (sampleAgent 1) /\
    ag_status a' <> newborn.
Proof.
  destruct sample_generation as (s & Hs).
  assert (Hi : samplePopulation !! 1%nat = Some (sampleAgent 1)) by reflexivity.
  destruct (survivors_keep_identity tanhQ sqrtQ sampleSymbols sampleLabels sampleRnd
              samplePrices samplePopulation 0 s 1 (sampleAgent 1) Hs
              samplePopulation_NoDup Hi)
    as (a' & Ha' & Hid & _ & Hg & _ & _ & Hst & _).
  exists s, a'. split; [exact Hs|]. split; [exact samplePopulation_NoDup|].
  split; [exact Hi|]. split; [exact Ha'|]. split; [rewrite Hid; reflexivity|].
  split; [exact Hg | exact Hst].
Defined.

Lemma generation_keeps_ids_distinct_witness :
  exists s,
    runGeneration tanhQ sqrtQ sampleSymbols sampleLabels sampleRnd samplePopulation
                  samplePrices 0 = GenerationComplete s /\
    NoDup (map ag_id samplePopulation) /\
    (maxIdOf samplePopulation + gs_cullCount s <= 2 ^ 53)%Z /\
    NoDup (map ag_id (gs_agents s)).
Proof.
  destruct sample_generation as (s & Hs).
  assert (Hsafe : (maxIdOf samplePopulation + gs_cullCount s <= 2 ^ 53)%Z).
  { assert (Hb := cullCount_bounds _ _ _ _ _ _ _ _ _ Hs).
    assert (Hm : maxIdOf samplePopulation = 10%Z) by (vm_compute; reflexivity).
    assert (Hl : length samplePopulation = 10%nat) by reflexivity.
    rewrite Hm. rewrite Hl in Hb.
    change (2 ^ 53)%Z with 9007199254740992%Z. lia. }
  exists s. split; [exact Hs|]. split; [exact samplePopulation_NoDup|].
  split; [exact Hsafe|].
  exact (proj1 (generation_keeps_ids_distinct tanhQ sqrtQ sampleSymbols sampleLabels sampleRnd
                  samplePrices samplePopulation 0 s Hs samplePopulation_NoDup Hsafe)).
Defined.
